(** * QNNPACK max pooling operator: creation and setup (src/max-pooling.c)

    A shallow embedding of [compute_output_dimension],
    [qnnp_create_max_pooling2d_nhwc_u8] and
    [qnnp_setup_max_pooling2d_nhwc_u8], followed by the properties of the
    output geometry, the parameter validation, the setup cache and the
    indirection buffer.

    Machine model: an LP64 target.  [size_t] and pointers are 64 bits wide,
    [uint32_t] is 32 bits wide, unsigned arithmetic wraps around, and
    [sizeof(void* )] is 8.  Integers are values of [Z]; every wrap-around is
    written out.

    The embedding follows the program on the calls whose behaviour C
    defines.  A setup call leaves them when it divides by a zero stride,
    when it asks [realloc] for zero bytes on an existing block, or when the
    requested size has wrapped around and the population loop stores beyond
    the block; [setup_defined] is the predicate that excludes the three. *)

From Stdlib Require Import ZArith Lia Bool.
From stdpp Require Import base numbers list list_numbers gmap fin_maps.

Local Open Scope Z_scope.

(** ** Unsigned machine arithmetic *)

Definition size_modulus : Z := 2 ^ 64.
Definition uint32_modulus : Z := 2 ^ 32.
Definition sizeof_pointer : Z := 8.

Definition is_size_t (z : Z) : Prop := 0 <= z < size_modulus.
Definition is_uint32 (z : Z) : Prop := 0 <= z < uint32_modulus.

Definition to_size_t (z : Z) : Z := z mod size_modulus.
Definition to_uint32 (z : Z) : Z := z mod uint32_modulus.

Definition size_add (a b : Z) : Z := to_size_t (a + b).
Definition size_sub (a b : Z) : Z := to_size_t (a - b).
Definition size_mul (a b : Z) : Z := to_size_t (a * b).
(** Division of unsigned values.  The divisor is a stride, which creation
    rejects when zero; at zero the C division is undefined and [Z.div]
    yields [0]. *)
Definition size_div (a b : Z) : Z := a / b.

Definition uint32_sub (a b : Z) : Z := to_uint32 (a - b).
Definition uint32_mul (a b : Z) : Z := to_uint32 (a * b).

(** Address arithmetic on a byte pointer, in a flat 64-bit address space. *)
Definition pointer_add (p offset : Z) : Z := to_size_t (p + offset).

Infix "+%" := size_add (at level 50, left associativity) : Z_scope.
Infix "-%" := size_sub (at level 50, left associativity) : Z_scope.
Infix "*%" := size_mul (at level 40, left associativity) : Z_scope.
Infix "/%" := size_div (at level 40, left associativity) : Z_scope.

(** Modelled from the spec: the helpers [min], [max] and [doz] of
    qnnpack/math.h, whose header is not part of the sources at hand.  [doz]
    is the saturating subtraction (difference or zero) of the glossary:
    subtraction clamped at zero. *)
Definition size_min (a b : Z) : Z := if a <? b then a else b.
Definition size_max (a b : Z) : Z := if a >? b then a else b.
Definition doz (a b : Z) : Z := if a <? b then 0 else a - b.

(** ** Status codes, diagnostics and global parameters *)

(** The status codes of qnnpack.h that this file returns. *)
Inductive qnnp_status : Set :=
  | qnnp_status_success
  | qnnp_status_uninitialized
  | qnnp_status_invalid_parameter
  | qnnp_status_out_of_memory.

Global Instance qnnp_status_eq_dec : EqDecision qnnp_status.
Proof. solve_decision. Defined.

(** One constructor per [qnnp_log_error] call site, in source order. *)
Inductive log_event : Set :=
  | log_create_uninitialized
  | log_zero_pooling_size (pooling_width pooling_height : Z)
  | log_one_pooling_element
  | log_zero_stride (stride_width stride_height : Z)
  | log_zero_dilation (dilation_width dilation_height : Z)
  | log_zero_channels (channels : Z)
  | log_operator_allocation_failed
  | log_setup_uninitialized
  | log_zero_batch_size (batch_size : Z)
  | log_zero_input_dimensions (input_width input_height : Z)
  | log_indirection_allocation_failed (indirection_buffer_size : Z).

(** The part of the global [qnnp_params] this file reads: the
    initialization flag and the row count [u8maxpool.mr] of the max pooling
    micro-kernel (a [uint32_t]). *)
Record qnnp_parameters : Set := {
  initialized : bool;
  u8maxpool_mr : Z;
}.

Inductive qnnp_ukernel_type : Set :=
  | qnnp_ukernel_type_none
  | qnnp_ukernel_type_max_pooling.

Inductive qnnp_format : Set :=
  | qnnp_format_none
  | qnnp_format_quint8.

(** Modelled from the spec: [qnnp_compute_maxpool_quantization_params] is
    an external collaborator; it is given the output bounds and returns a
    clamp descriptor that the operator stores verbatim. *)
Record maxpool_quantization_params_t : Set := {
  quantization_output_min : Z;
  quantization_output_max : Z;
}.

Definition qnnp_compute_maxpool_quantization_params
    (output_min output_max : Z) : maxpool_quantization_params_t :=
  {| quantization_output_min := output_min;
     quantization_output_max := output_max |}.

(** ** The operator descriptor *)

(** The indirection buffer is a heap block owned by the operator: its
    address, its size in bytes as last requested from the allocator, and the
    pointer-sized entries stored so far, keyed by entry index.  An index
    with no entry holds indeterminate memory. *)
Record indirection_block := {
  block_address : Z;
  block_bytes : Z;
  block_entries : gmap Z Z;
}.

(** The fields of [struct qnnp_operator] that max-pooling.c reads or
    writes.  Pointers are addresses; [indirection_buffer] is [None] for the
    null pointer. *)
Record qnnp_operator := {
  input_padding_top : Z;
  input_padding_right : Z;
  input_padding_bottom : Z;
  input_padding_left : Z;
  kernel_height : Z;
  kernel_width : Z;
  stride_height : Z;
  stride_width : Z;
  dilation_height : Z;
  dilation_width : Z;
  channels : Z;
  batch_size : Z;
  input_height : Z;
  input_width : Z;
  input : Z;
  input_pixel_stride : Z;
  output_height : Z;
  output_width : Z;
  output : Z;
  output_pixel_stride : Z;
  last_input : Z;
  last_input_height : Z;
  last_input_width : Z;
  valid_batch_size : Z;
  indirection_buffer : option indirection_block;
  maxpool_quantization_params : maxpool_quantization_params_t;
  ukernel_type : qnnp_ukernel_type;
  format : qnnp_format;
}.

(** ** Output geometry *)

Definition compute_output_dimension
    (padded_input_dimension kernel_dimension dilation_dimension
     stride_dimension : Z) : Z :=
  let effective_kernel_dimension :=
    (kernel_dimension -% 1) *% dilation_dimension +% 1 in
  (padded_input_dimension -% effective_kernel_dimension) /% stride_dimension
  +% 1.

(** ** Creation *)

Record create_result := {
  create_status : qnnp_status;
  (** the handle stored through [max_pooling_out]; [None] when it is left
      unwritten *)
  create_operator : option qnnp_operator;
  (** whether [calloc] was called *)
  create_allocated : bool;
  create_log : list log_event;
}.

(** The error exit: [qnnp_delete_operator] is handed the null handle on
    every path that reaches it, so it releases nothing. *)
Definition create_error (status : qnnp_status) (allocated : bool)
    (event : log_event) : create_result :=
  {| create_status := status;
     create_operator := None;
     create_allocated := allocated;
     create_log := [event] |}.

(** [calloc_succeeds] is the allocator's answer to the one [calloc] call. *)
Definition qnnp_create_max_pooling2d_nhwc_u8
    (qnnp_params : qnnp_parameters) (calloc_succeeds : bool)
    (input_padding_top input_padding_right input_padding_bottom
     input_padding_left pooling_height pooling_width stride_height
     stride_width dilation_height dilation_width channels output_min
     output_max : Z) : create_result :=
  if negb (initialized qnnp_params) then
    create_error qnnp_status_uninitialized false log_create_uninitialized
  else
    let pooling_size := uint32_mul pooling_height pooling_width in
    if pooling_size =? 0 then
      create_error qnnp_status_invalid_parameter false
        (log_zero_pooling_size pooling_width pooling_height)
    else if pooling_size =? 1 then
      create_error qnnp_status_invalid_parameter false log_one_pooling_element
    else if (stride_height =? 0) || (stride_width =? 0) then
      create_error qnnp_status_invalid_parameter false
        (log_zero_stride stride_width stride_height)
    else if (dilation_height =? 0) || (dilation_width =? 0) then
      create_error qnnp_status_invalid_parameter false
        (log_zero_dilation dilation_width dilation_height)
    else if channels =? 0 then
      create_error qnnp_status_invalid_parameter false
        (log_zero_channels channels)
    else if negb calloc_succeeds then
      create_error qnnp_status_out_of_memory true
        log_operator_allocation_failed
    else
      {| create_status := qnnp_status_success;
         create_operator := Some
           {| input_padding_top := input_padding_top;
              input_padding_right := input_padding_right;
              input_padding_bottom := input_padding_bottom;
              input_padding_left := input_padding_left;
              kernel_height := pooling_height;
              kernel_width := pooling_width;
              stride_height := stride_height;
              stride_width := stride_width;
              dilation_height := dilation_height;
              dilation_width := dilation_width;
              channels := channels;
              batch_size := 0;
              input_height := 0;
              input_width := 0;
              input := 0;
              input_pixel_stride := 0;
              output_height := 0;
              output_width := 0;
              output := 0;
              output_pixel_stride := 0;
              last_input := 0;
              last_input_height := 0;
              last_input_width := 0;
              valid_batch_size := 0;
              indirection_buffer := None;
              maxpool_quantization_params :=
                qnnp_compute_maxpool_quantization_params output_min output_max;
              ukernel_type := qnnp_ukernel_type_max_pooling;
              format := qnnp_format_quint8 |};
         create_allocated := true;
         create_log := [] |}.

(** ** Setup *)

(** Lines 164-181: the per-call fields and the output geometry. *)
Definition store_geometry (max_pooling : qnnp_operator)
    (batch_size' input_height' input_width' input' input_pixel_stride'
     output' output_pixel_stride' : Z) : qnnp_operator :=
  {| input_padding_top := max_pooling.(input_padding_top);
     input_padding_right := max_pooling.(input_padding_right);
     input_padding_bottom := max_pooling.(input_padding_bottom);
     input_padding_left := max_pooling.(input_padding_left);
     kernel_height := max_pooling.(kernel_height);
     kernel_width := max_pooling.(kernel_width);
     stride_height := max_pooling.(stride_height);
     stride_width := max_pooling.(stride_width);
     dilation_height := max_pooling.(dilation_height);
     dilation_width := max_pooling.(dilation_width);
     channels := max_pooling.(channels);
     batch_size := batch_size';
     input_height := input_height';
     input_width := input_width';
     input := input';
     input_pixel_stride := input_pixel_stride';
     output_height := compute_output_dimension
       (max_pooling.(input_padding_top) +% input_height'
        +% max_pooling.(input_padding_bottom))
       max_pooling.(kernel_height) max_pooling.(dilation_height)
       max_pooling.(stride_height);
     output_width := compute_output_dimension
       (max_pooling.(input_padding_left) +% input_width'
        +% max_pooling.(input_padding_right))
       max_pooling.(kernel_width) max_pooling.(dilation_width)
       max_pooling.(stride_width);
     output := output';
     output_pixel_stride := output_pixel_stride';
     last_input := max_pooling.(last_input);
     last_input_height := max_pooling.(last_input_height);
     last_input_width := max_pooling.(last_input_width);
     valid_batch_size := max_pooling.(valid_batch_size);
     indirection_buffer := max_pooling.(indirection_buffer);
     maxpool_quantization_params := max_pooling.(maxpool_quantization_params);
     ukernel_type := max_pooling.(ukernel_type);
     format := max_pooling.(format) |}.

(** Line 212. *)
Definition store_indirection_buffer (max_pooling : qnnp_operator)
    (block : indirection_block) : qnnp_operator :=
  {| input_padding_top := max_pooling.(input_padding_top);
     input_padding_right := max_pooling.(input_padding_right);
     input_padding_bottom := max_pooling.(input_padding_bottom);
     input_padding_left := max_pooling.(input_padding_left);
     kernel_height := max_pooling.(kernel_height);
     kernel_width := max_pooling.(kernel_width);
     stride_height := max_pooling.(stride_height);
     stride_width := max_pooling.(stride_width);
     dilation_height := max_pooling.(dilation_height);
     dilation_width := max_pooling.(dilation_width);
     channels := max_pooling.(channels);
     batch_size := max_pooling.(batch_size);
     input_height := max_pooling.(input_height);
     input_width := max_pooling.(input_width);
     input := max_pooling.(input);
     input_pixel_stride := max_pooling.(input_pixel_stride);
     output_height := max_pooling.(output_height);
     output_width := max_pooling.(output_width);
     output := max_pooling.(output);
     output_pixel_stride := max_pooling.(output_pixel_stride);
     last_input := max_pooling.(last_input);
     last_input_height := max_pooling.(last_input_height);
     last_input_width := max_pooling.(last_input_width);
     valid_batch_size := max_pooling.(valid_batch_size);
     indirection_buffer := Some block;
     maxpool_quantization_params := max_pooling.(maxpool_quantization_params);
     ukernel_type := max_pooling.(ukernel_type);
     format := max_pooling.(format) |}.

(** Lines 232-235: the cache fields. *)
Definition store_cache (max_pooling : qnnp_operator)
    (input' input_height' input_width' valid_batch_size' : Z)
    : qnnp_operator :=
  {| input_padding_top := max_pooling.(input_padding_top);
     input_padding_right := max_pooling.(input_padding_right);
     input_padding_bottom := max_pooling.(input_padding_bottom);
     input_padding_left := max_pooling.(input_padding_left);
     kernel_height := max_pooling.(kernel_height);
     kernel_width := max_pooling.(kernel_width);
     stride_height := max_pooling.(stride_height);
     stride_width := max_pooling.(stride_width);
     dilation_height := max_pooling.(dilation_height);
     dilation_width := max_pooling.(dilation_width);
     channels := max_pooling.(channels);
     batch_size := max_pooling.(batch_size);
     input_height := max_pooling.(input_height);
     input_width := max_pooling.(input_width);
     input := max_pooling.(input);
     input_pixel_stride := max_pooling.(input_pixel_stride);
     output_height := max_pooling.(output_height);
     output_width := max_pooling.(output_width);
     output := max_pooling.(output);
     output_pixel_stride := max_pooling.(output_pixel_stride);
     last_input := input';
     last_input_height := input_height';
     last_input_width := input_width';
     valid_batch_size := valid_batch_size';
     indirection_buffer := max_pooling.(indirection_buffer);
     maxpool_quantization_params := max_pooling.(maxpool_quantization_params);
     ukernel_type := max_pooling.(ukernel_type);
     format := max_pooling.(format) |}.

(** The entries of a block that survive its reallocation to [size] bytes:
    those that lie within the new size. *)
Definition preserved_entries (block : option indirection_block) (size : Z)
    : gmap Z Z :=
  match block with
  | None => ∅
  | Some old =>
      filter (λ entry, sizeof_pointer * (entry.1 + 1) ≤ size)
        (block_entries old)
  end.

(** [realloc(block, size)]: [reply] is the allocator's answer, [None] for
    a null return and [Some p] for a block at address [p].  A successful
    call keeps the entries that fit in both the old and the new block; a
    failed call leaves the old block as it is.  That last point is what C
    guarantees for a request of at least one byte, or on a null block.  A
    request of zero bytes on an existing block is outside it: the C library
    may free the block and return null.  [setup_defined] below keeps such
    calls apart. *)
Definition realloc (reply : option Z) (block : option indirection_block)
    (size : Z) : option indirection_block :=
  match reply with
  | None => None
  | Some p =>
      Some {| block_address := p;
              block_bytes := size;
              block_entries := preserved_entries block size |}
  end.

(** [for (size_t i = 0; i < n; i++) body], threading the state. *)
Definition for_loop {S : Type} (n : Z) (body : Z → S → S) (s : S) : S :=
  foldl (λ s i, body i s) s (seqZ 0 n).

Definition width_step (max_pooling : qnnp_operator) : Z :=
  if max_pooling.(dilation_width) >? 1
  then max_pooling.(kernel_width)
  else size_min max_pooling.(stride_width) max_pooling.(kernel_width).

(** Lines 204-205, in bytes. *)
Definition indirection_buffer_size (mr : Z) (max_pooling : qnnp_operator)
    (batch_size : Z) : Z :=
  let pooling_height := max_pooling.(kernel_height) in
  let pooling_width := max_pooling.(kernel_width) in
  let pooling_size := pooling_height *% pooling_width in
  let output_height := max_pooling.(output_height) in
  let output_width := max_pooling.(output_width) in
  let width_step := width_step max_pooling in
  sizeof_pointer *%
    (uint32_sub mr 1 +% batch_size *% output_height *%
      (pooling_size +% (output_width *% width_step -% 1) *% pooling_height)).

(** Lines 214-231: the population loops over the entries of the block.
    The entries are kept by index, and every store of the loop is recorded,
    also one at an index beyond the bytes of the reallocated block, where
    the C program writes outside the block and its behaviour is undefined.
    [stores_within_block] below states that no store of the loop is of that
    kind; a property that speaks of what a rebuilding call returns assumes
    it, or follows from it. *)
Definition populate_indirection_buffer (max_pooling : qnnp_operator)
    (batch_size input_height input_width input input_pixel_stride : Z)
    (indirection_buffer : gmap Z Z) : gmap Z Z :=
  let pooling_height := max_pooling.(kernel_height) in
  let pooling_width := max_pooling.(kernel_width) in
  let pooling_size := pooling_height *% pooling_width in
  let output_height := max_pooling.(output_height) in
  let output_width := max_pooling.(output_width) in
  let width_step := width_step max_pooling in
  for_loop batch_size (λ image,
    for_loop output_height (λ output_y,
      for_loop pooling_height (λ pooling_y,
        let input_y :=
          doz (output_y *% max_pooling.(stride_height)
               +% pooling_y *% max_pooling.(dilation_height))
              max_pooling.(input_padding_top) in
        let clamped_input_y := size_min input_y (input_height -% 1) in
        for_loop output_width (λ output_x,
          for_loop pooling_width (λ pooling_x,
            let input_x :=
              doz (output_x *% max_pooling.(stride_width)
                   +% pooling_x *% max_pooling.(dilation_width))
                  max_pooling.(input_padding_left) in
            let clamped_input_x := size_min input_x (input_width -% 1) in
            let index :=
              (image *% output_height +% output_y) *%
                (pooling_size
                 +% (output_width *% width_step -% 1) *% pooling_height)
              +% output_x *% width_step *% pooling_height
              +% pooling_x *% pooling_height +% pooling_y in
            <[ index :=
               pointer_add input
                 (((image *% input_height +% clamped_input_y) *% input_width
                   +% clamped_input_x) *% input_pixel_stride) ]>)))))
    indirection_buffer.

Record setup_result := {
  setup_status : qnnp_status;
  setup_operator : qnnp_operator;
  (** the size handed to [realloc], when it was called *)
  setup_realloc : option Z;
  setup_log : list log_event;
}.

(** [realloc_reply] is the allocator's answer to the [realloc] call, should
    one be made.  The [threadpool] argument is not used by the function and
    is left out. *)
Definition qnnp_setup_max_pooling2d_nhwc_u8
    (qnnp_params : qnnp_parameters) (realloc_reply : option Z)
    (max_pooling : qnnp_operator)
    (batch_size input_height input_width input input_pixel_stride
     output output_pixel_stride : Z) : setup_result :=
  if negb (initialized qnnp_params) then
    {| setup_status := qnnp_status_uninitialized;
       setup_operator := max_pooling;
       setup_realloc := None;
       setup_log := [log_setup_uninitialized] |}
  else if batch_size =? 0 then
    {| setup_status := qnnp_status_invalid_parameter;
       setup_operator := max_pooling;
       setup_realloc := None;
       setup_log := [log_zero_batch_size batch_size] |}
  else if (input_width =? 0) || (input_height =? 0) then
    {| setup_status := qnnp_status_invalid_parameter;
       setup_operator := max_pooling;
       setup_realloc := None;
       setup_log := [log_zero_input_dimensions input_width input_height] |}
  else
    let max_pooling :=
      store_geometry max_pooling batch_size input_height input_width input
        input_pixel_stride output output_pixel_stride in
    let same_input :=
      (input =? max_pooling.(last_input))
      && (input_height =? max_pooling.(last_input_height))
      && (input_width =? max_pooling.(last_input_width)) in
    let valid_batch_size :=
      if same_input then max_pooling.(valid_batch_size) else 0 in
    if same_input && (batch_size <=? valid_batch_size) then
      {| setup_status := qnnp_status_success;
         setup_operator := max_pooling;
         setup_realloc := None;
         setup_log := [] |}
    else
      let mr := qnnp_params.(u8maxpool_mr) in
      let indirection_buffer_size :=
        indirection_buffer_size mr max_pooling batch_size in
      match realloc realloc_reply max_pooling.(indirection_buffer)
              indirection_buffer_size with
      | None =>
          {| setup_status := qnnp_status_out_of_memory;
             setup_operator := max_pooling;
             setup_realloc := Some indirection_buffer_size;
             setup_log :=
               [log_indirection_allocation_failed indirection_buffer_size] |}
      | Some block =>
          let entries :=
            populate_indirection_buffer max_pooling batch_size input_height
              input_width input input_pixel_stride block.(block_entries) in
          let max_pooling :=
            store_indirection_buffer max_pooling
              {| block_address := block.(block_address);
                 block_bytes := block.(block_bytes);
                 block_entries := entries |} in
          let max_pooling :=
            store_cache max_pooling input input_height input_width
              (size_max valid_batch_size batch_size) in
          {| setup_status := qnnp_status_success;
             setup_operator := max_pooling;
             setup_realloc := Some indirection_buffer_size;
             setup_log := [] |}
      end.

(** ** The population loop, iteration by iteration *)

(** One iteration of the innermost loop body: the values of the five loop
    counters. *)
Record iteration := {
  image : Z;
  output_y : Z;
  pooling_y : Z;
  output_x : Z;
  pooling_x : Z;
}.

(** The iterations the loop nest runs, in program order, for the bounds
    held by the descriptor. *)
Definition population_iterations (max_pooling : qnnp_operator)
    : list iteration :=
  image ← seqZ 0 max_pooling.(batch_size);
  output_y ← seqZ 0 max_pooling.(output_height);
  pooling_y ← seqZ 0 max_pooling.(kernel_height);
  output_x ← seqZ 0 max_pooling.(output_width);
  pooling_x ← seqZ 0 max_pooling.(kernel_width);
  [ {| image := image; output_y := output_y; pooling_y := pooling_y;
       output_x := output_x; pooling_x := pooling_x |} ].

Definition clamped_input_y (max_pooling : qnnp_operator) (t : iteration)
    : Z :=
  size_min
    (doz (t.(output_y) *% max_pooling.(stride_height)
          +% t.(pooling_y) *% max_pooling.(dilation_height))
         max_pooling.(input_padding_top))
    (max_pooling.(input_height) -% 1).

Definition clamped_input_x (max_pooling : qnnp_operator) (t : iteration)
    : Z :=
  size_min
    (doz (t.(output_x) *% max_pooling.(stride_width)
          +% t.(pooling_x) *% max_pooling.(dilation_width))
         max_pooling.(input_padding_left))
    (max_pooling.(input_width) -% 1).

(** The entries reserved per (image, output row) pair, as lines 205 and
    224 compute them. *)
Definition row_slots (max_pooling : qnnp_operator) : Z :=
  max_pooling.(kernel_height) *% max_pooling.(kernel_width)
  +% (max_pooling.(output_width) *% width_step max_pooling -% 1)
     *% max_pooling.(kernel_height).

Definition entry_index (max_pooling : qnnp_operator) (t : iteration) : Z :=
  (t.(image) *% max_pooling.(output_height) +% t.(output_y))
    *% row_slots max_pooling
  +% t.(output_x) *% width_step max_pooling *% max_pooling.(kernel_height)
  +% t.(pooling_x) *% max_pooling.(kernel_height) +% t.(pooling_y).

Definition entry_value (max_pooling : qnnp_operator) (t : iteration) : Z :=
  pointer_add max_pooling.(input)
    (((t.(image) *% max_pooling.(input_height)
       +% clamped_input_y max_pooling t) *% max_pooling.(input_width)
      +% clamped_input_x max_pooling t) *% max_pooling.(input_pixel_stride)).

Definition store_entry (max_pooling : qnnp_operator) (entries : gmap Z Z)
    (t : iteration) : gmap Z Z :=
  <[ entry_index max_pooling t := entry_value max_pooling t ]> entries.

(** ** Quantities of the specification, over unbounded integers *)

(** The clamped source row and column in the words of the specification:
    [min(max(0, outputRow * strideHeight + poolingRow * dilationHeight -
    topPadding), inputHeight - 1)], and likewise for the column. *)
Definition clamped_row_spec (max_pooling : qnnp_operator) (t : iteration)
    : Z :=
  Z.min
    (Z.max 0
       (t.(output_y) * max_pooling.(stride_height)
        + t.(pooling_y) * max_pooling.(dilation_height)
        - max_pooling.(input_padding_top)))
    (max_pooling.(input_height) - 1).

Definition clamped_column_spec (max_pooling : qnnp_operator)
    (t : iteration) : Z :=
  Z.min
    (Z.max 0
       (t.(output_x) * max_pooling.(stride_width)
        + t.(pooling_x) * max_pooling.(dilation_width)
        - max_pooling.(input_padding_left)))
    (max_pooling.(input_width) - 1).

(** The address the specification gives for an entry: [inputBase + ((image
    * inputHeight + clampedRow) * inputWidth + clampedColumn) *
    inputPixelStride], as a 64-bit address. *)
Definition entry_address
    (input_base input_height input_width input_pixel_stride
     image row column : Z) : Z :=
  pointer_add input_base
    (((image *% input_height +% row) *% input_width +% column)
     *% input_pixel_stride).

(** The strict logical entry count of the specification,
    [batchSize * outputHeight * (poolingSize + (outputWidth * widthStep - 1)
    * kernelHeight)], and the required entry count, which adds
    [microkernelOverreadRows - 1]. *)
Definition logical_entry_count (max_pooling : qnnp_operator)
    (batch_size : Z) : Z :=
  batch_size * max_pooling.(output_height)
  * (max_pooling.(kernel_height) * max_pooling.(kernel_width)
     + (max_pooling.(output_width) * width_step max_pooling - 1)
       * max_pooling.(kernel_height)).

Definition required_entry_count (mr : Z) (max_pooling : qnnp_operator)
    (batch_size : Z) : Z :=
  (mr - 1) + logical_entry_count max_pooling batch_size.

(** The validity predicate of the setup cache. *)
Definition cache_valid (max_pooling : qnnp_operator)
    (batch_size input_height input_width input : Z) : Prop :=
  input = max_pooling.(last_input)
  ∧ input_height = max_pooling.(last_input_height)
  ∧ input_width = max_pooling.(last_input_width)
  ∧ batch_size <= max_pooling.(valid_batch_size).

(** What a successful creation establishes for the static fields, given
    arguments within the range of their C types. *)
Record valid_configuration (max_pooling : qnnp_operator) : Prop := {
  valid_padding_top : is_uint32 max_pooling.(input_padding_top);
  valid_padding_right : is_uint32 max_pooling.(input_padding_right);
  valid_padding_bottom : is_uint32 max_pooling.(input_padding_bottom);
  valid_padding_left : is_uint32 max_pooling.(input_padding_left);
  valid_kernel_height : 1 <= max_pooling.(kernel_height) < uint32_modulus;
  valid_kernel_width : 1 <= max_pooling.(kernel_width) < uint32_modulus;
  valid_stride_height : 1 <= max_pooling.(stride_height) < uint32_modulus;
  valid_stride_width : 1 <= max_pooling.(stride_width) < uint32_modulus;
  valid_dilation_height : 1 <= max_pooling.(dilation_height) < uint32_modulus;
  valid_dilation_width : 1 <= max_pooling.(dilation_width) < uint32_modulus;
}.

(** The local [valid_batch_size] of setup once the cache has been
    consulted (lines 183-188): the cached bound when the input address,
    height and width are the cached ones, and zero otherwise. *)
Definition reusable_batch_size (max_pooling : qnnp_operator)
    (input_height input_width input : Z) : Z :=
  if (input =? max_pooling.(last_input))
     && (input_height =? max_pooling.(last_input_height))
     && (input_width =? max_pooling.(last_input_width))
  then max_pooling.(valid_batch_size) else 0.

(** The block a successful rebuild leaves in the descriptor [geometry],
    the descriptor as of line 181. *)
Definition rebuilt_block (mr address : Z) (geometry : qnnp_operator)
    (batch_size : Z) : indirection_block :=
  {| block_address := address;
     block_bytes := indirection_buffer_size mr geometry batch_size;
     block_entries :=
       populate_indirection_buffer geometry batch_size
         geometry.(input_height) geometry.(input_width) geometry.(input)
         geometry.(input_pixel_stride)
         (preserved_entries geometry.(indirection_buffer)
            (indirection_buffer_size mr geometry batch_size)) |}.

(** Two descriptors that lay out and fill the indirection buffer alike:
    they agree on the static configuration, the input and the output
    extents.  The batch size, the output target, the cache fields and the
    buffer may differ. *)
Record same_layout (a b : qnnp_operator) : Prop := {
  layout_padding_top : a.(input_padding_top) = b.(input_padding_top);
  layout_padding_right :
    a.(input_padding_right) = b.(input_padding_right);
  layout_padding_bottom :
    a.(input_padding_bottom) = b.(input_padding_bottom);
  layout_padding_left : a.(input_padding_left) = b.(input_padding_left);
  layout_kernel_height : a.(kernel_height) = b.(kernel_height);
  layout_kernel_width : a.(kernel_width) = b.(kernel_width);
  layout_stride_height : a.(stride_height) = b.(stride_height);
  layout_stride_width : a.(stride_width) = b.(stride_width);
  layout_dilation_height : a.(dilation_height) = b.(dilation_height);
  layout_dilation_width : a.(dilation_width) = b.(dilation_width);
  layout_input_height : a.(input_height) = b.(input_height);
  layout_input_width : a.(input_width) = b.(input_width);
  layout_input : a.(input) = b.(input);
  layout_input_pixel_stride :
    a.(input_pixel_stride) = b.(input_pixel_stride);
  layout_output_height : a.(output_height) = b.(output_height);
  layout_output_width : a.(output_width) = b.(output_width);
}.

(** The per-row slot count and the flat index over the integers. *)
Definition row_slots_exact (max_pooling : qnnp_operator) : Z :=
  max_pooling.(kernel_height) * max_pooling.(kernel_width)
  + (max_pooling.(output_width) * width_step max_pooling - 1)
    * max_pooling.(kernel_height).

Definition entry_index_exact (max_pooling : qnnp_operator) (t : iteration)
    : Z :=
  (t.(image) * max_pooling.(output_height) + t.(output_y))
    * row_slots_exact max_pooling
  + t.(output_x) * width_step max_pooling * max_pooling.(kernel_height)
  + t.(pooling_x) * max_pooling.(kernel_height) + t.(pooling_y).

(** A creation-time configuration that passes the five parameter checks. *)
Definition create_checks_pass
    (pooling_height pooling_width stride_height stride_width
     dilation_height dilation_width channels : Z) : Prop :=
  uint32_mul pooling_height pooling_width ≠ 0
  ∧ uint32_mul pooling_height pooling_width ≠ 1
  ∧ stride_height ≠ 0 ∧ stride_width ≠ 0
  ∧ dilation_height ≠ 0 ∧ dilation_width ≠ 0
  ∧ channels ≠ 0.

(** A creation call that is refused before any allocation, with the given
    status and diagnostic. *)
Definition create_rejected (r : create_result) (status : qnnp_status)
    (event : log_event) : Prop :=
  create_status r = status
  ∧ create_operator r = None
  ∧ create_allocated r = false
  ∧ create_log r = [event].

(** ** Sample parameters and descriptors *)

(** Initialized library parameters with a micro-kernel of 9 rows. *)
Definition sample_params : qnnp_parameters :=
  {| initialized := true; u8maxpool_mr := 9 |}.

(** The zero-filled descriptor [calloc] returns. *)
Definition zeroed_operator : qnnp_operator :=
  {| input_padding_top := 0; input_padding_right := 0;
     input_padding_bottom := 0; input_padding_left := 0;
     kernel_height := 0; kernel_width := 0;
     stride_height := 0; stride_width := 0;
     dilation_height := 0; dilation_width := 0;
     channels := 0; batch_size := 0;
     input_height := 0; input_width := 0; input := 0;
     input_pixel_stride := 0;
     output_height := 0; output_width := 0; output := 0;
     output_pixel_stride := 0;
     last_input := 0; last_input_height := 0; last_input_width := 0;
     valid_batch_size := 0;
     indirection_buffer := None;
     maxpool_quantization_params :=
       qnnp_compute_maxpool_quantization_params 0 0;
     ukernel_type := qnnp_ukernel_type_none;
     format := qnnp_format_none |}.

(** The descriptor a successful creation returns for an unpadded,
    undilated pooling window over 3 channels with the full output range. *)
Definition created_operator
    (pooling_height pooling_width stride_height stride_width : Z)
    : qnnp_operator :=
  default zeroed_operator
    (create_operator
       (qnnp_create_max_pooling2d_nhwc_u8 sample_params true 0 0 0 0
          pooling_height pooling_width stride_height stride_width 1 1 3
          0 255)).

(** A setup call on a 4x4 input with output at address 2000, answered by
    an allocator that places the block at address 4096. *)
Definition sample_setup (max_pooling : qnnp_operator)
    (batch_size input input_pixel_stride : Z) : setup_result :=
  qnnp_setup_max_pooling2d_nhwc_u8 sample_params (Some 4096) max_pooling
    batch_size 4 4 input input_pixel_stride 2000 3.

(** ** Further notions used by the properties *)

(** The effective kernel size of the glossary: the kernel extent as
    dilated. *)
Definition effective_kernel (kernel dilation : Z) : Z :=
  (kernel - 1) * dilation + 1.

(** The padded input is at least the effective kernel on both axes, the
    precondition that [compute_output_dimension] leaves to its caller. *)
Definition input_covers_kernel (max_pooling : qnnp_operator)
    (input_height input_width : Z) : Prop :=
  effective_kernel max_pooling.(kernel_height) max_pooling.(dilation_height)
  ≤ max_pooling.(input_padding_top) +% input_height
    +% max_pooling.(input_padding_bottom)
  ∧ effective_kernel max_pooling.(kernel_width) max_pooling.(dilation_width)
    ≤ max_pooling.(input_padding_left) +% input_width
      +% max_pooling.(input_padding_right).

(** Two descriptors with the same creation-time fields. *)
Record same_configuration (a b : qnnp_operator) : Prop := {
  configuration_padding_top :
    a.(input_padding_top) = b.(input_padding_top);
  configuration_padding_right :
    a.(input_padding_right) = b.(input_padding_right);
  configuration_padding_bottom :
    a.(input_padding_bottom) = b.(input_padding_bottom);
  configuration_padding_left :
    a.(input_padding_left) = b.(input_padding_left);
  configuration_kernel_height : a.(kernel_height) = b.(kernel_height);
  configuration_kernel_width : a.(kernel_width) = b.(kernel_width);
  configuration_stride_height : a.(stride_height) = b.(stride_height);
  configuration_stride_width : a.(stride_width) = b.(stride_width);
  configuration_dilation_height :
    a.(dilation_height) = b.(dilation_height);
  configuration_dilation_width : a.(dilation_width) = b.(dilation_width);
  configuration_channels : a.(channels) = b.(channels);
  configuration_quantization :
    a.(maxpool_quantization_params) = b.(maxpool_quantization_params);
  configuration_ukernel_type : a.(ukernel_type) = b.(ukernel_type);
  configuration_format : a.(format) = b.(format);
}.

(** The setup arguments pass the checks of lines 147-162. *)
Definition setup_arguments_pass (qnnp_params : qnnp_parameters)
    (batch_size input_height input_width : Z) : Prop :=
  initialized qnnp_params = true
  ∧ batch_size ≠ 0 ∧ input_height ≠ 0 ∧ input_width ≠ 0.

(** ** Calls with defined behaviour *)

(** Every store of the population loop, run on the descriptor [geometry]
    as of line 181, falls within a block of [size] bytes. *)
Definition stores_within_block (geometry : qnnp_operator) (size : Z)
    : Prop :=
  ∀ t, t ∈ population_iterations geometry →
    sizeof_pointer * (entry_index geometry t + 1) ≤ size.

(** The setup calls whose behaviour C defines, and which the embedding
    therefore follows: once the argument checks are passed, line 170 and
    line 176 do not divide by zero; on a cache miss, the reallocation is
    not a request of zero bytes on an existing block, and if it succeeds
    the population loop stores within the new block. *)
Definition setup_defined (qnnp_params : qnnp_parameters)
    (realloc_reply : option Z) (max_pooling : qnnp_operator)
    (batch_size input_height input_width input input_pixel_stride
     output output_pixel_stride : Z) : Prop :=
  let geometry :=
    store_geometry max_pooling batch_size input_height input_width input
      input_pixel_stride output output_pixel_stride in
  let size :=
    indirection_buffer_size qnnp_params.(u8maxpool_mr) geometry batch_size in
  setup_arguments_pass qnnp_params batch_size input_height input_width →
  max_pooling.(stride_height) ≠ 0
  ∧ max_pooling.(stride_width) ≠ 0
  ∧ (¬ cache_valid max_pooling batch_size input_height input_width input →
     (size ≠ 0 ∨ max_pooling.(indirection_buffer) = None)
     ∧ (is_Some realloc_reply → stores_within_block geometry size)).

(** * Properties *)

(** ** Machine arithmetic *)

Lemma size_modulus_eq : size_modulus = 18446744073709551616.
Proof. reflexivity. Qed.

Lemma uint32_modulus_eq : uint32_modulus = 4294967296.
Proof. reflexivity. Qed.

Lemma to_size_t_small z : is_size_t z → to_size_t z = z.
Proof. intros Hz. apply Z.mod_small. exact Hz. Qed.

Lemma to_size_t_range z : is_size_t (to_size_t z).
Proof.
  unfold is_size_t, to_size_t. apply Z.mod_pos_bound.
  rewrite size_modulus_eq. lia.
Qed.

Lemma to_uint32_small z : is_uint32 z → to_uint32 z = z.
Proof. intros Hz. apply Z.mod_small. exact Hz. Qed.

Lemma size_add_range a b : is_size_t (a +% b).
Proof. apply to_size_t_range. Qed.

Lemma size_mul_range a b : is_size_t (a *% b).
Proof. apply to_size_t_range. Qed.

Lemma size_sub_range a b : is_size_t (a -% b).
Proof. apply to_size_t_range. Qed.

(** Wrapped operations compute the exact result reduced modulo [2^64], no
    matter how their operands were reduced before. *)
Lemma wrap_congr_add a a' b b' :
  to_size_t a = to_size_t a' → to_size_t b = to_size_t b' →
  to_size_t (a +% b) = to_size_t (a' + b').
Proof.
  unfold size_add, to_size_t. intros Ha Hb.
  rewrite Z.mod_mod by (rewrite size_modulus_eq; lia).
  rewrite (Zplus_mod a b), (Zplus_mod a' b'), Ha, Hb. reflexivity.
Qed.

Lemma wrap_congr_sub a a' b b' :
  to_size_t a = to_size_t a' → to_size_t b = to_size_t b' →
  to_size_t (a -% b) = to_size_t (a' - b').
Proof.
  unfold size_sub, to_size_t. intros Ha Hb.
  rewrite Z.mod_mod by (rewrite size_modulus_eq; lia).
  rewrite (Zminus_mod a b), (Zminus_mod a' b'), Ha, Hb. reflexivity.
Qed.

Lemma wrap_congr_mul a a' b b' :
  to_size_t a = to_size_t a' → to_size_t b = to_size_t b' →
  to_size_t (a *% b) = to_size_t (a' * b').
Proof.
  unfold size_mul, to_size_t. intros Ha Hb.
  rewrite Z.mod_mod by (rewrite size_modulus_eq; lia).
  rewrite (Zmult_mod a b), (Zmult_mod a' b'), Ha, Hb. reflexivity.
Qed.

(** [wrap_congr] proves [to_size_t m = to_size_t ?e] for a nest [m] of
    wrapped operations, instantiating [?e] with the same expression over
    the integers. *)
Ltac wrap_congr :=
  lazymatch goal with
  | |- to_size_t (_ +% _) = to_size_t _ =>
      eapply wrap_congr_add; wrap_congr
  | |- to_size_t (_ -% _) = to_size_t _ =>
      eapply wrap_congr_sub; wrap_congr
  | |- to_size_t (_ *% _) = to_size_t _ =>
      eapply wrap_congr_mul; wrap_congr
  | |- _ => reflexivity
  end.

Lemma wrap_exact m e' e :
  to_size_t m = to_size_t e' → e' = e → is_size_t m → is_size_t e → m = e.
Proof.
  intros Heq <- Hm He.
  rewrite <- (to_size_t_small m Hm), <- (to_size_t_small e' He). exact Heq.
Qed.

Lemma wrap_reduce m e' e :
  to_size_t m = to_size_t e' → e' = e → is_size_t m → m = to_size_t e.
Proof.
  intros Heq <- Hm. rewrite <- (to_size_t_small m Hm). exact Heq.
Qed.

(** [wrap_exact_tac] reduces [m = e], for a nest [m] of wrapped operations
    and the same expression [e] over the integers, to [is_size_t e]. *)
Ltac wrap_exact_tac :=
  eapply wrap_exact;
  [ wrap_congr
  | ring
  | first [ apply size_add_range | apply size_sub_range
          | apply size_mul_range ]
  | ].

Lemma size_min_spec a b : size_min a b = Z.min a b.
Proof. unfold size_min. destruct (Z.ltb_spec a b); lia. Qed.

Lemma size_max_spec a b : size_max a b = Z.max a b.
Proof.
  unfold size_max. rewrite Z.gtb_ltb. destruct (Z.ltb_spec b a); lia.
Qed.

Lemma doz_spec a b : doz a b = Z.max 0 (a - b).
Proof. unfold doz. destruct (Z.ltb_spec a b); lia. Qed.

(** ** Output geometry *)

(** With a kernel of at least one element that fits into the padded input,
    no intermediate result wraps around and the output extent is the
    floor-division formula over the integers. *)
Lemma compute_output_dimension_exact p k d s :
  is_size_t p → is_size_t d → 0 < s → 1 ≤ k →
  (k - 1) * d + 1 ≤ p →
  compute_output_dimension p k d s = (p - ((k - 1) * d + 1)) / s + 1.
Proof.
  intros Hp Hd Hs Hk Hfit.
  unfold is_size_t in *. rewrite size_modulus_eq in *.
  assert (Hprod : 0 ≤ (k - 1) * d) by nia.
  unfold compute_output_dimension, size_div.
  assert (Heff : (k -% 1) *% d +% 1 = (k - 1) * d + 1).
  { wrap_exact_tac. unfold is_size_t. rewrite size_modulus_eq. lia. }
  rewrite Heff.
  assert (Hsub : p -% ((k - 1) * d + 1) = p - ((k - 1) * d + 1)).
  { unfold size_sub. apply to_size_t_small. unfold is_size_t. rewrite size_modulus_eq. lia. }
  rewrite Hsub.
  set (n := p - ((k - 1) * d + 1)) in *.
  assert (Hq : 0 ≤ n / s ≤ n).
  { split; [apply Z.div_pos; lia|].
    apply Z.div_le_upper_bound; [lia|]. nia. }
  unfold size_add. apply to_size_t_small.
  unfold is_size_t. rewrite size_modulus_eq. lia.
Qed.

(** C1.  For size_t extents with a positive stride, a kernel extent of at
    least one, as every created descriptor has it, and a padded extent of
    at least [(kernelExtent - 1) * dilationExtent + 1], the geometry
    calculator returns [(paddedExtent - ((kernelExtent - 1) *
    dilationExtent + 1)) / strideExtent + 1] with floor division; it returns
    3 for input 5, kernel 3, dilation 1, stride 1, and 2 for input 4,
    kernel 2, dilation 1, stride 2. *)
Theorem compute_output_dimension_floor :
  (∀ paddedExtent kernelExtent dilationExtent strideExtent : Z,
     is_size_t paddedExtent → is_size_t kernelExtent →
     is_size_t dilationExtent → is_size_t strideExtent →
     strideExtent > 0 →
     kernelExtent >= 1 →
     paddedExtent >= (kernelExtent - 1) * dilationExtent + 1 →
     compute_output_dimension paddedExtent kernelExtent dilationExtent
       strideExtent
     = (paddedExtent - ((kernelExtent - 1) * dilationExtent + 1))
       / strideExtent + 1)
  ∧ compute_output_dimension 5 3 1 1 = 3
  ∧ compute_output_dimension 4 2 1 2 = 2.
Proof.
  split; [|split; reflexivity].
  intros p k d s Hp _ Hd _ Hs Hk Hfit.
  apply compute_output_dimension_exact; auto; lia.
Qed.

Lemma compute_output_dimension_floor_witness :
  compute_output_dimension 7 3 2 2 = (7 - ((3 - 1) * 2 + 1)) / 2 + 1.
Proof.
  apply (proj1 compute_output_dimension_floor 7 3 2 2);
    unfold is_size_t; rewrite ?size_modulus_eq; lia.
Defined.

(** The kernel extent of at least one is needed.  No descriptor has a
    kernel extent of zero, since creation refuses a pooling size of zero;
    the function itself, at padded extent [2^64 - 1], kernel 0, dilation 2
    and stride 1, returns 1 where the formula gives [2^64 + 1]. *)
Lemma compute_output_dimension_zero_kernel :
  let paddedExtent := 2 ^ 64 - 1 in
  let kernelExtent := 0 in
  let dilationExtent := 2 in
  let strideExtent := 1 in
  is_size_t paddedExtent ∧ is_size_t kernelExtent
  ∧ is_size_t dilationExtent ∧ is_size_t strideExtent
  ∧ strideExtent > 0
  ∧ paddedExtent >= (kernelExtent - 1) * dilationExtent + 1
  ∧ compute_output_dimension paddedExtent kernelExtent dilationExtent
      strideExtent = 1
  ∧ (paddedExtent - ((kernelExtent - 1) * dilationExtent + 1))
      / strideExtent + 1 = 2 ^ 64 + 1.
Proof.
  cbv zeta. unfold is_size_t. rewrite size_modulus_eq.
  repeat split; try lia; reflexivity.
Qed.

(** ** Creation *)

Section creation.
Variables (qnnp_params : qnnp_parameters) (calloc_succeeds : bool).
Variables (padding_top padding_right padding_bottom padding_left : Z).
Variables (pooling_height pooling_width stride_h stride_w : Z).
Variables (dilation_h dilation_w channel_count : Z).
Variables (output_min output_max : Z).

Let result : create_result :=
  qnnp_create_max_pooling2d_nhwc_u8 qnnp_params calloc_succeeds
    padding_top padding_right padding_bottom padding_left
    pooling_height pooling_width stride_h stride_w
    dilation_h dilation_w channel_count output_min output_max.

Lemma create_uninitialized :
  initialized qnnp_params = false →
  create_rejected result qnnp_status_uninitialized
    log_create_uninitialized.
Proof.
  intros Hinit. subst result.
  unfold qnnp_create_max_pooling2d_nhwc_u8. rewrite Hinit.
  repeat split.
Qed.

Lemma create_zero_pooling_size :
  initialized qnnp_params = true →
  uint32_mul pooling_height pooling_width = 0 →
  create_rejected result qnnp_status_invalid_parameter
    (log_zero_pooling_size pooling_width pooling_height).
Proof.
  intros Hinit Hzero. subst result.
  unfold qnnp_create_max_pooling2d_nhwc_u8. rewrite Hinit, Hzero.
  repeat split.
Qed.

Lemma create_one_pooling_element :
  initialized qnnp_params = true →
  uint32_mul pooling_height pooling_width = 1 →
  create_rejected result qnnp_status_invalid_parameter
    log_one_pooling_element.
Proof.
  intros Hinit Hone. subst result.
  unfold qnnp_create_max_pooling2d_nhwc_u8. rewrite Hinit, Hone.
  repeat split.
Qed.

Lemma create_zero_stride :
  initialized qnnp_params = true →
  uint32_mul pooling_height pooling_width ≠ 0 →
  uint32_mul pooling_height pooling_width ≠ 1 →
  stride_h = 0 ∨ stride_w = 0 →
  create_rejected result qnnp_status_invalid_parameter
    (log_zero_stride stride_w stride_h).
Proof.
  intros Hinit H0 H1 Hstride. subst result.
  unfold qnnp_create_max_pooling2d_nhwc_u8. rewrite Hinit. cbn.
  destruct (Z.eqb_spec (uint32_mul pooling_height pooling_width) 0);
    [contradiction|].
  destruct (Z.eqb_spec (uint32_mul pooling_height pooling_width) 1);
    [contradiction|].
  destruct (Z.eqb_spec stride_h 0), (Z.eqb_spec stride_w 0);
    cbn; try (repeat split; fail); lia.
Qed.

Lemma create_zero_dilation :
  initialized qnnp_params = true →
  uint32_mul pooling_height pooling_width ≠ 0 →
  uint32_mul pooling_height pooling_width ≠ 1 →
  stride_h ≠ 0 → stride_w ≠ 0 →
  dilation_h = 0 ∨ dilation_w = 0 →
  create_rejected result qnnp_status_invalid_parameter
    (log_zero_dilation dilation_w dilation_h).
Proof.
  intros Hinit H0 H1 Hsh Hsw Hdil. subst result.
  unfold qnnp_create_max_pooling2d_nhwc_u8. rewrite Hinit. cbn.
  destruct (Z.eqb_spec (uint32_mul pooling_height pooling_width) 0);
    [contradiction|].
  destruct (Z.eqb_spec (uint32_mul pooling_height pooling_width) 1);
    [contradiction|].
  destruct (Z.eqb_spec stride_h 0); [contradiction|].
  destruct (Z.eqb_spec stride_w 0); [contradiction|].
  destruct (Z.eqb_spec dilation_h 0), (Z.eqb_spec dilation_w 0);
    cbn; try (repeat split; fail); lia.
Qed.

Lemma create_zero_channels :
  initialized qnnp_params = true →
  uint32_mul pooling_height pooling_width ≠ 0 →
  uint32_mul pooling_height pooling_width ≠ 1 →
  stride_h ≠ 0 → stride_w ≠ 0 →
  dilation_h ≠ 0 → dilation_w ≠ 0 →
  channel_count = 0 →
  create_rejected result qnnp_status_invalid_parameter
    (log_zero_channels channel_count).
Proof.
  intros Hinit H0 H1 Hsh Hsw Hdh Hdw Hch. subst result.
  unfold qnnp_create_max_pooling2d_nhwc_u8. rewrite Hinit. cbn.
  destruct (Z.eqb_spec (uint32_mul pooling_height pooling_width) 0);
    [contradiction|].
  destruct (Z.eqb_spec (uint32_mul pooling_height pooling_width) 1);
    [contradiction|].
  destruct (Z.eqb_spec stride_h 0); [contradiction|].
  destruct (Z.eqb_spec stride_w 0); [contradiction|].
  destruct (Z.eqb_spec dilation_h 0); [contradiction|].
  destruct (Z.eqb_spec dilation_w 0); [contradiction|].
  destruct (Z.eqb_spec channel_count 0); [|contradiction].
  cbn. repeat split.
Qed.

(** Past the checks the outcome is the allocator's: the handle with the
    static fields filled in, or the allocation failure. *)
Lemma create_checks_passed :
  initialized qnnp_params = true →
  create_checks_pass pooling_height pooling_width stride_h
    stride_w dilation_h dilation_w channel_count →
  create_allocated result = true
  ∧ (calloc_succeeds = true →
     create_status result = qnnp_status_success
     ∧ create_log result = []
     ∧ ∃ max_pooling,
         create_operator result = Some max_pooling
         ∧ max_pooling.(input_padding_top) = padding_top
         ∧ max_pooling.(input_padding_right) = padding_right
         ∧ max_pooling.(input_padding_bottom) = padding_bottom
         ∧ max_pooling.(input_padding_left) = padding_left
         ∧ max_pooling.(kernel_height) = pooling_height
         ∧ max_pooling.(kernel_width) = pooling_width
         ∧ max_pooling.(stride_height) = stride_h
         ∧ max_pooling.(stride_width) = stride_w
         ∧ max_pooling.(dilation_height) = dilation_h
         ∧ max_pooling.(dilation_width) = dilation_w
         ∧ max_pooling.(channels) = channel_count
         ∧ max_pooling.(valid_batch_size) = 0
         ∧ max_pooling.(indirection_buffer) = None)
  ∧ (calloc_succeeds = false →
     create_status result = qnnp_status_out_of_memory
     ∧ create_operator result = None
     ∧ create_log result = [log_operator_allocation_failed]).
Proof.
  intros Hinit (H0 & H1 & Hsh & Hsw & Hdh & Hdw & Hch). subst result.
  unfold qnnp_create_max_pooling2d_nhwc_u8. rewrite Hinit. cbn.
  destruct (Z.eqb_spec (uint32_mul pooling_height pooling_width) 0);
    [contradiction|].
  destruct (Z.eqb_spec (uint32_mul pooling_height pooling_width) 1);
    [contradiction|].
  destruct (Z.eqb_spec stride_h 0); [contradiction|].
  destruct (Z.eqb_spec stride_w 0); [contradiction|].
  destruct (Z.eqb_spec dilation_h 0); [contradiction|].
  destruct (Z.eqb_spec dilation_w 0); [contradiction|].
  destruct (Z.eqb_spec channel_count 0); [contradiction|].
  cbn. destruct calloc_succeeds; cbn.
  - split; [reflexivity|]. split; [|discriminate].
    intros _. split; [reflexivity|]. split; [reflexivity|].
    eexists. split; [reflexivity|]. cbn. repeat split.
  - split; [reflexivity|]. split; [discriminate|].
    intros _. repeat split.
Qed.
End creation.

(** C6 (amended: past the checks the outcome depends on the allocator).
    Creation fails as not initialized when the library is uninitialized,
    whatever the configuration; otherwise the checks run in order - pooling
    size zero, pooling size one, a zero stride, a zero dilation, a zero
    channel count - each refusing the configuration as invalid before any
    allocation; a configuration passing all of them reaches the allocation
    and yields success with a populated handle when the allocation succeeds,
    and the allocation failure without a handle when it does not. *)
Theorem create_validation_order :
  ∀ (qnnp_params : qnnp_parameters) (calloc_succeeds : bool)
    (padding_top padding_right padding_bottom padding_left
     pooling_height pooling_width stride_h stride_w dilation_h dilation_w
     channel_count output_min output_max : Z),
  let r :=
    qnnp_create_max_pooling2d_nhwc_u8 qnnp_params calloc_succeeds
      padding_top padding_right padding_bottom padding_left
      pooling_height pooling_width stride_h stride_w dilation_h dilation_w
      channel_count output_min output_max in
  let pooling_size := uint32_mul pooling_height pooling_width in
  (initialized qnnp_params = false →
   create_rejected r qnnp_status_uninitialized log_create_uninitialized)
  ∧ (initialized qnnp_params = true →
     (pooling_size = 0 →
      create_rejected r qnnp_status_invalid_parameter
        (log_zero_pooling_size pooling_width pooling_height))
     ∧ (pooling_size = 1 →
        create_rejected r qnnp_status_invalid_parameter
          log_one_pooling_element)
     ∧ (pooling_size ≠ 0 → pooling_size ≠ 1 →
        stride_h = 0 ∨ stride_w = 0 →
        create_rejected r qnnp_status_invalid_parameter
          (log_zero_stride stride_w stride_h))
     ∧ (pooling_size ≠ 0 → pooling_size ≠ 1 →
        stride_h ≠ 0 → stride_w ≠ 0 →
        dilation_h = 0 ∨ dilation_w = 0 →
        create_rejected r qnnp_status_invalid_parameter
          (log_zero_dilation dilation_w dilation_h))
     ∧ (pooling_size ≠ 0 → pooling_size ≠ 1 →
        stride_h ≠ 0 → stride_w ≠ 0 →
        dilation_h ≠ 0 → dilation_w ≠ 0 →
        channel_count = 0 →
        create_rejected r qnnp_status_invalid_parameter
          (log_zero_channels channel_count))
     ∧ (create_checks_pass pooling_height pooling_width stride_h stride_w
          dilation_h dilation_w channel_count →
        create_allocated r = true
        ∧ (calloc_succeeds = true →
           create_status r = qnnp_status_success
           ∧ ∃ max_pooling,
               create_operator r = Some max_pooling
               ∧ max_pooling.(kernel_height) = pooling_height
               ∧ max_pooling.(kernel_width) = pooling_width
               ∧ max_pooling.(stride_height) = stride_h
               ∧ max_pooling.(stride_width) = stride_w
               ∧ max_pooling.(dilation_height) = dilation_h
               ∧ max_pooling.(dilation_width) = dilation_w
               ∧ max_pooling.(channels) = channel_count)
        ∧ (calloc_succeeds = false →
           create_status r = qnnp_status_out_of_memory
           ∧ create_operator r = None))).
Proof.
  intros. subst r pooling_size. split.
  - apply create_uninitialized.
  - intros Hinit. repeat apply conj.
    + now apply create_zero_pooling_size.
    + now apply create_one_pooling_element.
    + now apply create_zero_stride.
    + now apply create_zero_dilation.
    + now apply create_zero_channels.
    + intros Hpass.
      destruct (create_checks_passed qnnp_params calloc_succeeds
                  padding_top padding_right padding_bottom padding_left
                  pooling_height pooling_width stride_h stride_w
                  dilation_h dilation_w channel_count output_min output_max
                  Hinit Hpass) as (Halloc & Hok & Hfail).
      split; [exact Halloc|]. split.
      * intros Hc. destruct (Hok Hc) as (Hs & _ & op & Hop & F).
        split; [exact Hs|]. exists op. split; [exact Hop|].
        tauto.
      * intros Hc. destruct (Hfail Hc) as (Hs & Hop & _). now split.
Qed.

Lemma create_validation_order_witness :
  create_rejected
    (qnnp_create_max_pooling2d_nhwc_u8 sample_params true 0 0 0 0
       2 2 0 1 1 1 3 0 255)
    qnnp_status_invalid_parameter (log_zero_stride 1 0).
Proof.
  destruct (create_validation_order sample_params true 0 0 0 0
              2 2 0 1 1 1 3 0 255) as [_ Hchecks].
  destruct (Hchecks eq_refl) as (_ & _ & Hstride & _).
  apply Hstride; [discriminate | discriminate | left; reflexivity].
Defined.

(** C6 as stated fails when the allocator has no memory left: a 2x2
    window with stride 2 over 3 channels passes every check, yet creation
    returns the allocation failure and no handle. *)
Lemma create_checks_passed_without_memory :
  let r :=
    qnnp_create_max_pooling2d_nhwc_u8 sample_params false 0 0 0 0
      2 2 2 2 1 1 3 0 255 in
  initialized sample_params = true
  ∧ create_checks_pass 2 2 2 2 1 1 3
  ∧ create_status r = qnnp_status_out_of_memory
  ∧ create_status r ≠ qnnp_status_success
  ∧ create_operator r = None.
Proof.
  cbv zeta. repeat split; try discriminate.
Qed.

(** C10.  The pooling-size check multiplies the kernel extents as
    [uint32_t], modulo [2^32]: a 65536 x 65536 window, both extents
    positive, has the wrapped product zero and is refused as a zero pooling
    size; a 3 x 2863311531 window has the wrapped product one and is refused
    as 1x1 pooling; and in general the refusal follows the wrapped product,
    not the product over the integers. *)
Theorem create_pooling_size_wraps :
  (0 < 65536 ∧ is_uint32 65536
   ∧ 65536 * 65536 ≠ 0
   ∧ uint32_mul 65536 65536 = 0
   ∧ create_rejected
       (qnnp_create_max_pooling2d_nhwc_u8 sample_params true 0 0 0 0
          65536 65536 1 1 1 1 3 0 255)
       qnnp_status_invalid_parameter (log_zero_pooling_size 65536 65536))
  ∧ (0 < 3 ∧ is_uint32 3 ∧ 0 < 2863311531 ∧ is_uint32 2863311531
     ∧ 3 * 2863311531 ≠ 1
     ∧ uint32_mul 3 2863311531 = 1
     ∧ create_rejected
         (qnnp_create_max_pooling2d_nhwc_u8 sample_params true 0 0 0 0
            3 2863311531 1 1 1 1 3 0 255)
         qnnp_status_invalid_parameter log_one_pooling_element)
  ∧ (∀ (qnnp_params : qnnp_parameters) (calloc_succeeds : bool)
       (padding_top padding_right padding_bottom padding_left
        pooling_height pooling_width stride_h stride_w dilation_h
        dilation_w channel_count output_min output_max : Z),
     let r :=
       qnnp_create_max_pooling2d_nhwc_u8 qnnp_params calloc_succeeds
         padding_top padding_right padding_bottom padding_left
         pooling_height pooling_width stride_h stride_w dilation_h
         dilation_w channel_count output_min output_max in
     initialized qnnp_params = true →
     ((pooling_height * pooling_width) mod 2 ^ 32 = 0 →
      create_rejected r qnnp_status_invalid_parameter
        (log_zero_pooling_size pooling_width pooling_height))
     ∧ ((pooling_height * pooling_width) mod 2 ^ 32 = 1 →
        create_rejected r qnnp_status_invalid_parameter
          log_one_pooling_element)).
Proof.
  split; [|split].
  - unfold is_uint32. rewrite uint32_modulus_eq.
    repeat split; try lia; discriminate.
  - unfold is_uint32. rewrite uint32_modulus_eq.
    repeat split; try lia; discriminate.
  - intros. subst r. split; intros Hp.
    + now apply create_zero_pooling_size.
    + now apply create_one_pooling_element.
Qed.

Lemma create_pooling_size_wraps_witness :
  create_rejected
    (qnnp_create_max_pooling2d_nhwc_u8 sample_params true 0 0 0 0
       131072 32768 1 1 1 1 3 0 255)
    qnnp_status_invalid_parameter (log_zero_pooling_size 32768 131072).
Proof.
  destruct create_pooling_size_wraps as (_ & _ & Hwrap).
  destruct (Hwrap sample_params true 0 0 0 0 131072 32768 1 1 1 1 3 0 255
              eq_refl) as [Hzero _].
  apply Hzero. reflexivity.
Defined.

(** A successful creation from arguments within the range of their C
    types leaves a valid configuration in the handle. *)
Lemma create_valid_configuration
    qnnp_params calloc_succeeds padding_top padding_right padding_bottom
    padding_left pooling_height pooling_width stride_h stride_w dilation_h
    dilation_w channel_count output_min output_max max_pooling :
  is_uint32 padding_top → is_uint32 padding_right →
  is_uint32 padding_bottom → is_uint32 padding_left →
  is_uint32 pooling_height → is_uint32 pooling_width →
  is_uint32 stride_h → is_uint32 stride_w →
  is_uint32 dilation_h → is_uint32 dilation_w →
  create_operator
    (qnnp_create_max_pooling2d_nhwc_u8 qnnp_params calloc_succeeds
       padding_top padding_right padding_bottom padding_left
       pooling_height pooling_width stride_h stride_w dilation_h
       dilation_w channel_count output_min output_max) = Some max_pooling →
  valid_configuration max_pooling.
Proof.
  intros Ht Hr Hb Hl Hph Hpw Hsh Hsw Hdh Hdw.
  unfold qnnp_create_max_pooling2d_nhwc_u8.
  destruct (initialized qnnp_params); cbn; [|discriminate].
  destruct (Z.eqb_spec (uint32_mul pooling_height pooling_width) 0)
    as [|Hne]; [discriminate|].
  destruct (Z.eqb_spec (uint32_mul pooling_height pooling_width) 1);
    [discriminate|].
  destruct (Z.eqb_spec stride_h 0); [discriminate|].
  destruct (Z.eqb_spec stride_w 0); [discriminate|].
  destruct (Z.eqb_spec dilation_h 0); [discriminate|].
  destruct (Z.eqb_spec dilation_w 0); [discriminate|].
  destruct (Z.eqb_spec channel_count 0); [discriminate|].
  destruct calloc_succeeds; cbn; [|discriminate].
  intros [= <-].
  assert (pooling_height ≠ 0 ∧ pooling_width ≠ 0) as [Hh Hw].
  { split; intros ->; apply Hne; unfold uint32_mul, to_uint32.
    - reflexivity.
    - rewrite Z.mul_0_r. reflexivity. }
  unfold is_uint32 in *.
  constructor; cbn; unfold is_uint32; lia.
Qed.

(** ** The paths through setup *)

Section setup_paths.
Variables (qnnp_params : qnnp_parameters) (realloc_reply : option Z).
Variables (max_pooling : qnnp_operator).
Variables (batch input_h input_w input_address pixel_stride : Z).
Variables (output_address output_stride : Z).

Let result : setup_result :=
  qnnp_setup_max_pooling2d_nhwc_u8 qnnp_params realloc_reply max_pooling
    batch input_h input_w input_address pixel_stride output_address
    output_stride.

Let geometry : qnnp_operator :=
  store_geometry max_pooling batch input_h input_w input_address
    pixel_stride output_address output_stride.

Lemma cache_valid_decide :
  (input_address =? max_pooling.(last_input))
  && (input_h =? max_pooling.(last_input_height))
  && (input_w =? max_pooling.(last_input_width))
  && (batch <=? reusable_batch_size max_pooling input_h input_w
                  input_address) = true
  ↔ cache_valid max_pooling batch input_h input_w input_address.
Proof.
  unfold cache_valid, reusable_batch_size.
  destruct (Z.eqb_spec input_address (last_input max_pooling));
    destruct (Z.eqb_spec input_h (last_input_height max_pooling));
    destruct (Z.eqb_spec input_w (last_input_width max_pooling));
    cbn; rewrite ?Z.leb_le; intuition congruence.
Qed.

Lemma setup_uninitialized :
  initialized qnnp_params = false →
  result = {| setup_status := qnnp_status_uninitialized;
              setup_operator := max_pooling;
              setup_realloc := None;
              setup_log := [log_setup_uninitialized] |}.
Proof.
  intros Hinit. subst result. unfold qnnp_setup_max_pooling2d_nhwc_u8.
  rewrite Hinit. reflexivity.
Qed.

Lemma setup_zero_batch_size :
  initialized qnnp_params = true → batch = 0 →
  result = {| setup_status := qnnp_status_invalid_parameter;
              setup_operator := max_pooling;
              setup_realloc := None;
              setup_log := [log_zero_batch_size batch] |}.
Proof.
  intros Hinit ->. subst result. unfold qnnp_setup_max_pooling2d_nhwc_u8.
  rewrite Hinit. reflexivity.
Qed.

Lemma setup_zero_input_dimensions :
  initialized qnnp_params = true → batch ≠ 0 →
  input_w = 0 ∨ input_h = 0 →
  result = {| setup_status := qnnp_status_invalid_parameter;
              setup_operator := max_pooling;
              setup_realloc := None;
              setup_log := [log_zero_input_dimensions input_w input_h] |}.
Proof.
  intros Hinit Hb Hdim. subst result.
  unfold qnnp_setup_max_pooling2d_nhwc_u8. rewrite Hinit. cbn.
  destruct (Z.eqb_spec batch 0); [contradiction|].
  destruct (Z.eqb_spec input_w 0), (Z.eqb_spec input_h 0);
    cbn; try reflexivity; lia.
Qed.

Lemma setup_cache_hit :
  initialized qnnp_params = true → batch ≠ 0 →
  input_w ≠ 0 → input_h ≠ 0 →
  cache_valid max_pooling batch input_h input_w input_address →
  result = {| setup_status := qnnp_status_success;
              setup_operator := geometry;
              setup_realloc := None;
              setup_log := [] |}.
Proof.
  intros Hinit Hb Hw Hh Hvalid. subst result geometry.
  apply cache_valid_decide in Hvalid.
  unfold qnnp_setup_max_pooling2d_nhwc_u8. rewrite Hinit. cbn.
  destruct (Z.eqb_spec batch 0); [contradiction|].
  destruct (Z.eqb_spec input_w 0); [contradiction|].
  destruct (Z.eqb_spec input_h 0); [contradiction|].
  cbn. unfold reusable_batch_size in Hvalid. rewrite Hvalid. reflexivity.
Qed.

Lemma setup_allocation_failure :
  initialized qnnp_params = true → batch ≠ 0 →
  input_w ≠ 0 → input_h ≠ 0 →
  ¬ cache_valid max_pooling batch input_h input_w input_address →
  realloc_reply = None →
  let size :=
    indirection_buffer_size qnnp_params.(u8maxpool_mr) geometry batch in
  result = {| setup_status := qnnp_status_out_of_memory;
              setup_operator := geometry;
              setup_realloc := Some size;
              setup_log := [log_indirection_allocation_failed size] |}.
Proof.
  intros Hinit Hb Hw Hh Hvalid ->. subst result geometry.
  rewrite <- cache_valid_decide in Hvalid.
  apply not_true_is_false in Hvalid.
  unfold qnnp_setup_max_pooling2d_nhwc_u8. rewrite Hinit. cbn.
  destruct (Z.eqb_spec batch 0); [contradiction|].
  destruct (Z.eqb_spec input_w 0); [contradiction|].
  destruct (Z.eqb_spec input_h 0); [contradiction|].
  cbn. unfold reusable_batch_size in Hvalid. rewrite Hvalid. reflexivity.
Qed.

Lemma setup_rebuild address :
  initialized qnnp_params = true → batch ≠ 0 →
  input_w ≠ 0 → input_h ≠ 0 →
  ¬ cache_valid max_pooling batch input_h input_w input_address →
  realloc_reply = Some address →
  result =
    {| setup_status := qnnp_status_success;
       setup_operator :=
         store_cache
           (store_indirection_buffer geometry
              (rebuilt_block qnnp_params.(u8maxpool_mr) address geometry
                 batch))
           input_address input_h input_w
           (size_max
              (reusable_batch_size max_pooling input_h input_w
                 input_address) batch);
       setup_realloc :=
         Some (indirection_buffer_size qnnp_params.(u8maxpool_mr) geometry
                 batch);
       setup_log := [] |}.
Proof.
  intros Hinit Hb Hw Hh Hvalid ->. subst result geometry.
  rewrite <- cache_valid_decide in Hvalid.
  apply not_true_is_false in Hvalid.
  unfold qnnp_setup_max_pooling2d_nhwc_u8. rewrite Hinit. cbn.
  destruct (Z.eqb_spec batch 0); [contradiction|].
  destruct (Z.eqb_spec input_w 0); [contradiction|].
  destruct (Z.eqb_spec input_h 0); [contradiction|].
  cbn. unfold reusable_batch_size in Hvalid. rewrite Hvalid. reflexivity.
Qed.

(** Every call takes exactly one of the six paths. *)
Lemma setup_cases :
  (initialized qnnp_params = false
   ∧ result = {| setup_status := qnnp_status_uninitialized;
                 setup_operator := max_pooling;
                 setup_realloc := None;
                 setup_log := [log_setup_uninitialized] |})
  ∨ (initialized qnnp_params = true ∧ batch = 0
     ∧ result = {| setup_status := qnnp_status_invalid_parameter;
                   setup_operator := max_pooling;
                   setup_realloc := None;
                   setup_log := [log_zero_batch_size batch] |})
  ∨ (initialized qnnp_params = true ∧ batch ≠ 0
     ∧ (input_w = 0 ∨ input_h = 0)
     ∧ result = {| setup_status := qnnp_status_invalid_parameter;
                   setup_operator := max_pooling;
                   setup_realloc := None;
                   setup_log :=
                     [log_zero_input_dimensions input_w input_h] |})
  ∨ (initialized qnnp_params = true ∧ batch ≠ 0
     ∧ input_w ≠ 0 ∧ input_h ≠ 0
     ∧ cache_valid max_pooling batch input_h input_w input_address
     ∧ result = {| setup_status := qnnp_status_success;
                   setup_operator := geometry;
                   setup_realloc := None;
                   setup_log := [] |})
  ∨ (initialized qnnp_params = true ∧ batch ≠ 0
     ∧ input_w ≠ 0 ∧ input_h ≠ 0
     ∧ ¬ cache_valid max_pooling batch input_h input_w input_address
     ∧ realloc_reply = None
     ∧ result =
         {| setup_status := qnnp_status_out_of_memory;
            setup_operator := geometry;
            setup_realloc :=
              Some (indirection_buffer_size qnnp_params.(u8maxpool_mr)
                      geometry batch);
            setup_log :=
              [log_indirection_allocation_failed
                 (indirection_buffer_size qnnp_params.(u8maxpool_mr)
                    geometry batch)] |})
  ∨ (initialized qnnp_params = true ∧ batch ≠ 0
     ∧ input_w ≠ 0 ∧ input_h ≠ 0
     ∧ ¬ cache_valid max_pooling batch input_h input_w input_address
     ∧ ∃ address,
         realloc_reply = Some address
         ∧ result =
             {| setup_status := qnnp_status_success;
                setup_operator :=
                  store_cache
                    (store_indirection_buffer geometry
                       (rebuilt_block qnnp_params.(u8maxpool_mr) address
                          geometry batch))
                    input_address input_h input_w
                    (size_max
                       (reusable_batch_size max_pooling input_h input_w
                          input_address) batch);
                setup_realloc :=
                  Some (indirection_buffer_size qnnp_params.(u8maxpool_mr)
                          geometry batch);
                setup_log := [] |}).
Proof.
  destruct (initialized qnnp_params) eqn:Hinit;
    [|left; split; [reflexivity|]; now apply setup_uninitialized].
  right.
  destruct (decide (batch = 0)) as [Hb|Hb];
    [left; repeat split; [exact Hb|]; now apply setup_zero_batch_size|].
  right.
  destruct (decide (input_w = 0)) as [Hw|Hw];
    [left; repeat split; [exact Hb|now left|];
     apply setup_zero_input_dimensions; auto|].
  destruct (decide (input_h = 0)) as [Hh|Hh];
    [left; repeat split; [exact Hb|now right|];
     apply setup_zero_input_dimensions; auto|].
  right.
  destruct (decide (cache_valid max_pooling batch input_h input_w
                      input_address)) as [Hvalid|Hvalid];
    [left; repeat split; try assumption; try apply Hvalid;
     now apply setup_cache_hit|].
  right.
  assert ((∃ address, realloc_reply = Some address) ∨ realloc_reply = None)
    as [[address Hreply]|Hreply].
  { clear result. destruct realloc_reply; eauto. }
  - right. repeat split; try assumption.
    exists address. split; [exact Hreply|]. now apply setup_rebuild.
  - left. repeat split; try assumption.
    now apply setup_allocation_failure.
Qed.
End setup_paths.

(** ** Argument validation in setup *)

(** C9.  A setup call with batch size zero, or with input height or width
    zero, returns the invalid-parameter status - after the initialization
    check, which comes first and returns the uninitialized status - and in
    both cases leaves the whole descriptor, its geometry, cache fields and
    indirection buffer included, as it was, without calling the
    allocator. *)
Theorem setup_rejects_empty_input :
  ∀ (qnnp_params : qnnp_parameters) (realloc_reply : option Z)
    (max_pooling : qnnp_operator)
    (batch input_h input_w input_address pixel_stride output_address
     output_stride : Z),
  let r :=
    qnnp_setup_max_pooling2d_nhwc_u8 qnnp_params realloc_reply max_pooling
      batch input_h input_w input_address pixel_stride output_address
      output_stride in
  batch = 0 ∨ input_h = 0 ∨ input_w = 0 →
  setup_operator r = max_pooling
  ∧ setup_realloc r = None
  ∧ (initialized qnnp_params = true →
     setup_status r = qnnp_status_invalid_parameter)
  ∧ (initialized qnnp_params = false →
     setup_status r = qnnp_status_uninitialized).
Proof.
  intros until r. intros Hempty.
  destruct (setup_cases qnnp_params realloc_reply max_pooling batch input_h
              input_w input_address pixel_stride output_address
              output_stride)
    as [(Hinit & Hr)|[(Hinit & Hb & Hr)|[(Hinit & Hb & Hdim & Hr)
       |[(Hinit & Hb & Hw & Hh & _)|[(Hinit & Hb & Hw & Hh & _)
       |(Hinit & Hb & Hw & Hh & _)]]]]];
    try (exfalso; lia);
    fold r in Hr; rewrite Hr; cbn; rewrite Hinit;
    repeat split; intros; congruence.
Qed.

Lemma setup_rejects_empty_input_witness :
  setup_operator (sample_setup (created_operator 2 2 2 2) 0 1000 3)
  = created_operator 2 2 2 2
  ∧ setup_status (sample_setup (created_operator 2 2 2 2) 0 1000 3)
    = qnnp_status_invalid_parameter.
Proof.
  destruct (setup_rejects_empty_input sample_params (Some 4096)
              (created_operator 2 2 2 2) 0 4 4 1000 3 2000 3)
    as (Hop & _ & Hstatus & _); [left; reflexivity|].
  split; [exact Hop | apply Hstatus; reflexivity].
Defined.

(** ** Allocation failure in setup *)

(** C7.  When setup fails with the out-of-memory status, the descriptor
    already holds the new batch size, input shape, input and output
    addresses and strides and the newly computed output height and width,
    while the cache fields and the indirection buffer are those of before
    the call. *)
Theorem setup_out_of_memory_keeps_geometry :
  ∀ (qnnp_params : qnnp_parameters) (realloc_reply : option Z)
    (max_pooling : qnnp_operator)
    (batch input_h input_w input_address pixel_stride output_address
     output_stride : Z),
  let r :=
    qnnp_setup_max_pooling2d_nhwc_u8 qnnp_params realloc_reply max_pooling
      batch input_h input_w input_address pixel_stride output_address
      output_stride in
  let after := setup_operator r in
  setup_status r = qnnp_status_out_of_memory →
  (after.(batch_size) = batch
   ∧ after.(input_height) = input_h
   ∧ after.(input_width) = input_w
   ∧ after.(input) = input_address
   ∧ after.(input_pixel_stride) = pixel_stride
   ∧ after.(output) = output_address
   ∧ after.(output_pixel_stride) = output_stride
   ∧ after.(output_height) =
       compute_output_dimension
         (max_pooling.(input_padding_top) +% input_h
          +% max_pooling.(input_padding_bottom))
         max_pooling.(kernel_height) max_pooling.(dilation_height)
         max_pooling.(stride_height)
   ∧ after.(output_width) =
       compute_output_dimension
         (max_pooling.(input_padding_left) +% input_w
          +% max_pooling.(input_padding_right))
         max_pooling.(kernel_width) max_pooling.(dilation_width)
         max_pooling.(stride_width))
  ∧ (after.(last_input) = max_pooling.(last_input)
     ∧ after.(last_input_height) = max_pooling.(last_input_height)
     ∧ after.(last_input_width) = max_pooling.(last_input_width)
     ∧ after.(valid_batch_size) = max_pooling.(valid_batch_size))
  ∧ after.(indirection_buffer) = max_pooling.(indirection_buffer)
  ∧ realloc_reply = None
  ∧ ∃ size, setup_realloc r = Some size.
Proof.
  intros until after. intros Hstatus. subst after.
  destruct (setup_cases qnnp_params realloc_reply max_pooling batch input_h
              input_w input_address pixel_stride output_address
              output_stride)
    as [(Hinit & Hr)|[(Hinit & Hb & Hr)|[(Hinit & Hb & Hdim & Hr)
       |[(Hinit & Hb & Hw & Hh & Hvalid & Hr)
       |[(Hinit & Hb & Hw & Hh & Hvalid & Hreply & Hr)
       |(Hinit & Hb & Hw & Hh & Hvalid & address & Hreply & Hr)]]]]];
    fold r in Hr; rewrite Hr in Hstatus |- *; cbn in Hstatus;
    try discriminate Hstatus.
  cbn. repeat split; eauto.
Qed.

Lemma setup_out_of_memory_keeps_geometry_witness :
  let r :=
    qnnp_setup_max_pooling2d_nhwc_u8 sample_params None
      (created_operator 2 2 2 2) 1 4 4 1000 3 2000 3 in
  (setup_operator r).(output_height) = 2
  ∧ (setup_operator r).(valid_batch_size) = 0
  ∧ (setup_operator r).(indirection_buffer) = None.
Proof.
  cbv zeta.
  destruct (setup_out_of_memory_keeps_geometry sample_params None
              (created_operator 2 2 2 2) 1 4 4 1000 3 2000 3)
    as ((_ & _ & _ & _ & _ & _ & _ & Hheight & _) & (_ & _ & _ & Hvalid)
        & Hbuffer & _); [reflexivity|].
  split; [rewrite Hheight; reflexivity|].
  split; [rewrite Hvalid; reflexivity|].
  rewrite Hbuffer. reflexivity.
Defined.

(** ** The setup cache *)

(** C4 (amended: the call passes the argument checks).  When the library
    is initialized, the batch size and the input height and width are
    nonzero, and the input address, height and width equal the cached ones
    with a batch size of at most the cached maximum, setup returns success
    without calling the allocator and the descriptor keeps the same
    indirection buffer, entries included, and the same cache fields. *)
Theorem setup_cache_hit_keeps_buffer :
  ∀ (qnnp_params : qnnp_parameters) (realloc_reply : option Z)
    (max_pooling : qnnp_operator)
    (batch input_h input_w input_address pixel_stride output_address
     output_stride : Z),
  let r :=
    qnnp_setup_max_pooling2d_nhwc_u8 qnnp_params realloc_reply max_pooling
      batch input_h input_w input_address pixel_stride output_address
      output_stride in
  let after := setup_operator r in
  initialized qnnp_params = true →
  batch ≠ 0 → input_h ≠ 0 → input_w ≠ 0 →
  input_address = max_pooling.(last_input) →
  input_h = max_pooling.(last_input_height) →
  input_w = max_pooling.(last_input_width) →
  batch <= max_pooling.(valid_batch_size) →
  setup_status r = qnnp_status_success
  ∧ setup_realloc r = None
  ∧ after.(indirection_buffer) = max_pooling.(indirection_buffer)
  ∧ after.(last_input) = max_pooling.(last_input)
  ∧ after.(last_input_height) = max_pooling.(last_input_height)
  ∧ after.(last_input_width) = max_pooling.(last_input_width)
  ∧ after.(valid_batch_size) = max_pooling.(valid_batch_size).
Proof.
  intros until after. intros Hinit Hb Hh Hw Ha Hih Hiw Hle. subst after r.
  rewrite setup_cache_hit; auto; [|repeat split; assumption].
  cbn. repeat split.
Qed.

Lemma setup_cache_hit_keeps_buffer_witness :
  let first := sample_setup (created_operator 2 2 2 2) 2 1000 3 in
  let second := sample_setup (setup_operator first) 1 1000 3 in
  setup_status second = qnnp_status_success
  ∧ setup_realloc second = None
  ∧ (setup_operator second).(indirection_buffer)
    = (setup_operator first).(indirection_buffer).
Proof.
  cbv zeta.
  destruct (setup_cache_hit_keeps_buffer sample_params (Some 4096)
              (setup_operator
                 (sample_setup (created_operator 2 2 2 2) 2 1000 3))
              1 4 4 1000 3 2000 3)
    as (Hstatus & Hrealloc & Hbuffer & _);
    try reflexivity; try discriminate.
  repeat split; assumption.
Defined.

(** C4 as stated fails for a batch size of zero: after a setup with batch
    size 2, a call with the same input address and shape and batch size 0
    meets every stated condition, yet setup returns the invalid-parameter
    status. *)
Lemma setup_cache_hit_zero_batch :
  let first := sample_setup (created_operator 2 2 2 2) 2 1000 3 in
  let cached := setup_operator first in
  let second := sample_setup cached 0 1000 3 in
  setup_status first = qnnp_status_success
  ∧ 1000 = cached.(last_input)
  ∧ 4 = cached.(last_input_height)
  ∧ 4 = cached.(last_input_width)
  ∧ 0 <= cached.(valid_batch_size)
  ∧ setup_status second = qnnp_status_invalid_parameter
  ∧ setup_status second ≠ qnnp_status_success.
Proof.
  cbv zeta. repeat split; discriminate.
Qed.

(** C5 (amended: the previous bound counts only when the input address and
    shape are the cached ones).  After a setup call that succeeds having
    rebuilt the indirection buffer, the cache holds the new input address,
    height and width, and the maximum valid batch size is [max(v, new batch
    size)], where [v] is the previous maximum when the new address, height
    and width equal the cached ones and zero otherwise; this is the new
    batch size, and within a fixed input address and shape it is no less
    than the previous maximum. *)
Theorem setup_rebuild_updates_cache :
  ∀ (qnnp_params : qnnp_parameters) (realloc_reply : option Z)
    (max_pooling : qnnp_operator)
    (batch input_h input_w input_address pixel_stride output_address
     output_stride size : Z),
  let r :=
    qnnp_setup_max_pooling2d_nhwc_u8 qnnp_params realloc_reply max_pooling
      batch input_h input_w input_address pixel_stride output_address
      output_stride in
  let after := setup_operator r in
  is_size_t batch →
  setup_status r = qnnp_status_success →
  setup_realloc r = Some size →
  after.(last_input) = input_address
  ∧ after.(last_input_height) = input_h
  ∧ after.(last_input_width) = input_w
  ∧ after.(valid_batch_size) =
      Z.max (reusable_batch_size max_pooling input_h input_w input_address)
        batch
  ∧ after.(valid_batch_size) = batch
  ∧ (input_address = max_pooling.(last_input) →
     input_h = max_pooling.(last_input_height) →
     input_w = max_pooling.(last_input_width) →
     after.(valid_batch_size) =
       Z.max max_pooling.(valid_batch_size) batch
     ∧ max_pooling.(valid_batch_size) <= after.(valid_batch_size)).
Proof.
  intros until after. intros Hbatch Hstatus Hrealloc. subst after.
  destruct (setup_cases qnnp_params realloc_reply max_pooling batch input_h
              input_w input_address pixel_stride output_address
              output_stride)
    as [(Hinit & Hr)|[(Hinit & Hb & Hr)|[(Hinit & Hb & Hdim & Hr)
       |[(Hinit & Hb & Hw & Hh & Hvalid & Hr)
       |[(Hinit & Hb & Hw & Hh & Hvalid & Hreply & Hr)
       |(Hinit & Hb & Hw & Hh & Hvalid & address & Hreply & Hr)]]]]];
    fold r in Hr; rewrite Hr in Hstatus, Hrealloc |- *;
    cbn in Hstatus, Hrealloc; try discriminate.
  cbn. rewrite size_max_spec.
  unfold is_size_t in Hbatch.
  assert (Hreuse :
    reusable_batch_size max_pooling input_h input_w input_address < batch).
  { unfold reusable_batch_size, cache_valid in *.
    destruct (Z.eqb_spec input_address (last_input max_pooling));
      destruct (Z.eqb_spec input_h (last_input_height max_pooling));
      destruct (Z.eqb_spec input_w (last_input_width max_pooling));
      cbn; lia. }
  split; [reflexivity|]. split; [reflexivity|]. split; [reflexivity|].
  split; [reflexivity|]. split; [lia|].
  intros Ha Hih Hiw. unfold reusable_batch_size in Hreuse |- *.
  rewrite <- Ha, <- Hih, <- Hiw, !Z.eqb_refl in Hreuse |- *.
  cbn in Hreuse |- *. lia.
Qed.

Lemma setup_rebuild_updates_cache_witness :
  (setup_operator
     (sample_setup (created_operator 2 2 2 2) 2 1000 3)).(valid_batch_size)
  = 2.
Proof.
  destruct (setup_rebuild_updates_cache sample_params (Some 4096)
              (created_operator 2 2 2 2) 2 4 4 1000 3 2000 3 384)
    as (_ & _ & _ & _ & Hvalid & _);
    [ unfold is_size_t; rewrite size_modulus_eq; lia
    | reflexivity | reflexivity | exact Hvalid ].
Defined.

(** C5 as stated fails when the input address changes: after a setup with
    batch size 4 at address 1000, a setup with batch size 2 at address 5000
    rebuilds the buffer and leaves 2 as the maximum valid batch size, not
    [max(4, 2)]. *)
Lemma setup_rebuild_forgets_other_input :
  let first := sample_setup (created_operator 2 2 2 2) 4 1000 3 in
  let second := sample_setup (setup_operator first) 2 5000 3 in
  setup_status first = qnnp_status_success
  ∧ (setup_operator first).(valid_batch_size) = 4
  ∧ setup_status second = qnnp_status_success
  ∧ (∃ size, setup_realloc second = Some size)
  ∧ (setup_operator second).(valid_batch_size) = 2
  ∧ (setup_operator second).(valid_batch_size)
    ≠ Z.max (setup_operator first).(valid_batch_size) 2.
Proof.
  cbv zeta. repeat split; try discriminate.
  eexists. vm_compute. reflexivity.
Qed.

(** ** The population loop as a sequence of stores *)

Lemma foldl_bind {A B C : Type} (f : A → C → A) (g : B → list C)
    (l : list B) (a : A) :
  foldl f a (l ≫= g) = foldl (λ a x, foldl f a (g x)) a l.
Proof.
  revert a. induction l as [|x l IH]; intros a; [reflexivity|].
  cbn. rewrite foldl_app. apply IH.
Qed.

Lemma foldl_ext_eq {A B : Type} (f g : A → B → A) (l : list B) (a : A) :
  (∀ a x, f a x = g a x) → foldl f a l = foldl g a l.
Proof.
  intros Hfg. revert a. induction l as [|x l IH]; intros a; [reflexivity|].
  cbn. rewrite Hfg. apply IH.
Qed.

Lemma for_loop_ext {S : Type} (n : Z) (f g : Z → S → S) (s : S) :
  (∀ i s, f i s = g i s) → for_loop n f s = for_loop n g s.
Proof. intros Hfg. unfold for_loop. apply foldl_ext_eq. auto. Qed.

(** The loop nest performs one [store_entry] per iteration, in program
    order. *)
Lemma populate_indirection_buffer_stores (max_pooling : qnnp_operator)
    (entries : gmap Z Z) :
  populate_indirection_buffer max_pooling max_pooling.(batch_size)
    max_pooling.(input_height) max_pooling.(input_width)
    max_pooling.(input) max_pooling.(input_pixel_stride) entries
  = foldl (store_entry max_pooling) entries
      (population_iterations max_pooling).
Proof.
  unfold population_iterations, populate_indirection_buffer, for_loop.
  cbv zeta.
  rewrite foldl_bind. apply foldl_ext_eq. intros m1 image.
  rewrite foldl_bind. apply foldl_ext_eq. intros m2 output_y.
  rewrite foldl_bind. apply foldl_ext_eq. intros m3 pooling_y.
  rewrite foldl_bind. apply foldl_ext_eq. intros m4 output_x.
  rewrite foldl_bind. apply foldl_ext_eq. intros m5 pooling_x.
  reflexivity.
Qed.

Lemma elem_of_population_iterations (max_pooling : qnnp_operator)
    (t : iteration) :
  t ∈ population_iterations max_pooling
  ↔ 0 ≤ t.(image) < max_pooling.(batch_size)
    ∧ 0 ≤ t.(output_y) < max_pooling.(output_height)
    ∧ 0 ≤ t.(pooling_y) < max_pooling.(kernel_height)
    ∧ 0 ≤ t.(output_x) < max_pooling.(output_width)
    ∧ 0 ≤ t.(pooling_x) < max_pooling.(kernel_width).
Proof.
  unfold population_iterations. split.
  - intros Ht.
    apply list_elem_of_bind in Ht as (i & Ht & Hi).
    apply list_elem_of_bind in Ht as (oy & Ht & Hoy).
    apply list_elem_of_bind in Ht as (py & Ht & Hpy).
    apply list_elem_of_bind in Ht as (ox & Ht & Hox).
    apply list_elem_of_bind in Ht as (px & Ht & Hpx).
    apply list_elem_of_singleton in Ht. subst t. cbn.
    rewrite elem_of_seqZ in Hi, Hoy, Hpy, Hox, Hpx. lia.
  - intros (Hi & Hoy & Hpy & Hox & Hpx). destruct t as [i oy py ox px].
    cbn in *.
    apply list_elem_of_bind. exists i. split; [|apply elem_of_seqZ; lia].
    apply list_elem_of_bind. exists oy. split; [|apply elem_of_seqZ; lia].
    apply list_elem_of_bind. exists py. split; [|apply elem_of_seqZ; lia].
    apply list_elem_of_bind. exists ox. split; [|apply elem_of_seqZ; lia].
    apply list_elem_of_bind. exists px. split; [|apply elem_of_seqZ; lia].
    apply list_elem_of_singleton. reflexivity.
Qed.

Lemma rebuilt_block_entries (mr address : Z) (geometry : qnnp_operator) :
  block_entries (rebuilt_block mr address geometry geometry.(batch_size))
  = foldl (store_entry geometry)
      (preserved_entries geometry.(indirection_buffer)
         (indirection_buffer_size mr geometry geometry.(batch_size)))
      (population_iterations geometry).
Proof. apply populate_indirection_buffer_stores. Qed.

(** An index no iteration stores to keeps its entry. *)
Lemma stores_lookup_other (max_pooling : qnnp_operator)
    (l : list iteration) (entries : gmap Z Z) (i : Z) :
  i ∉ entry_index max_pooling <$> l →
  foldl (store_entry max_pooling) entries l !! i = entries !! i.
Proof.
  induction l as [|t l IH] using rev_ind; intros Hi; [reflexivity|].
  rewrite fmap_app, not_elem_of_app in Hi. destruct Hi as [Hl Ht].
  rewrite foldl_snoc. unfold store_entry at 1.
  rewrite lookup_insert_ne; [auto|].
  intros Heq. apply Ht. cbn. rewrite Heq. apply list_elem_of_here.
Qed.

(** An index some iteration stores to holds the value of one of them. *)
Lemma stores_lookup_written (max_pooling : qnnp_operator)
    (l : list iteration) (entries : gmap Z Z) (i : Z) :
  i ∈ entry_index max_pooling <$> l →
  ∃ t, t ∈ l ∧ entry_index max_pooling t = i
       ∧ foldl (store_entry max_pooling) entries l !! i
         = Some (entry_value max_pooling t).
Proof.
  induction l as [|t l IH] using rev_ind; intros Hi.
  - cbn in Hi. apply elem_of_nil in Hi. contradiction.
  - rewrite foldl_snoc. unfold store_entry at 1.
    destruct (decide (entry_index max_pooling t = i)) as [Heq|Hne].
    + exists t.
      split; [apply elem_of_app; right; apply list_elem_of_here|].
      split; [exact Heq|].
      rewrite <- Heq. apply lookup_insert_eq.
    + rewrite lookup_insert_ne by exact Hne.
      rewrite fmap_app, elem_of_app in Hi. destruct Hi as [Hi|Hi].
      * destruct (IH Hi) as (t' & Ht' & Hidx & Hval).
        exists t'. split; [apply elem_of_app; left; exact Ht'|].
        split; assumption.
      * cbn in Hi. apply list_elem_of_singleton in Hi. congruence.
Qed.

(** What such an index holds does not depend on the entries before. *)
Lemma stores_lookup_independent (max_pooling : qnnp_operator)
    (l : list iteration) (entries entries' : gmap Z Z) (i : Z) :
  i ∈ entry_index max_pooling <$> l →
  foldl (store_entry max_pooling) entries l !! i
  = foldl (store_entry max_pooling) entries' l !! i.
Proof.
  induction l as [|t l IH] using rev_ind; intros Hi.
  - cbn in Hi. apply elem_of_nil in Hi. contradiction.
  - rewrite !foldl_snoc. unfold store_entry at 1 3.
    destruct (decide (entry_index max_pooling t = i)) as [Heq|Hne].
    + rewrite Heq, !lookup_insert_eq. reflexivity.
    + rewrite !lookup_insert_ne by exact Hne.
      rewrite fmap_app, elem_of_app in Hi. destruct Hi as [Hi|Hi]; [auto|].
      cbn in Hi. apply list_elem_of_singleton in Hi. congruence.
Qed.

(** ** Descriptors with the same layout *)

Lemma same_layout_refl a : same_layout a a.
Proof. constructor; reflexivity. Qed.

Lemma same_layout_sym a b : same_layout a b → same_layout b a.
Proof. intros H. destruct H. constructor; symmetry; assumption. Qed.

Lemma same_layout_trans a b c :
  same_layout a b → same_layout b c → same_layout a c.
Proof.
  intros Hab Hbc. destruct Hab, Hbc.
  constructor; etransitivity; eassumption.
Qed.

Lemma store_cache_layout a p h w v : same_layout (store_cache a p h w v) a.
Proof. constructor; reflexivity. Qed.

Lemma store_indirection_buffer_layout a block :
  same_layout (store_indirection_buffer a block) a.
Proof. constructor; reflexivity. Qed.

(** [use_layout H] rewrites the goal along the field equations of
    [H : same_layout a b]. *)
Ltac use_layout H :=
  destruct H;
  repeat match goal with
         | E : ?f ?a = ?f ?b |- _ => rewrite ?E; clear E
         end;
  try reflexivity.

Lemma width_step_layout a b : same_layout a b → width_step a = width_step b.
Proof. intros H. unfold width_step. use_layout H. Qed.

Lemma row_slots_layout a b : same_layout a b → row_slots a = row_slots b.
Proof.
  intros H. unfold row_slots. rewrite (width_step_layout a b H).
  use_layout H.
Qed.

Lemma entry_index_layout a b t :
  same_layout a b → entry_index a t = entry_index b t.
Proof.
  intros H. unfold entry_index.
  rewrite (width_step_layout a b H), (row_slots_layout a b H).
  use_layout H.
Qed.

Lemma clamped_input_y_layout a b t :
  same_layout a b → clamped_input_y a t = clamped_input_y b t.
Proof. intros H. unfold clamped_input_y. use_layout H. Qed.

Lemma clamped_input_x_layout a b t :
  same_layout a b → clamped_input_x a t = clamped_input_x b t.
Proof. intros H. unfold clamped_input_x. use_layout H. Qed.

Lemma entry_value_layout a b t :
  same_layout a b → entry_value a t = entry_value b t.
Proof.
  intros H. unfold entry_value.
  rewrite (clamped_input_y_layout a b t H), (clamped_input_x_layout a b t H).
  use_layout H.
Qed.

Lemma logical_entry_count_layout a b batch :
  same_layout a b → logical_entry_count a batch = logical_entry_count b batch.
Proof.
  intros H. unfold logical_entry_count. rewrite (width_step_layout a b H).
  use_layout H.
Qed.

Lemma indirection_buffer_size_layout mr a b batch :
  same_layout a b →
  indirection_buffer_size mr a batch = indirection_buffer_size mr b batch.
Proof.
  intros H. unfold indirection_buffer_size. cbv zeta.
  rewrite (width_step_layout a b H). use_layout H.
Qed.

(** ** The size of the indirection buffer *)

(** The requested size is eight times the required entry count, reduced
    modulo [2^64]. *)
Lemma indirection_buffer_size_wraps (mr : Z) (max_pooling : qnnp_operator)
    (batch : Z) :
  1 ≤ mr ≤ uint32_modulus →
  indirection_buffer_size mr max_pooling batch
  = to_size_t (sizeof_pointer * required_entry_count mr max_pooling batch).
Proof.
  intros Hmr. unfold indirection_buffer_size. cbv zeta.
  assert (Hsub : uint32_sub mr 1 = mr - 1).
  { apply to_uint32_small. unfold is_uint32. lia. }
  rewrite Hsub.
  eapply wrap_reduce; [wrap_congr | | apply size_mul_range].
  unfold required_entry_count, logical_entry_count. ring.
Qed.

Lemma indirection_buffer_size_exact (mr : Z) (max_pooling : qnnp_operator)
    (batch : Z) :
  1 ≤ mr ≤ uint32_modulus →
  is_size_t (sizeof_pointer * required_entry_count mr max_pooling batch) →
  indirection_buffer_size mr max_pooling batch
  = sizeof_pointer * required_entry_count mr max_pooling batch.
Proof.
  intros Hmr Hfit. rewrite indirection_buffer_size_wraps by exact Hmr.
  apply to_size_t_small. exact Hfit.
Qed.

Section setup_rebuilds.
Variables (qnnp_params : qnnp_parameters) (realloc_reply : option Z).
Variables (max_pooling : qnnp_operator).
Variables (batch input_h input_w input_address pixel_stride : Z).
Variables (output_address output_stride : Z).

Let result : setup_result :=
  qnnp_setup_max_pooling2d_nhwc_u8 qnnp_params realloc_reply max_pooling
    batch input_h input_w input_address pixel_stride output_address
    output_stride.

Let geometry : qnnp_operator :=
  store_geometry max_pooling batch input_h input_w input_address
    pixel_stride output_address output_stride.

(** A call that reaches [realloc] has passed the argument checks and missed
    the cache; it asks for [indirection_buffer_size] bytes, and the
    descriptor it leaves lays the buffer out as the one of line 181. *)
Lemma setup_realloc_inv size :
  setup_realloc result = Some size →
  initialized qnnp_params = true
  ∧ batch ≠ 0 ∧ input_w ≠ 0 ∧ input_h ≠ 0
  ∧ ¬ cache_valid max_pooling batch input_h input_w input_address
  ∧ size = indirection_buffer_size qnnp_params.(u8maxpool_mr) geometry batch
  ∧ same_layout (setup_operator result) geometry
  ∧ (setup_operator result).(batch_size) = batch.
Proof.
  intros Hrealloc.
  destruct (setup_cases qnnp_params realloc_reply max_pooling batch input_h
              input_w input_address pixel_stride output_address
              output_stride)
    as [(Hinit & Hr)|[(Hinit & Hb & Hr)|[(Hinit & Hb & Hdim & Hr)
       |[(Hinit & Hb & Hw & Hh & Hvalid & Hr)
       |[(Hinit & Hb & Hw & Hh & Hvalid & Hreply & Hr)
       |(Hinit & Hb & Hw & Hh & Hvalid & address & Hreply & Hr)]]]]];
    fold result in Hr; rewrite Hr in Hrealloc |- *; cbn in Hrealloc;
    try discriminate Hrealloc;
    injection Hrealloc as <-; cbn [setup_operator];
    (repeat split; try assumption; try reflexivity).
Qed.

(** A call that succeeds after reaching [realloc] has rebuilt the buffer:
    the descriptor holds the block the allocator returned, filled by the
    population loop, and the updated cache. *)
Lemma setup_rebuilt_inv size :
  setup_status result = qnnp_status_success →
  setup_realloc result = Some size →
  ∃ address,
    realloc_reply = Some address
    ∧ setup_operator result =
        store_cache
          (store_indirection_buffer geometry
             (rebuilt_block qnnp_params.(u8maxpool_mr) address geometry
                batch))
          input_address input_h input_w
          (size_max
             (reusable_batch_size max_pooling input_h input_w
                input_address) batch).
Proof.
  intros Hstatus Hrealloc.
  destruct (setup_cases qnnp_params realloc_reply max_pooling batch input_h
              input_w input_address pixel_stride output_address
              output_stride)
    as [(Hinit & Hr)|[(Hinit & Hb & Hr)|[(Hinit & Hb & Hdim & Hr)
       |[(Hinit & Hb & Hw & Hh & Hvalid & Hr)
       |[(Hinit & Hb & Hw & Hh & Hvalid & Hreply & Hr)
       |(Hinit & Hb & Hw & Hh & Hvalid & address & Hreply & Hr)]]]]];
    fold result in Hr; rewrite Hr in Hstatus, Hrealloc |- *;
    cbn in Hstatus, Hrealloc; try discriminate.
  exists address. split; [exact Hreply | reflexivity].
Qed.
End setup_rebuilds.

(** C3 (amended: the entry count times the pointer size fits in size_t).
    A setup call that reaches the reallocation asks for [sizeof(void* )]
    times [(mr - 1) + batchSize * outputHeight * (poolingSize + (outputWidth
    * widthStep - 1) * kernelHeight)] bytes, reduced modulo [2^64]; when
    that product fits in size_t the buffer is grown to exactly that many
    pointer-sized entries, which exceeds the strict logical entry count by
    [mr - 1], and on success the descriptor owns a block of that size. *)
Theorem setup_requests_required_entries :
  ∀ (qnnp_params : qnnp_parameters) (realloc_reply : option Z)
    (max_pooling : qnnp_operator)
    (batch input_h input_w input_address pixel_stride output_address
     output_stride size : Z),
  let r :=
    qnnp_setup_max_pooling2d_nhwc_u8 qnnp_params realloc_reply max_pooling
      batch input_h input_w input_address pixel_stride output_address
      output_stride in
  let after := setup_operator r in
  let mr := qnnp_params.(u8maxpool_mr) in
  let poolingSize := after.(kernel_height) * after.(kernel_width) in
  let widthStep :=
    if after.(dilation_width) >? 1 then after.(kernel_width)
    else Z.min after.(stride_width) after.(kernel_width) in
  let logical :=
    batch * after.(output_height)
    * (poolingSize
       + (after.(output_width) * widthStep - 1) * after.(kernel_height)) in
  is_uint32 mr → 1 ≤ mr →
  setup_realloc r = Some size →
  size = (sizeof_pointer * ((mr - 1) + logical)) mod 2 ^ 64
  ∧ (is_size_t (sizeof_pointer * ((mr - 1) + logical)) →
     size = sizeof_pointer * ((mr - 1) + logical)
     ∧ size / sizeof_pointer = (mr - 1) + logical
     ∧ size / sizeof_pointer - logical >= mr - 1)
  ∧ (setup_status r = qnnp_status_success →
     ∃ block,
       after.(indirection_buffer) = Some block
       ∧ block.(block_bytes) = size).
Proof.
  intros until logical. intros Hmr32 Hmr Hrealloc.
  destruct (setup_realloc_inv _ _ _ _ _ _ _ _ _ _ _ Hrealloc)
    as (Hinit & Hb & Hw & Hh & Hmiss & Hsize & Hlayout & Hbatch).
  fold r in Hlayout. fold after in Hlayout.
  assert (Hlogical :
    (mr - 1) + logical = required_entry_count mr after batch).
  { subst logical poolingSize widthStep.
    unfold required_entry_count, logical_entry_count, width_step.
    rewrite size_min_spec. reflexivity. }
  rewrite Hlogical.
  assert (Hwraps :
    size = to_size_t (sizeof_pointer * required_entry_count mr after batch)).
  { rewrite Hsize.
    rewrite <- (indirection_buffer_size_layout _ _ _ _ Hlayout).
    apply indirection_buffer_size_wraps.
    unfold is_uint32 in Hmr32. fold mr. lia. }
  split; [exact Hwraps|]. split.
  - intros Hfit. rewrite to_size_t_small in Hwraps by exact Hfit.
    assert (Hdiv : size / sizeof_pointer
                   = required_entry_count mr after batch).
    { rewrite Hwraps, Z.mul_comm. apply Z.div_mul. discriminate. }
    rewrite Hdiv. split; [exact Hwraps|]. split; [reflexivity|].
    rewrite <- Hlogical. lia.
  - intros Hstatus.
    destruct (setup_rebuilt_inv _ _ _ _ _ _ _ _ _ _ _ Hstatus Hrealloc)
      as (address & Hreply & Hafter).
    fold r in Hafter. subst after. rewrite Hafter. cbn.
    eexists. split; [reflexivity|]. cbn. symmetry. exact Hsize.
Qed.

Lemma setup_requests_required_entries_witness :
  224 = 8 * ((9 - 1) + 1 * 2 * (2 * 2 + (2 * 2 - 1) * 2))
  ∧ 224 / 8 - 1 * 2 * (2 * 2 + (2 * 2 - 1) * 2) >= 9 - 1.
Proof.
  destruct (setup_requests_required_entries sample_params (Some 4096)
              (created_operator 2 2 2 2) 1 4 4 1000 3 2000 3 224)
    as (_ & Hexact & _);
    [ unfold is_uint32; rewrite uint32_modulus_eq; cbn; lia
    | cbn; lia
    | reflexivity
    | ].
  destruct Hexact as (Hsize & _ & Hslack).
  - vm_compute. split; [discriminate | reflexivity].
  - split; [exact Hsize | exact Hslack].
Defined.

(** A descriptor without output columns: the loop nest reaches no
    store. *)
Lemma population_iterations_without_columns (max_pooling : qnnp_operator) :
  max_pooling.(output_width) = 0 → population_iterations max_pooling = [].
Proof.
  intros Hwidth. apply elem_of_nil_inv. intros t Ht.
  apply elem_of_population_iterations in Ht. lia.
Qed.

(** A rebuild without output columns stores nothing: the block is left
    with the bytes asked for and the entries the reallocation preserved. *)
Lemma setup_rebuild_without_columns
    qnnp_params realloc_reply max_pooling batch input_h input_w
    input_address pixel_stride output_address output_stride size :
  let r :=
    qnnp_setup_max_pooling2d_nhwc_u8 qnnp_params realloc_reply max_pooling
      batch input_h input_w input_address pixel_stride output_address
      output_stride in
  let after := setup_operator r in
  setup_status r = qnnp_status_success →
  setup_realloc r = Some size →
  after.(output_width) = 0 →
  population_iterations after = []
  ∧ ∃ block,
      after.(indirection_buffer) = Some block
      ∧ block.(block_bytes) = size
      ∧ block.(block_entries)
        = preserved_entries max_pooling.(indirection_buffer) size.
Proof.
  intros r after Hstatus Hrealloc Hwidth.
  split; [apply population_iterations_without_columns; exact Hwidth|].
  destruct (setup_realloc_inv _ _ _ _ _ _ _ _ _ _ _ Hrealloc)
    as (_ & _ & _ & _ & _ & Hsize & Hlayout & _).
  destruct (setup_rebuilt_inv _ _ _ _ _ _ _ _ _ _ _ Hstatus Hrealloc)
    as (address & _ & Hafter).
  fold r in Hlayout, Hafter. fold after in Hlayout, Hafter.
  set (geometry := store_geometry max_pooling batch input_h input_w
                     input_address pixel_stride output_address
                     output_stride) in *.
  set (mr := qnnp_params.(u8maxpool_mr)) in *.
  rewrite (layout_output_width _ _ Hlayout) in Hwidth.
  exists (rebuilt_block mr address geometry batch).
  split; [rewrite Hafter; reflexivity|].
  split; [symmetry; exact Hsize|].
  rewrite Hsize.
  change batch with (batch_size geometry).
  rewrite rebuilt_block_entries,
    (population_iterations_without_columns geometry Hwidth).
  reflexivity.
Qed.

(** C3 as stated fails when the entry count wraps around.  A descriptor
    created for a window of 1 row and [2^31 + 1] columns, stride 1 and
    dilation 1, is set up for one image of [2^30] rows and [2^31] columns
    without padding.  The output width wraps around to 0 and the output
    height is [2^30]; the entry count of the formula is [8 + 2^61], whose
    eightfold wraps around to 64.  The loop nest reaches no store, so the
    call has defined behaviour; it succeeds having grown the buffer to 64
    bytes, that is 8 entries, far fewer than the entry count of the
    formula and than the logical entry count [2^61]. *)
Lemma setup_request_wraps_without_columns :
  let max_pooling := created_operator 1 2147483649 1 1 in
  let r :=
    qnnp_setup_max_pooling2d_nhwc_u8 sample_params (Some 4096) max_pooling
      1 1073741824 2147483648 1000 3 2000 3 in
  let after := setup_operator r in
  let logical :=
    1 * after.(output_height)
    * (1 * 2147483649
       + (after.(output_width) * Z.min 1 2147483649 - 1) * 1) in
  create_operator
    (qnnp_create_max_pooling2d_nhwc_u8 sample_params true 0 0 0 0
       1 2147483649 1 1 1 1 3 0 255) = Some max_pooling
  ∧ setup_defined sample_params (Some 4096) max_pooling
      1 1073741824 2147483648 1000 3 2000 3
  ∧ setup_status r = qnnp_status_success
  ∧ setup_realloc r = Some 64
  ∧ after.(output_height) = 2 ^ 30
  ∧ after.(output_width) = 0
  ∧ logical = 2 ^ 61
  ∧ 64 ≠ sizeof_pointer * ((9 - 1) + logical)
  ∧ ¬ (64 / sizeof_pointer - logical >= 9 - 1)
  ∧ population_iterations after = []
  ∧ ∃ block,
      after.(indirection_buffer) = Some block
      ∧ block.(block_bytes) = 64
      ∧ block.(block_entries) = ∅.
Proof.
  intros max_pooling r after logical.
  set (geometry := store_geometry max_pooling 1 1073741824 2147483648 1000
                     3 2000 3).
  assert (Hgeometry_width : geometry.(output_width) = 0) by reflexivity.
  assert (Hgeometry_size :
    indirection_buffer_size (u8maxpool_mr sample_params) geometry 1 = 64)
    by (vm_compute; reflexivity).
  assert (Hmiss :
    ¬ cache_valid max_pooling 1 1073741824 2147483648 1000)
    by (intros (Haddress & _); discriminate Haddress).
  pose proof (setup_rebuild sample_params (Some 4096) max_pooling
                1 1073741824 2147483648 1000 3 2000 3 4096 eq_refl
                ltac:(discriminate) ltac:(discriminate)
                ltac:(discriminate) Hmiss eq_refl) as Hr.
  fold r geometry in Hr.
  assert (Hstatus : setup_status r = qnnp_status_success)
    by (rewrite Hr; reflexivity).
  assert (Hrealloc : setup_realloc r = Some 64)
    by (rewrite Hr; cbn [setup_realloc]; f_equal; exact Hgeometry_size).
  destruct (setup_realloc_inv sample_params (Some 4096) max_pooling
              1 1073741824 2147483648 1000 3 2000 3 64 Hrealloc)
    as (_ & _ & _ & _ & _ & _ & Hlayout & _).
  fold r in Hlayout. fold after in Hlayout. fold geometry in Hlayout.
  assert (Hheight : after.(output_height) = 2 ^ 30)
    by (rewrite (layout_output_height _ _ Hlayout); reflexivity).
  assert (Hwidth : after.(output_width) = 0)
    by (rewrite (layout_output_width _ _ Hlayout); reflexivity).
  destruct (setup_rebuild_without_columns sample_params (Some 4096)
              max_pooling 1 1073741824 2147483648 1000 3 2000 3 64
              Hstatus Hrealloc Hwidth)
    as (Hnone & block & Hblock & Hbytes & Hentries).
  fold r in Hnone, Hblock. fold after in Hnone, Hblock.
  split; [reflexivity|].
  split.
  { unfold setup_defined. cbv zeta. fold geometry. intros _.
    split; [discriminate|]. split; [discriminate|]. intros _.
    rewrite Hgeometry_size. split; [left; discriminate|].
    intros _ t Ht.
    rewrite (population_iterations_without_columns geometry
               Hgeometry_width) in Ht.
    apply elem_of_nil in Ht. contradiction. }
  split; [exact Hstatus|]. split; [exact Hrealloc|].
  split; [exact Hheight|]. split; [exact Hwidth|].
  subst logical. rewrite Hheight, Hwidth.
  split; [reflexivity|].
  split; [discriminate|]. split; [intros Hge; apply Hge; reflexivity|].
  split; [exact Hnone|].
  exists block. split; [exact Hblock|]. split; [exact Hbytes|].
  rewrite Hentries. reflexivity.
Qed.

(** Where the entry count wraps around and the loop nest does store, the
    call leaves defined behaviour.  For a 3x3 window with stride 2 on a
    2x2 input without padding, the kernel exceeds the input and both output
    extents are [2^63]; the request wraps around to 64 bytes, that is 8
    entries, and the iteration for output column 1 and pooling column 1 of
    the first row stores at index 9. *)
Lemma setup_request_wraps_for_oversized_kernel :
  let geometry :=
    store_geometry (created_operator 3 3 2 2) 1 2 2 1000 3 2000 3 in
  let t := {| image := 0; output_y := 0; pooling_y := 0;
              output_x := 1; pooling_x := 1 |} in
  setup_realloc
    (qnnp_setup_max_pooling2d_nhwc_u8 sample_params None
       (created_operator 3 3 2 2) 1 2 2 1000 3 2000 3) = Some 64
  ∧ geometry.(output_height) = 2 ^ 63
  ∧ geometry.(output_width) = 2 ^ 63
  ∧ t ∈ population_iterations geometry
  ∧ entry_index geometry t = 9
  ∧ ¬ stores_within_block geometry 64
  ∧ ¬ setup_defined sample_params (Some 4096) (created_operator 3 3 2 2)
        1 2 2 1000 3 2000 3.
Proof.
  intros geometry t.
  assert (Hsize :
    indirection_buffer_size (u8maxpool_mr sample_params) geometry 1 = 64)
    by (vm_compute; reflexivity).
  assert (Ht : t ∈ population_iterations geometry)
    by (apply elem_of_population_iterations; vm_compute;
        repeat apply conj; first [reflexivity | discriminate]).
  assert (Hindex : entry_index geometry t = 9) by (vm_compute; reflexivity).
  assert (Houtside : ¬ stores_within_block geometry 64).
  { intros Hwithin. specialize (Hwithin t Ht). rewrite Hindex in Hwithin.
    revert Hwithin. vm_compute. intros Hle. apply Hle. reflexivity. }
  split.
  { rewrite setup_allocation_failure;
      [ cbn [setup_realloc]; f_equal; exact Hsize | reflexivity
      | discriminate | discriminate | discriminate
      | intros (Haddress & _); discriminate Haddress | reflexivity ]. }
  split; [reflexivity|]. split; [reflexivity|].
  split; [exact Ht|]. split; [exact Hindex|]. split; [exact Houtside|].
  intros Hdefined. apply Houtside.
  unfold setup_defined in Hdefined. cbv zeta in Hdefined.
  fold geometry in Hdefined. rewrite Hsize in Hdefined.
  apply Hdefined.
  - unfold setup_arguments_pass. repeat apply conj;
      first [reflexivity | discriminate].
  - intros (Haddress & _). discriminate Haddress.
  - eexists. reflexivity.
Qed.

(** The same happens on an input that covers the kernel, for a batch
    size no memory can hold: a 2x2 window with stride 2 on a 4x4 input and
    a batch of [2^61] images has 2x2 outputs and 10 slots per output row;
    the request wraps around to 64 bytes, and the first iteration of output
    row 1 stores at index 10. *)
Lemma setup_request_wraps_for_huge_batch :
  let batch := 2 ^ 61 in
  let geometry :=
    store_geometry (created_operator 2 2 2 2) batch 4 4 1000 3 2000 3 in
  let t := {| image := 0; output_y := 1; pooling_y := 0;
              output_x := 0; pooling_x := 0 |} in
  valid_configuration (created_operator 2 2 2 2)
  ∧ input_covers_kernel (created_operator 2 2 2 2) 4 4
  ∧ setup_realloc
      (qnnp_setup_max_pooling2d_nhwc_u8 sample_params None
         (created_operator 2 2 2 2) batch 4 4 1000 3 2000 3) = Some 64
  ∧ t ∈ population_iterations geometry
  ∧ entry_index geometry t = 10
  ∧ ¬ setup_defined sample_params (Some 4096) (created_operator 2 2 2 2)
        batch 4 4 1000 3 2000 3.
Proof.
  intros batch geometry t.
  assert (Hsize :
    indirection_buffer_size (u8maxpool_mr sample_params) geometry batch
    = 64) by (vm_compute; reflexivity).
  assert (Ht : t ∈ population_iterations geometry)
    by (apply elem_of_population_iterations; vm_compute;
        repeat apply conj; first [reflexivity | discriminate]).
  assert (Hindex : entry_index geometry t = 10) by (vm_compute; reflexivity).
  split; [constructor; vm_compute; repeat apply conj;
          first [reflexivity | discriminate]|].
  split; [vm_compute; repeat apply conj;
          first [reflexivity | discriminate]|].
  split.
  { rewrite setup_allocation_failure;
      [ cbn [setup_realloc]; f_equal; exact Hsize | reflexivity
      | discriminate | discriminate | discriminate
      | intros (Haddress & _); discriminate Haddress | reflexivity ]. }
  split; [exact Ht|]. split; [exact Hindex|].
  intros Hdefined.
  unfold setup_defined in Hdefined. cbv zeta in Hdefined.
  fold geometry in Hdefined. rewrite Hsize in Hdefined.
  destruct Hdefined as (_ & _ & Hrebuild).
  - unfold setup_arguments_pass. repeat apply conj;
      first [reflexivity | discriminate].
  - destruct Hrebuild as (_ & Hwithin).
    + intros (Haddress & _). discriminate Haddress.
    + specialize (Hwithin ltac:(eexists; reflexivity) t Ht).
      rewrite Hindex in Hwithin.
      revert Hwithin. vm_compute. intros Hle. apply Hle. reflexivity.
Qed.

(** The requested size can also wrap around to zero on a descriptor that
    owns a block: after a first call for one image, a 2x2 window with
    stride 1 on a 2x4 input and a batch of [2^58 - 1] images has 1x3
    outputs and 8 slots per output row, and [8 * (8 + (2^58 - 1) * 8)] is
    [2^64].  Such a call is not among those with defined behaviour. *)
Lemma setup_request_of_zero_bytes :
  let first :=
    qnnp_setup_max_pooling2d_nhwc_u8 sample_params (Some 4096)
      (created_operator 2 2 1 1) 1 2 4 1000 3 2000 3 in
  let batch := 2 ^ 58 - 1 in
  setup_status first = qnnp_status_success
  ∧ is_Some (setup_operator first).(indirection_buffer)
  ∧ input_covers_kernel (setup_operator first) 2 4
  ∧ setup_realloc
      (qnnp_setup_max_pooling2d_nhwc_u8 sample_params None
         (setup_operator first) batch 2 4 1000 3 2000 3) = Some 0
  ∧ ¬ setup_defined sample_params None (setup_operator first)
        batch 2 4 1000 3 2000 3.
Proof.
  cbv zeta.
  split; [vm_compute; reflexivity|].
  split; [vm_compute; eexists; reflexivity|].
  split; [vm_compute; repeat apply conj;
          first [reflexivity | discriminate]|].
  split; [vm_compute; reflexivity|].
  unfold setup_defined. cbv zeta. intros Hdefined.
  destruct Hdefined as (_ & _ & Hrebuild).
  - unfold setup_arguments_pass. repeat apply conj;
      first [reflexivity | discriminate].
  - destruct Hrebuild as ([Hsize|Hnull] & _).
    + intros (_ & _ & _ & Hle). vm_compute in Hle. apply Hle. reflexivity.
    + apply Hsize. vm_compute. reflexivity.
    + vm_compute in Hnull. discriminate Hnull.
Qed.

(** ** The entries of the indirection buffer *)

Lemma population_iterations_layout a b :
  same_layout a b → a.(batch_size) = b.(batch_size) →
  population_iterations a = population_iterations b.
Proof.
  intros H Hbatch. unfold population_iterations. rewrite Hbatch.
  use_layout H.
Qed.

(** The clamped row and column are within the input, whatever the
    counters. *)
Lemma clamped_input_y_range (max_pooling : qnnp_operator) (t : iteration) :
  is_size_t max_pooling.(input_height) → max_pooling.(input_height) ≠ 0 →
  0 ≤ clamped_input_y max_pooling t ≤ max_pooling.(input_height) - 1.
Proof.
  intros Hrange Hne. unfold clamped_input_y.
  assert (Hlast : max_pooling.(input_height) -% 1
                  = max_pooling.(input_height) - 1).
  { unfold size_sub. apply to_size_t_small. unfold is_size_t in *. lia. }
  rewrite Hlast, size_min_spec, doz_spec. unfold is_size_t in Hrange. lia.
Qed.

Lemma clamped_input_x_range (max_pooling : qnnp_operator) (t : iteration) :
  is_size_t max_pooling.(input_width) → max_pooling.(input_width) ≠ 0 →
  0 ≤ clamped_input_x max_pooling t ≤ max_pooling.(input_width) - 1.
Proof.
  intros Hrange Hne. unfold clamped_input_x.
  assert (Hlast : max_pooling.(input_width) -% 1
                  = max_pooling.(input_width) - 1).
  { unfold size_sub. apply to_size_t_small. unfold is_size_t in *. lia. }
  rewrite Hlast, size_min_spec, doz_spec. unfold is_size_t in Hrange. lia.
Qed.

(** They are the clamped row and column of the specification as long as
    the unclamped coordinate does not wrap around. *)
Lemma clamped_input_y_spec (max_pooling : qnnp_operator) (t : iteration) :
  is_size_t max_pooling.(input_height) → max_pooling.(input_height) ≠ 0 →
  is_size_t (t.(output_y) * max_pooling.(stride_height)
             + t.(pooling_y) * max_pooling.(dilation_height)) →
  clamped_input_y max_pooling t = clamped_row_spec max_pooling t.
Proof.
  intros Hrange Hne Hfit. unfold clamped_input_y, clamped_row_spec.
  assert (Hlast : max_pooling.(input_height) -% 1
                  = max_pooling.(input_height) - 1).
  { unfold size_sub. apply to_size_t_small. unfold is_size_t in *. lia. }
  assert (Hsum : t.(output_y) *% max_pooling.(stride_height)
                 +% t.(pooling_y) *% max_pooling.(dilation_height)
                 = t.(output_y) * max_pooling.(stride_height)
                   + t.(pooling_y) * max_pooling.(dilation_height)).
  { wrap_exact_tac. exact Hfit. }
  rewrite Hlast, Hsum, size_min_spec, doz_spec. reflexivity.
Qed.

Lemma clamped_input_x_spec (max_pooling : qnnp_operator) (t : iteration) :
  is_size_t max_pooling.(input_width) → max_pooling.(input_width) ≠ 0 →
  is_size_t (t.(output_x) * max_pooling.(stride_width)
             + t.(pooling_x) * max_pooling.(dilation_width)) →
  clamped_input_x max_pooling t = clamped_column_spec max_pooling t.
Proof.
  intros Hrange Hne Hfit. unfold clamped_input_x, clamped_column_spec.
  assert (Hlast : max_pooling.(input_width) -% 1
                  = max_pooling.(input_width) - 1).
  { unfold size_sub. apply to_size_t_small. unfold is_size_t in *. lia. }
  assert (Hsum : t.(output_x) *% max_pooling.(stride_width)
                 +% t.(pooling_x) *% max_pooling.(dilation_width)
                 = t.(output_x) * max_pooling.(stride_width)
                   + t.(pooling_x) * max_pooling.(dilation_width)).
  { wrap_exact_tac. exact Hfit. }
  rewrite Hlast, Hsum, size_min_spec, doz_spec. reflexivity.
Qed.

(** After a rebuild the block holds, at every index some iteration stores
    to, the value one of these iterations stored. *)
Lemma rebuilt_block_lookup (mr address : Z) (geometry : qnnp_operator)
    (t : iteration) :
  t ∈ population_iterations geometry →
  ∃ t', t' ∈ population_iterations geometry
        ∧ entry_index geometry t' = entry_index geometry t
        ∧ block_entries
            (rebuilt_block mr address geometry geometry.(batch_size))
          !! entry_index geometry t
          = Some (entry_value geometry t').
Proof.
  intros Ht. rewrite rebuilt_block_entries.
  apply stores_lookup_written. apply list_elem_of_fmap_2. exact Ht.
Qed.

(** C2 (amended: the closed form of the clamped row and column holds where
    the unclamped coordinate does not wrap around).  After a setup call
    that succeeds having rebuilt the buffer, every iteration of the
    population loop stores the address [inputBase + ((image * inputHeight +
    clampedRow) * inputWidth + clampedColumn) * inputPixelStride], computed
    modulo [2^64], whose row and column lie within [0, inputHeight - 1] and
    [0, inputWidth - 1]; the row is [min(max(0, outputRow * strideHeight +
    poolingRow * dilationHeight - topPadding), inputHeight - 1)] whenever
    [outputRow * strideHeight + poolingRow * dilationHeight] fits in
    size_t, and likewise for the column; and each index an iteration stores
    to ends up holding the address one such iteration stored. *)
Theorem setup_entries_clamped :
  ∀ (qnnp_params : qnnp_parameters) (realloc_reply : option Z)
    (max_pooling : qnnp_operator)
    (batch input_h input_w input_address pixel_stride output_address
     output_stride size : Z),
  let r :=
    qnnp_setup_max_pooling2d_nhwc_u8 qnnp_params realloc_reply max_pooling
      batch input_h input_w input_address pixel_stride output_address
      output_stride in
  let after := setup_operator r in
  is_size_t input_h → is_size_t input_w →
  setup_status r = qnnp_status_success →
  setup_realloc r = Some size →
  ∃ block,
    after.(indirection_buffer) = Some block
    ∧ ∀ t, t ∈ population_iterations after →
        let row := clamped_input_y after t in
        let column := clamped_input_x after t in
        entry_value after t
        = entry_address input_address input_h input_w pixel_stride
            t.(image) row column
        ∧ 0 ≤ row ≤ input_h - 1
        ∧ 0 ≤ column ≤ input_w - 1
        ∧ (is_size_t (t.(output_y) * after.(stride_height)
                      + t.(pooling_y) * after.(dilation_height)) →
           row = Z.min
                   (Z.max 0
                      (t.(output_y) * after.(stride_height)
                       + t.(pooling_y) * after.(dilation_height)
                       - after.(input_padding_top)))
                   (input_h - 1))
        ∧ (is_size_t (t.(output_x) * after.(stride_width)
                      + t.(pooling_x) * after.(dilation_width)) →
           column = Z.min
                      (Z.max 0
                         (t.(output_x) * after.(stride_width)
                          + t.(pooling_x) * after.(dilation_width)
                          - after.(input_padding_left)))
                      (input_w - 1))
        ∧ ∃ t', t' ∈ population_iterations after
                ∧ entry_index after t' = entry_index after t
                ∧ block.(block_entries) !! entry_index after t
                  = Some (entry_value after t').
Proof.
  intros until after. intros Hih Hiw Hstatus Hrealloc.
  destruct (setup_realloc_inv _ _ _ _ _ _ _ _ _ _ _ Hrealloc)
    as (Hinit & Hb & Hw & Hh & Hmiss & Hsize & Hlayout & Hbatch).
  destruct (setup_rebuilt_inv _ _ _ _ _ _ _ _ _ _ _ Hstatus Hrealloc)
    as (address & Hreply & Hafter).
  fold r in Hlayout, Hbatch, Hafter. fold after in Hlayout, Hbatch, Hafter.
  set (geometry := store_geometry max_pooling batch input_h input_w
                     input_address pixel_stride output_address
                     output_stride) in *.
  assert (Hits : population_iterations after
                 = population_iterations geometry)
    by (apply population_iterations_layout; [exact Hlayout | exact Hbatch]).
  assert (Hheight : after.(input_height) = input_h)
    by (rewrite (layout_input_height _ _ Hlayout); reflexivity).
  assert (Hwidth : after.(input_width) = input_w)
    by (rewrite (layout_input_width _ _ Hlayout); reflexivity).
  assert (Hinput : after.(input) = input_address)
    by (rewrite (layout_input _ _ Hlayout); reflexivity).
  assert (Hstride : after.(input_pixel_stride) = pixel_stride)
    by (rewrite (layout_input_pixel_stride _ _ Hlayout); reflexivity).
  exists (rebuilt_block qnnp_params.(u8maxpool_mr) address geometry batch).
  split; [rewrite Hafter; reflexivity|].
  intros t Ht row column.
  assert (Hrow : 0 ≤ row ≤ input_h - 1).
  { subst row. rewrite <- Hheight.
    apply clamped_input_y_range; rewrite Hheight; assumption. }
  assert (Hcolumn : 0 ≤ column ≤ input_w - 1).
  { subst column. rewrite <- Hwidth.
    apply clamped_input_x_range; rewrite Hwidth; assumption. }
  split.
  { unfold entry_value, entry_address.
    rewrite Hheight, Hwidth, Hinput, Hstride. reflexivity. }
  split; [exact Hrow|]. split; [exact Hcolumn|].
  split.
  { intros Hfit. subst row. rewrite clamped_input_y_spec;
      [unfold clamped_row_spec; rewrite Hheight; reflexivity
      | rewrite Hheight; assumption | rewrite Hheight; assumption
      | exact Hfit]. }
  split.
  { intros Hfit. subst column. rewrite clamped_input_x_spec;
      [unfold clamped_column_spec; rewrite Hwidth; reflexivity
      | rewrite Hwidth; assumption | rewrite Hwidth; assumption
      | exact Hfit]. }
  rewrite Hits in Ht |- *.
  destruct (rebuilt_block_lookup qnnp_params.(u8maxpool_mr) address geometry
              t Ht) as (t' & Ht' & Hindex & Hlookup).
  exists t'. split; [exact Ht'|].
  rewrite !(entry_index_layout _ _ _ Hlayout),
    (entry_value_layout _ _ _ Hlayout).
  split; [exact Hindex | exact Hlookup].
Qed.

(** [closed_bounds] settles a conjunction of comparisons between closed
    integer terms by evaluation. *)
Ltac closed_bounds :=
  vm_compute; repeat apply conj; first [reflexivity | discriminate].

Lemma setup_entries_clamped_witness :
  let after :=
    setup_operator (sample_setup (created_operator 2 2 2 2) 1 1000 3) in
  let t := {| image := 0; output_y := 1; pooling_y := 1;
              output_x := 1; pooling_x := 1 |} in
  entry_value after t
  = entry_address 1000 4 4 3 0 (clamped_input_y after t)
      (clamped_input_x after t)
  ∧ clamped_input_y after t = Z.min (Z.max 0 (1 * 2 + 1 * 1 - 0)) (4 - 1)
  ∧ 0 ≤ clamped_input_x after t ≤ 4 - 1.
Proof.
  intros after t.
  destruct (setup_entries_clamped sample_params (Some 4096)
              (created_operator 2 2 2 2) 1 4 4 1000 3 2000 3 224)
    as (block & _ & Hentries);
    [closed_bounds | closed_bounds | reflexivity | reflexivity |].
  destruct (Hentries t) as (Hvalue & _ & Hcolumn & Hrow & _).
  - apply elem_of_population_iterations. closed_bounds.
  - split; [exact Hvalue|]. split; [|exact Hcolumn].
    apply Hrow. closed_bounds.
Defined.

(** C2 as stated fails where the unclamped row wraps around: a 3x1 window
    with stride height [2^32 - 1] on a 2x1 input exceeds the input, the
    output height is [2^32 + 2], and at output row [2^32 + 1], pooling row
    1, the sum [outputRow * strideHeight + poolingRow * dilationHeight] is
    [2^64], which wraps to row 0: the loop stores address 1000, where the
    stated formula gives row 1 and address 1001.  The requested size is
    the exact one, without wrap-around. *)
Lemma setup_entry_row_wraps :
  let r :=
    qnnp_setup_max_pooling2d_nhwc_u8 sample_params (Some 4096)
      (created_operator 3 1 4294967295 1) 1 2 1 1000 1 2000 1 in
  let after := setup_operator r in
  let t := {| image := 0; output_y := 4294967297; pooling_y := 1;
              output_x := 0; pooling_x := 0 |} in
  let claimed_row :=
    Z.min
      (Z.max 0
         (t.(output_y) * after.(stride_height)
          + t.(pooling_y) * after.(dilation_height)
          - after.(input_padding_top)))
      (2 - 1) in
  let claimed_column :=
    Z.min
      (Z.max 0
         (t.(output_x) * after.(stride_width)
          + t.(pooling_x) * after.(dilation_width)
          - after.(input_padding_left)))
      (1 - 1) in
  setup_status r = qnnp_status_success
  ∧ setup_realloc r
    = Some (sizeof_pointer * required_entry_count 9 after 1)
  ∧ t ∈ population_iterations after
  ∧ entry_value after t = 1000
  ∧ claimed_row = 1 ∧ claimed_column = 0
  ∧ entry_address 1000 2 1 1 t.(image) claimed_row claimed_column = 1001
  ∧ entry_value after t
    ≠ entry_address 1000 2 1 1 t.(image) claimed_row claimed_column.
Proof.
  intros r after t claimed_row claimed_column.
  assert (Hr : r = _)
    by (apply (setup_rebuild sample_params (Some 4096)
                 (created_operator 3 1 4294967295 1) 1 2 1 1000 1 2000 1
                 4096);
        try reflexivity; try discriminate;
        intros (Haddress & _); discriminate Haddress).
  assert (Hrealloc : setup_realloc r = Some 103079215216)
    by (rewrite Hr; cbn [setup_realloc]; vm_compute; reflexivity).
  destruct (setup_realloc_inv sample_params (Some 4096)
              (created_operator 3 1 4294967295 1) 1 2 1 1000 1 2000 1 _
              Hrealloc)
    as (_ & _ & _ & _ & _ & _ & Hlayout & Hbatch).
  fold r in Hlayout, Hbatch. fold after in Hlayout, Hbatch.
  assert (Hvalue : entry_value after t = 1000)
    by (rewrite (entry_value_layout _ _ _ Hlayout); reflexivity).
  assert (Hclaimed_row : claimed_row = 1).
  { subst claimed_row.
    rewrite (layout_stride_height _ _ Hlayout),
      (layout_dilation_height _ _ Hlayout),
      (layout_padding_top _ _ Hlayout).
    reflexivity. }
  assert (Hclaimed_column : claimed_column = 0).
  { subst claimed_column.
    rewrite (layout_stride_width _ _ Hlayout),
      (layout_dilation_width _ _ Hlayout),
      (layout_padding_left _ _ Hlayout).
    reflexivity. }
  split; [rewrite Hr; reflexivity|].
  split.
  { rewrite Hrealloc. unfold required_entry_count.
    rewrite (logical_entry_count_layout _ _ _ Hlayout). reflexivity. }
  split.
  { rewrite (population_iterations_layout _ _ Hlayout Hbatch).
    apply elem_of_population_iterations. closed_bounds. }
  split; [exact Hvalue|].
  split; [exact Hclaimed_row|]. split; [exact Hclaimed_column|].
  rewrite Hvalue, Hclaimed_row, Hclaimed_column.
  split; [reflexivity | discriminate].
Qed.

(** ** Growing the batch *)

Lemma store_geometry_layout a b batch batch' input_h input_w input_address
    pixel_stride output_address output_address' output_stride
    output_stride' :
  same_layout a b →
  same_layout
    (store_geometry a batch input_h input_w input_address pixel_stride
       output_address output_stride)
    (store_geometry b batch' input_h input_w input_address pixel_stride
       output_address' output_stride').
Proof.
  intros H. destruct H. constructor; cbn; congruence.
Qed.

Lemma width_step_positive (max_pooling : qnnp_operator) :
  1 ≤ max_pooling.(kernel_width) → 1 ≤ max_pooling.(stride_width) →
  1 ≤ width_step max_pooling.
Proof.
  intros Hkw Hsw. unfold width_step. rewrite size_min_spec.
  destruct (dilation_width max_pooling >? 1); lia.
Qed.

(** Without wrap-around the flat index is the one over the integers, and
    it lies in the slots of its (image, output row) pair. *)
Lemma entry_index_bounds (max_pooling : qnnp_operator) (t : iteration) :
  1 ≤ max_pooling.(kernel_height) → 1 ≤ max_pooling.(kernel_width) →
  1 ≤ max_pooling.(stride_width) →
  t ∈ population_iterations max_pooling →
  is_size_t (logical_entry_count max_pooling max_pooling.(batch_size)) →
  let pair := t.(image) * max_pooling.(output_height) + t.(output_y) in
  entry_index max_pooling t = entry_index_exact max_pooling t
  ∧ pair * row_slots_exact max_pooling ≤ entry_index_exact max_pooling t
  ∧ entry_index_exact max_pooling t
    < (pair + 1) * row_slots_exact max_pooling
  ∧ 0 ≤ pair
  ∧ pair + 1 ≤ max_pooling.(batch_size) * max_pooling.(output_height)
  ∧ 1 ≤ row_slots_exact max_pooling.
Proof.
  intros Hkh Hkw Hsw Ht Hfit pair.
  apply elem_of_population_iterations in Ht
    as (Hi & Hoy & Hpy & Hox & Hpx).
  pose proof (width_step_positive max_pooling Hkw Hsw) as Hws.
  unfold logical_entry_count in Hfit.
  fold (row_slots_exact max_pooling) in Hfit.
  subst pair.
  destruct t as [i oy py ox px]. cbn [image output_y pooling_y output_x
    pooling_x] in *.
  unfold entry_index_exact. cbn [image output_y pooling_y output_x
    pooling_x].
  set (b := max_pooling.(batch_size)) in *.
  set (oh := max_pooling.(output_height)) in *.
  set (ow := max_pooling.(output_width)) in *.
  set (kh := max_pooling.(kernel_height)) in *.
  set (kw := max_pooling.(kernel_width)) in *.
  set (ws := width_step max_pooling) in *.
  assert (Hslots : row_slots_exact max_pooling = kh * (kw + ow * ws - 1))
    by (unfold row_slots_exact; fold kh kw ow ws; ring).
  rewrite Hslots in *.
  set (columns := kw + ow * ws - 1) in *.
  assert (Hcolumn : 0 ≤ ox * ws + px ∧ ox * ws + px + 1 ≤ columns)
    by (subst columns; nia).
  assert (Hcolumns : 1 ≤ columns) by lia.
  assert (Hinner : 0 ≤ ox * ws * kh + px * kh + py
                   ∧ ox * ws * kh + px * kh + py < kh * columns)
    by nia.
  assert (Hpair : 0 ≤ i * oh + oy ∧ i * oh + oy + 1 ≤ b * oh) by nia.
  assert (Hslots1 : 1 ≤ kh * columns) by nia.
  assert (Hupper : (i * oh + oy + 1) * (kh * columns)
                   ≤ b * oh * (kh * columns)) by nia.
  assert (Hindex :
    (i * oh + oy) * (kh * columns) ≤
      (i * oh + oy) * (kh * columns) + ox * ws * kh + px * kh + py
    ∧ (i * oh + oy) * (kh * columns) + ox * ws * kh + px * kh + py
      < (i * oh + oy + 1) * (kh * columns)) by nia.
  assert (Hlower : 0 ≤ (i * oh + oy) * (kh * columns)) by nia.
  split; [|repeat apply conj; lia].
  unfold entry_index, row_slots.
  cbn [image output_y pooling_y output_x pooling_x].
  fold b oh ow kh kw ws.
  assert (Hrange :
    is_size_t ((i * oh + oy) * (kh * columns)
               + ox * ws * kh + px * kh + py))
    by (unfold is_size_t in *; lia).
  subst columns.
  wrap_exact_tac. exact Hrange.
Qed.

(** A larger batch runs the same iterations first and then those of the
    new images. *)
Lemma population_iterations_grow a b :
  same_layout a b → 0 ≤ a.(batch_size) ≤ b.(batch_size) →
  ∃ extra,
    population_iterations b = population_iterations a ++ extra
    ∧ ∀ t, t ∈ extra →
        a.(batch_size) ≤ t.(image) ∧ t ∈ population_iterations b.
Proof.
  intros H Hbatch.
  assert (Hsplit : seqZ 0 b.(batch_size)
                   = seqZ 0 a.(batch_size)
                     ++ seqZ (0 + a.(batch_size))
                          (b.(batch_size) - a.(batch_size))).
  { rewrite <- seqZ_app by lia. f_equal. lia. }
  unfold population_iterations at 1 2. rewrite Hsplit, bind_app.
  eexists. split.
  - f_equal. use_layout H.
  - intros t Ht. split.
    + apply list_elem_of_bind in Ht as (i & Ht & Hi).
      apply list_elem_of_bind in Ht as (oy & Ht & _).
      apply list_elem_of_bind in Ht as (py & Ht & _).
      apply list_elem_of_bind in Ht as (ox & Ht & _).
      apply list_elem_of_bind in Ht as (px & Ht & _).
      apply list_elem_of_singleton in Ht. subst t. cbn.
      apply elem_of_seqZ in Hi. lia.
    + unfold population_iterations. rewrite Hsplit, bind_app.
      apply elem_of_app. right. exact Ht.
Qed.

Lemma row_slots_exact_layout a b :
  same_layout a b → row_slots_exact a = row_slots_exact b.
Proof.
  intros H. unfold row_slots_exact. rewrite (width_step_layout a b H).
  use_layout H.
Qed.

Lemma entry_index_exact_layout a b t :
  same_layout a b → entry_index_exact a t = entry_index_exact b t.
Proof.
  intros H. unfold entry_index_exact.
  rewrite (width_step_layout a b H), (row_slots_exact_layout a b H).
  use_layout H.
Qed.

Lemma store_entry_layout a b entries t :
  same_layout a b → store_entry a entries t = store_entry b entries t.
Proof.
  intros H. unfold store_entry.
  rewrite (entry_index_layout a b t H), (entry_value_layout a b t H).
  reflexivity.
Qed.

Lemma required_entry_count_layout mr a b batch :
  same_layout a b →
  required_entry_count mr a batch = required_entry_count mr b batch.
Proof.
  intros H. unfold required_entry_count.
  rewrite (logical_entry_count_layout a b batch H). reflexivity.
Qed.

(** The stores of a larger batch leave, at the indices of the smaller
    batch, what the stores of the smaller batch leave there. *)
Lemma stores_grow (a b : qnnp_operator) (entries_a entries_b : gmap Z Z)
    (t : iteration) :
  same_layout a b →
  1 ≤ a.(kernel_height) → 1 ≤ a.(kernel_width) → 1 ≤ a.(stride_width) →
  0 ≤ a.(batch_size) ≤ b.(batch_size) →
  is_size_t (logical_entry_count b b.(batch_size)) →
  t ∈ population_iterations a →
  foldl (store_entry b) entries_b (population_iterations b)
    !! entry_index a t
  = foldl (store_entry a) entries_a (population_iterations a)
      !! entry_index a t.
Proof.
  intros Hlayout Hkh Hkw Hsw Hbatch Hfit Ht.
  destruct (population_iterations_grow a b Hlayout Hbatch)
    as (extra & Hgrow & Hextra).
  pose proof (same_layout_sym _ _ Hlayout) as Hback.
  assert (Hkh' : 1 ≤ b.(kernel_height))
    by (rewrite <- (layout_kernel_height _ _ Hlayout); exact Hkh).
  assert (Hkw' : 1 ≤ b.(kernel_width))
    by (rewrite <- (layout_kernel_width _ _ Hlayout); exact Hkw).
  assert (Hsw' : 1 ≤ b.(stride_width))
    by (rewrite <- (layout_stride_width _ _ Hlayout); exact Hsw).
  assert (Ht' : t ∈ population_iterations b)
    by (rewrite Hgrow; apply elem_of_app; left; exact Ht).
  pose proof (entry_index_bounds b t Hkh' Hkw' Hsw' Ht' Hfit) as Hb.
  cbv zeta in Hb.
  destruct Hb as (Hexact & Hlow & Hhigh & Hpair0 & _ & Hslots).
  pose proof Ht as Hrange.
  apply elem_of_population_iterations in Hrange
    as (Hi & Hoy & _ & _ & _).
  rewrite <- (layout_output_height _ _ Hlayout) in *.
  set (oh := a.(output_height)) in *.
  set (slots := row_slots_exact b) in *.
  assert (Hpair : t.(image) * oh + t.(output_y) + 1 ≤ a.(batch_size) * oh)
    by nia.
  assert (Hbelow : entry_index_exact b t < a.(batch_size) * oh * slots)
    by nia.
  rewrite Hgrow, foldl_app.
  rewrite stores_lookup_other.
  - rewrite (foldl_ext_eq (store_entry b) (store_entry a))
      by (intros; apply store_entry_layout; exact Hback).
    apply stores_lookup_independent.
    apply list_elem_of_fmap_2. exact Ht.
  - intros Hin. apply list_elem_of_fmap in Hin as (t2 & Hindex & Ht2).
    destruct (Hextra t2 Ht2) as (Himage & Ht2b).
    pose proof (entry_index_bounds b t2 Hkh' Hkw' Hsw' Ht2b Hfit) as Hb2.
    cbv zeta in Hb2.
    destruct Hb2 as (Hexact2 & Hlow2 & _).
    apply elem_of_population_iterations in Ht2b
      as (_ & Hoy2 & _ & _ & _).
    rewrite <- (layout_output_height _ _ Hlayout) in *. fold oh in Hlow2.
    fold slots in Hlow2.
    rewrite (entry_index_layout _ _ _ Hlayout), Hexact, Hexact2 in Hindex.
    assert (Hpair2 : a.(batch_size) * oh ≤ t2.(image) * oh + t2.(output_y))
      by nia.
    assert (Habove : a.(batch_size) * oh * slots ≤ entry_index_exact b t2)
      by nia.
    lia.
Qed.

(** A rebuild leaves the new batch size as the cached bound. *)
Lemma rebuild_valid_batch_size (max_pooling : qnnp_operator)
    (batch input_h input_w input_address : Z) :
  0 ≤ batch → batch ≠ 0 →
  ¬ cache_valid max_pooling batch input_h input_w input_address →
  size_max (reusable_batch_size max_pooling input_h input_w input_address)
    batch = batch.
Proof.
  intros Hnonneg Hne Hmiss. rewrite size_max_spec.
  unfold reusable_batch_size, cache_valid in *.
  destruct (Z.eqb_spec input_address (last_input max_pooling));
    destruct (Z.eqb_spec input_h (last_input_height max_pooling));
    destruct (Z.eqb_spec input_w (last_input_width max_pooling));
    cbn; lia.
Qed.

Lemma row_slots_exact_positive (max_pooling : qnnp_operator) :
  1 ≤ max_pooling.(kernel_height) → 1 ≤ max_pooling.(kernel_width) →
  1 ≤ max_pooling.(stride_width) → 1 ≤ max_pooling.(output_width) →
  1 ≤ row_slots_exact max_pooling.
Proof.
  intros Hkh Hkw Hsw How.
  pose proof (width_step_positive max_pooling Hkw Hsw) as Hws.
  unfold row_slots_exact. nia.
Qed.

Lemma logical_entry_count_slots (max_pooling : qnnp_operator) (batch : Z) :
  logical_entry_count max_pooling batch
  = batch * max_pooling.(output_height) * row_slots_exact max_pooling.
Proof. reflexivity. Qed.

(** C8 (amended: the two calls also share the input pixel stride, the
    first call rebuilt the buffer, the output extents are nonzero and the
    buffer size of the second call does not wrap around).  For two
    consecutive successful setup calls on a descriptor with a valid
    configuration, with the same input address, height, width and pixel
    stride, the first of which rebuilt the buffer and the second of which
    has the larger batch size, the second call reallocates the buffer to a
    strictly larger size, and every flat index written for the batch range
    of the first call holds the same address after the second call as
    after the first. *)
Theorem setup_larger_batch_keeps_entries :
  ∀ (qnnp_params : qnnp_parameters) (reply1 reply2 : option Z)
    (max_pooling : qnnp_operator)
    (batch1 batch2 input_h input_w input_address pixel_stride
     output1 output_stride1 output2 output_stride2 size1 : Z),
  let first :=
    qnnp_setup_max_pooling2d_nhwc_u8 qnnp_params reply1 max_pooling
      batch1 input_h input_w input_address pixel_stride output1
      output_stride1 in
  let second :=
    qnnp_setup_max_pooling2d_nhwc_u8 qnnp_params reply2
      (setup_operator first)
      batch2 input_h input_w input_address pixel_stride output2
      output_stride2 in
  let mr := qnnp_params.(u8maxpool_mr) in
  valid_configuration max_pooling →
  is_uint32 mr → 1 ≤ mr →
  is_size_t batch1 → is_size_t batch2 → batch1 < batch2 →
  setup_status first = qnnp_status_success →
  setup_realloc first = Some size1 →
  setup_status second = qnnp_status_success →
  0 < (setup_operator first).(output_height) →
  0 < (setup_operator first).(output_width) →
  is_size_t
    (sizeof_pointer
     * required_entry_count mr (setup_operator first) batch2) →
  ∃ size2 block1 block2,
    setup_realloc second = Some size2
    ∧ size1 < size2
    ∧ (setup_operator first).(indirection_buffer) = Some block1
    ∧ block1.(block_bytes) = size1
    ∧ (setup_operator second).(indirection_buffer) = Some block2
    ∧ block2.(block_bytes) = size2
    ∧ ∀ t, t ∈ population_iterations (setup_operator first) →
        is_Some (block1.(block_entries)
                   !! entry_index (setup_operator first) t)
        ∧ block2.(block_entries) !! entry_index (setup_operator first) t
          = block1.(block_entries) !! entry_index (setup_operator first) t.
Proof.
  intros until mr.
  intros Hvalid Hmr32 Hmr Hb1 Hb2 Hlt Hstatus1 Hrealloc1 Hstatus2 Hoh How
    Hfit.
  destruct (setup_realloc_inv _ _ _ _ _ _ _ _ _ _ _ Hrealloc1)
    as (Hinit & Hb1ne & Hw & Hh & Hmiss1 & Hsize1 & Hlayout1 & Hbatch1).
  destruct (setup_rebuilt_inv _ _ _ _ _ _ _ _ _ _ _ Hstatus1 Hrealloc1)
    as (address1 & Hreply1 & Hafter1).
  fold first in Hlayout1, Hbatch1, Hafter1.
  set (after1 := setup_operator first) in *.
  set (geometry1 := store_geometry max_pooling batch1 input_h input_w
                      input_address pixel_stride output1 output_stride1)
    in *.
  unfold is_size_t in Hb1, Hb2.
  (* the cache after the first call *)
  assert (Hcache :
    after1.(last_input) = input_address
    ∧ after1.(last_input_height) = input_h
    ∧ after1.(last_input_width) = input_w
    ∧ after1.(valid_batch_size) = batch1).
  { rewrite Hafter1. cbn.
    rewrite rebuild_valid_batch_size by (assumption || lia).
    repeat apply conj; reflexivity. }
  destruct Hcache as (Hlast & Hlast_h & Hlast_w & Hvalid_batch).
  (* the second call misses the cache and rebuilds *)
  destruct (setup_cases qnnp_params reply2 after1 batch2 input_h input_w
              input_address pixel_stride output2 output_stride2)
    as [(_ & Hr)|[(_ & _ & Hr)|[(_ & _ & _ & Hr)
       |[(_ & _ & _ & _ & Hhit & _)
       |[(_ & _ & _ & _ & _ & _ & Hr)
       |(_ & _ & _ & _ & Hmiss2 & address2 & Hreply2 & Hr)]]]]];
    try (fold second in Hr; rewrite Hr in Hstatus2; discriminate Hstatus2).
  { exfalso. destruct Hhit as (_ & _ & _ & Hle). lia. }
  fold second in Hr.
  set (geometry2 := store_geometry after1 batch2 input_h input_w
                      input_address pixel_stride output2 output_stride2)
    in *.
  assert (Hlayout : same_layout geometry1 geometry2).
  { subst geometry1 geometry2. clear - Hlayout1.
    destruct Hlayout1. cbn in *.
    constructor; cbn; congruence. }
  (* the static configuration *)
  destruct Hvalid as [_ _ _ _ Hkh Hkw _ Hsw _ _].
  assert (Hkh1 : 1 ≤ geometry1.(kernel_height)) by (cbn; lia).
  assert (Hkw1 : 1 ≤ geometry1.(kernel_width)) by (cbn; lia).
  assert (Hsw1 : 1 ≤ geometry1.(stride_width)) by (cbn; lia).
  rewrite (layout_output_height _ _ Hlayout1) in Hoh.
  rewrite (layout_output_width _ _ Hlayout1) in How.
  rewrite (required_entry_count_layout _ _ _ _ Hlayout1) in Hfit.
  pose proof (row_slots_exact_positive geometry1 Hkh1 Hkw1 Hsw1
                ltac:(lia)) as Hslots.
  (* the two sizes *)
  unfold is_size_t in Hfit. unfold is_uint32 in Hmr32.
  assert (Hsizeof : sizeof_pointer = 8) by reflexivity.
  assert (Hcount1 :
    required_entry_count mr geometry1 batch1
    = (mr - 1)
      + batch1 * geometry1.(output_height) * row_slots_exact geometry1)
    by reflexivity.
  assert (Hcount2 :
    required_entry_count mr geometry1 batch2
    = (mr - 1)
      + batch2 * geometry1.(output_height) * row_slots_exact geometry1)
    by reflexivity.
  set (oh := geometry1.(output_height)) in *.
  set (slots := row_slots_exact geometry1) in *.
  assert (Hrow : 1 ≤ oh * slots) by nia.
  assert (Hgrow : batch1 * oh * slots + oh * slots ≤ batch2 * oh * slots)
    by nia.
  assert (Hnonneg : 0 ≤ batch1 * oh * slots) by nia.
  assert (Hexact1 :
    size1 = sizeof_pointer * required_entry_count mr geometry1 batch1).
  { rewrite Hsize1. apply indirection_buffer_size_exact; [fold mr; lia|].
    fold mr. unfold is_size_t. lia. }
  assert (Hexact2 :
    indirection_buffer_size mr geometry2 batch2
    = sizeof_pointer * required_entry_count mr geometry1 batch2).
  { rewrite <- (indirection_buffer_size_layout _ _ _ _ Hlayout).
    apply indirection_buffer_size_exact; [lia|]. unfold is_size_t. lia. }
  exists (indirection_buffer_size mr geometry2 batch2),
    (rebuilt_block mr address1 geometry1 batch1),
    (rebuilt_block mr address2 geometry2 batch2).
  split; [rewrite Hr; reflexivity|].
  split; [lia|].
  split; [rewrite Hafter1; reflexivity|].
  split; [symmetry; exact Hsize1|].
  split; [rewrite Hr; reflexivity|].
  split; [reflexivity|].
  intros t Ht.
  rewrite (population_iterations_layout _ _ Hlayout1 Hbatch1) in Ht.
  rewrite (entry_index_layout _ _ _ Hlayout1).
  pose proof (rebuilt_block_entries mr address1 geometry1) as Hentries1.
  pose proof (rebuilt_block_entries mr address2 geometry2) as Hentries2.
  change (batch_size geometry1) with batch1 in Hentries1.
  change (batch_size geometry2) with batch2 in Hentries2.
  rewrite Hentries1, Hentries2. split.
  - destruct (stores_lookup_written geometry1
                (population_iterations geometry1)
                (preserved_entries (indirection_buffer geometry1)
                   (indirection_buffer_size mr geometry1 batch1))
                (entry_index geometry1 t))
      as (t' & _ & _ & Hlookup);
      [apply list_elem_of_fmap_2; exact Ht|].
    rewrite Hlookup. eexists. reflexivity.
  - apply stores_grow; try assumption.
    + change (0 ≤ batch1 ≤ batch2). lia.
    + change (is_size_t (logical_entry_count geometry2 batch2)).
      rewrite <- (logical_entry_count_layout _ _ _ Hlayout).
      rewrite logical_entry_count_slots. fold oh slots.
      unfold is_size_t. nia.
Qed.

Lemma created_operator_valid : valid_configuration (created_operator 2 2 2 2).
Proof. constructor; closed_bounds. Qed.

Lemma setup_larger_batch_keeps_entries_witness :
  let first := sample_setup (created_operator 2 2 2 2) 1 1000 3 in
  let second := sample_setup (setup_operator first) 2 1000 3 in
  ∃ size2 block1 block2,
    setup_realloc second = Some size2
    ∧ 224 < size2
    ∧ (setup_operator first).(indirection_buffer) = Some block1
    ∧ (setup_operator second).(indirection_buffer) = Some block2
    ∧ block2.(block_entries) !! 2 = block1.(block_entries) !! 2.
Proof.
  intros first second.
  destruct (setup_larger_batch_keeps_entries sample_params (Some 4096)
              (Some 4096) (created_operator 2 2 2 2) 1 2 4 4 1000 3
              2000 3 2000 3 224)
    as (size2 & block1 & block2 & Hrealloc & Hlt & Hblock1 & _ & Hblock2 & _
        & Hentries);
    [ exact created_operator_valid
    | closed_bounds | closed_bounds | closed_bounds | closed_bounds
    | closed_bounds | reflexivity | reflexivity | reflexivity
    | closed_bounds | closed_bounds | closed_bounds | ].
  exists size2, block1, block2.
  split; [exact Hrealloc|]. split; [exact Hlt|].
  split; [exact Hblock1|]. split; [exact Hblock2|].
  destruct (Hentries {| image := 0; output_y := 0; pooling_y := 0;
                        output_x := 0; pooling_x := 1 |})
    as (_ & Hsame).
  - apply elem_of_population_iterations. closed_bounds.
  - exact Hsame.
Defined.

(** C8 as stated fails when the input pixel stride changes: after a setup
    with batch size 1 and pixel stride 3, a setup with the same input
    address, height and width, batch size 2 and pixel stride 5 rebuilds
    every entry; the entry at flat index 2, written for image 0 by both
    calls, holds address 1003 after the first call and 1005 after the
    second. *)
Lemma setup_larger_batch_other_stride :
  let first := sample_setup (created_operator 2 2 2 2) 1 1000 3 in
  let second := sample_setup (setup_operator first) 2 1000 5 in
  let t := {| image := 0; output_y := 0; pooling_y := 0;
              output_x := 0; pooling_x := 1 |} in
  setup_status first = qnnp_status_success
  ∧ setup_status second = qnnp_status_success
  ∧ t ∈ population_iterations (setup_operator first)
  ∧ entry_index (setup_operator first) t = 2
  ∧ ∃ block1 block2,
      (setup_operator first).(indirection_buffer) = Some block1
      ∧ (setup_operator second).(indirection_buffer) = Some block2
      ∧ block1.(block_entries) !! 2 = Some 1003
      ∧ block2.(block_entries) !! 2 = Some 1005
      ∧ block2.(block_entries) !! 2 ≠ block1.(block_entries) !! 2.
Proof.
  intros first second t.
  split; [reflexivity|]. split; [reflexivity|].
  split; [apply elem_of_population_iterations; closed_bounds|].
  split; [reflexivity|].
  eexists. eexists.
  split; [reflexivity|]. split; [reflexivity|].
  split; [vm_compute; reflexivity|].
  split; [vm_compute; reflexivity|].
  vm_compute. discriminate.
Qed.

(** The buffer does not grow when the output height is zero: a 3x3 window
    with stride 1 on a 2x2 input exceeds the input by one, the output
    extents wrap to zero, and setup succeeds with the same request of 64
    bytes for batch sizes 1 and 2. *)
Lemma setup_larger_batch_empty_output :
  let first :=
    qnnp_setup_max_pooling2d_nhwc_u8 sample_params (Some 4096)
      (created_operator 3 3 1 1) 1 2 2 1000 3 2000 3 in
  let second :=
    qnnp_setup_max_pooling2d_nhwc_u8 sample_params (Some 4096)
      (setup_operator first) 2 2 2 1000 3 2000 3 in
  setup_status first = qnnp_status_success
  ∧ (setup_operator first).(output_height) = 0
  ∧ setup_realloc first = Some 64
  ∧ setup_status second = qnnp_status_success
  ∧ setup_realloc second = Some 64.
Proof.
  cbv zeta. repeat apply conj; reflexivity.
Qed.

(** The condition on the input pixel stride alone is not enough: when the
    first of the two calls is itself served from the cache, the buffer may
    still hold the entries of an earlier call with another pixel stride.
    After a rebuild for batch size 2 with pixel stride 3, a call with batch
    size 1 and pixel stride 5 hits the cache, and a call with batch size 3
    and pixel stride 5 changes the entry at flat index 2 from 1003 to
    1005. *)
Lemma setup_larger_batch_after_cache_hit :
  let earlier := sample_setup (created_operator 2 2 2 2) 2 1000 3 in
  let first := sample_setup (setup_operator earlier) 1 1000 5 in
  let second := sample_setup (setup_operator first) 3 1000 5 in
  setup_status first = qnnp_status_success
  ∧ setup_realloc first = None
  ∧ setup_status second = qnnp_status_success
  ∧ (block ← (setup_operator first).(indirection_buffer);
     block.(block_entries) !! 2) = Some 1003
  ∧ (block ← (setup_operator second).(indirection_buffer);
     block.(block_entries) !! 2) = Some 1005.
Proof.
  cbv zeta. repeat apply conj; vm_compute; reflexivity.
Qed.

(** ** Stores stay within the block *)

(** Without wrap-around in the size, every store of the population loop
    falls within the bytes requested from the allocator, below the
    [mr - 1] trailing entries. *)
Lemma entry_index_within_request (mr : Z) (max_pooling : qnnp_operator)
    (t : iteration) :
  1 ≤ max_pooling.(kernel_height) → 1 ≤ max_pooling.(kernel_width) →
  1 ≤ max_pooling.(stride_width) → 1 ≤ mr →
  t ∈ population_iterations max_pooling →
  is_size_t
    (sizeof_pointer
     * required_entry_count mr max_pooling max_pooling.(batch_size)) →
  0 ≤ entry_index max_pooling t
  ∧ sizeof_pointer * (entry_index max_pooling t + 1 + (mr - 1))
    ≤ sizeof_pointer
      * required_entry_count mr max_pooling max_pooling.(batch_size).
Proof.
  intros Hkh Hkw Hsw Hmr Ht Hfit.
  pose proof Ht as Hrange.
  apply elem_of_population_iterations in Hrange
    as (Hi & Hoy & _ & Hox & _).
  pose proof (row_slots_exact_positive max_pooling Hkh Hkw Hsw ltac:(lia))
    as Hslots.
  unfold required_entry_count in *.
  rewrite logical_entry_count_slots in *.
  assert (Hsizeof : sizeof_pointer = 8) by reflexivity.
  unfold is_size_t in Hfit.
  set (b := max_pooling.(batch_size)) in *.
  set (oh := max_pooling.(output_height)) in *.
  set (slots := row_slots_exact max_pooling) in *.
  assert (Hpairs : 0 ≤ b * oh) by nia.
  assert (Hlogical : 0 ≤ b * oh * slots) by nia.
  assert (Hfit' : is_size_t (logical_entry_count max_pooling b)).
  { rewrite logical_entry_count_slots. fold oh slots.
    unfold is_size_t. lia. }
  pose proof (entry_index_bounds max_pooling t Hkh Hkw Hsw Ht Hfit') as Hb.
  cbv zeta in Hb. fold oh slots b in Hb.
  destruct Hb as (Hexact & Hlow & Hhigh & Hpair0 & Hpair & _).
  rewrite Hexact.
  set (pair := t.(image) * oh + t.(output_y)) in *.
  assert (Hupper : (pair + 1) * slots ≤ b * oh * slots) by nia.
  assert (Hlower : 0 ≤ pair * slots) by nia.
  lia.
Qed.

(** A call on a valid configuration whose requested size does not wrap
    around has defined behaviour, the micro-kernel having at least two
    rows. *)
Lemma fitting_setup_defined
    qnnp_params realloc_reply max_pooling batch input_h input_w
    input_address pixel_stride output_address output_stride :
  let geometry :=
    store_geometry max_pooling batch input_h input_w input_address
      pixel_stride output_address output_stride in
  let mr := qnnp_params.(u8maxpool_mr) in
  valid_configuration max_pooling → is_size_t batch →
  is_uint32 mr → 2 ≤ mr →
  is_size_t (sizeof_pointer * required_entry_count mr geometry batch) →
  setup_defined qnnp_params realloc_reply max_pooling batch input_h
    input_w input_address pixel_stride output_address output_stride.
Proof.
  intros geometry mr Hvalid Hbatch Hmr32 Hmr Hfit.
  unfold setup_defined. cbv zeta. fold geometry. fold mr. intros _.
  destruct Hvalid as [_ _ _ _ Hkh Hkw Hsh Hsw _ _].
  split; [lia|]. split; [lia|]. intros _.
  assert (Hkh1 : 1 ≤ geometry.(kernel_height)) by (cbn; lia).
  assert (Hkw1 : 1 ≤ geometry.(kernel_width)) by (cbn; lia).
  assert (Hsw1 : 1 ≤ geometry.(stride_width)) by (cbn; lia).
  assert (Hexact :
    indirection_buffer_size mr geometry batch
    = sizeof_pointer * required_entry_count mr geometry batch).
  { apply indirection_buffer_size_exact; [|exact Hfit].
    unfold is_uint32 in Hmr32. lia. }
  rewrite Hexact. split.
  - left.
    assert (Hheight : is_size_t geometry.(output_height))
      by apply size_add_range.
    assert (Hwidth : is_size_t geometry.(output_width))
      by apply size_add_range.
    pose proof (width_step_positive geometry Hkw1 Hsw1) as Hstep.
    unfold required_entry_count, logical_entry_count.
    unfold is_size_t in Hbatch, Hheight, Hwidth.
    assert (Hsizeof : sizeof_pointer = 8) by reflexivity.
    set (oh := geometry.(output_height)) in *.
    set (ow := geometry.(output_width)) in *.
    set (ws := width_step geometry) in *.
    set (kh := geometry.(kernel_height)) in *.
    set (kw := geometry.(kernel_width)) in *.
    assert (Hpairs : 0 ≤ batch * oh) by nia.
    assert (Hcolumns : 0 ≤ ow * ws) by nia.
    assert (Hslots : 0 ≤ kh * kw + (ow * ws - 1) * kh) by nia.
    assert (Hlogical : 0 ≤ batch * oh * (kh * kw + (ow * ws - 1) * kh))
      by nia.
    lia.
  - intros _ t Ht.
    destruct (entry_index_within_request mr geometry t Hkh1 Hkw1 Hsw1
                ltac:(lia) Ht Hfit) as (Hlow & Hhigh).
    change (batch_size geometry) with batch in Hhigh.
    assert (Hsizeof : sizeof_pointer = 8) by reflexivity.
    rewrite Hsizeof in *. lia.
Qed.

(** ** Inputs that cover the kernel *)

(** When the padded input height is at least the effective kernel height,
    the unclamped row of every iteration fits in size_t, so the clamped row
    is the one of the specification. *)
Lemma covered_rows_fit (max_pooling : qnnp_operator)
    (batch input_h input_w input_address pixel_stride output_address
     output_stride : Z) (t : iteration) :
  let geometry :=
    store_geometry max_pooling batch input_h input_w input_address
      pixel_stride output_address output_stride in
  valid_configuration max_pooling →
  (max_pooling.(kernel_height) - 1) * max_pooling.(dilation_height) + 1
  ≤ max_pooling.(input_padding_top) +% input_h
    +% max_pooling.(input_padding_bottom) →
  t ∈ population_iterations geometry →
  is_size_t (t.(output_y) * geometry.(stride_height)
             + t.(pooling_y) * geometry.(dilation_height)).
Proof.
  intros geometry Hvalid Hcover Ht.
  destruct Hvalid as [_ _ _ _ Hkh _ Hsh _ Hdh _].
  apply elem_of_population_iterations in Ht as (_ & Hoy & Hpy & _ & _).
  subst geometry. cbn in *.
  set (padded := max_pooling.(input_padding_top) +% input_h
                 +% max_pooling.(input_padding_bottom)) in *.
  assert (Hpadded : is_size_t padded) by apply size_add_range.
  rewrite uint32_modulus_eq in *.
  rewrite compute_output_dimension_exact in Hoy;
    [| exact Hpadded | unfold is_size_t; rewrite size_modulus_eq; lia
     | lia | lia | exact Hcover].
  set (kh := max_pooling.(kernel_height)) in *.
  set (dh := max_pooling.(dilation_height)) in *.
  set (sh := max_pooling.(stride_height)) in *.
  set (room := padded - ((kh - 1) * dh + 1)) in *.
  assert (Hquot : room / sh * sh ≤ room).
  { rewrite Z.mul_comm. apply Z.mul_div_le. lia. }
  assert (Hrows : t.(output_y) * sh ≤ room) by nia.
  assert (Hpool : t.(pooling_y) * dh ≤ (kh - 1) * dh) by nia.
  assert (Hnonneg : 0 ≤ t.(output_y) * sh ∧ 0 ≤ t.(pooling_y) * dh) by nia.
  unfold is_size_t in *. subst room. lia.
Qed.

Lemma covered_columns_fit (max_pooling : qnnp_operator)
    (batch input_h input_w input_address pixel_stride output_address
     output_stride : Z) (t : iteration) :
  let geometry :=
    store_geometry max_pooling batch input_h input_w input_address
      pixel_stride output_address output_stride in
  valid_configuration max_pooling →
  (max_pooling.(kernel_width) - 1) * max_pooling.(dilation_width) + 1
  ≤ max_pooling.(input_padding_left) +% input_w
    +% max_pooling.(input_padding_right) →
  t ∈ population_iterations geometry →
  is_size_t (t.(output_x) * geometry.(stride_width)
             + t.(pooling_x) * geometry.(dilation_width)).
Proof.
  intros geometry Hvalid Hcover Ht.
  destruct Hvalid as [_ _ _ _ _ Hkw _ Hsw _ Hdw].
  apply elem_of_population_iterations in Ht as (_ & _ & _ & Hox & Hpx).
  subst geometry. cbn in *.
  set (padded := max_pooling.(input_padding_left) +% input_w
                 +% max_pooling.(input_padding_right)) in *.
  assert (Hpadded : is_size_t padded) by apply size_add_range.
  rewrite uint32_modulus_eq in *.
  rewrite compute_output_dimension_exact in Hox;
    [| exact Hpadded | unfold is_size_t; rewrite size_modulus_eq; lia
     | lia | lia | exact Hcover].
  set (kw := max_pooling.(kernel_width)) in *.
  set (dw := max_pooling.(dilation_width)) in *.
  set (sw := max_pooling.(stride_width)) in *.
  set (room := padded - ((kw - 1) * dw + 1)) in *.
  assert (Hquot : room / sw * sw ≤ room).
  { rewrite Z.mul_comm. apply Z.mul_div_le. lia. }
  assert (Hcolumns : t.(output_x) * sw ≤ room) by nia.
  assert (Hpool : t.(pooling_x) * dw ≤ (kw - 1) * dw) by nia.
  assert (Hnonneg : 0 ≤ t.(output_x) * sw ∧ 0 ≤ t.(pooling_x) * dw) by nia.
  unfold is_size_t in *. subst room. lia.
Qed.

(** * Further properties of creation, geometry and setup *)

(** [settle_cases] closes a conjunction of equivalences between closed
    facts after a case analysis. *)
Ltac settle_cases :=
  repeat apply conj; intros;
  repeat match goal with
         | H : _ ∧ _ |- _ => destruct H
         | H : ∃ _, _ |- _ => destruct H
         end;
  try congruence; try (repeat apply conj; congruence); eauto.

(** ** Creation *)

(** X1.  Creation returns success exactly when the library is initialized,
    the configuration passes the five checks and the allocation succeeds;
    the handle is written exactly on success, and the allocator is called
    exactly when the library is initialized and the checks pass. *)
Theorem create_success_iff :
  ∀ (qnnp_params : qnnp_parameters) (calloc_succeeds : bool)
    (padding_top padding_right padding_bottom padding_left
     pooling_height pooling_width stride_h stride_w dilation_h dilation_w
     channel_count output_min output_max : Z),
  let r :=
    qnnp_create_max_pooling2d_nhwc_u8 qnnp_params calloc_succeeds
      padding_top padding_right padding_bottom padding_left
      pooling_height pooling_width stride_h stride_w dilation_h dilation_w
      channel_count output_min output_max in
  let passes :=
    create_checks_pass pooling_height pooling_width stride_h stride_w
      dilation_h dilation_w channel_count in
  (create_status r = qnnp_status_success
   ↔ initialized qnnp_params = true ∧ passes ∧ calloc_succeeds = true)
  ∧ (is_Some (create_operator r) ↔ create_status r = qnnp_status_success)
  ∧ (create_allocated r = true
     ↔ initialized qnnp_params = true ∧ passes).
Proof.
  intros. subst r passes.
  unfold create_checks_pass, qnnp_create_max_pooling2d_nhwc_u8, is_Some.
  destruct (initialized qnnp_params); cbn; [|settle_cases].
  destruct (Z.eqb_spec (uint32_mul pooling_height pooling_width) 0);
    [cbn; settle_cases|].
  destruct (Z.eqb_spec (uint32_mul pooling_height pooling_width) 1);
    [cbn; settle_cases|].
  destruct (Z.eqb_spec stride_h 0); [cbn; settle_cases|].
  destruct (Z.eqb_spec stride_w 0); [cbn; settle_cases|].
  destruct (Z.eqb_spec dilation_h 0); [cbn; settle_cases|].
  destruct (Z.eqb_spec dilation_w 0); [cbn; settle_cases|].
  destruct (Z.eqb_spec channel_count 0); [cbn; settle_cases|].
  destruct calloc_succeeds; cbn; settle_cases.
Qed.

Lemma create_success_iff_witness :
  create_status
    (qnnp_create_max_pooling2d_nhwc_u8 sample_params true 1 1 1 1
       3 3 2 2 1 1 16 0 255) = qnnp_status_success.
Proof.
  destruct (create_success_iff sample_params true 1 1 1 1 3 3 2 2 1 1 16
              0 255) as ((_ & Hsuccess) & _).
  apply Hsuccess. split; [reflexivity|]. split; [|reflexivity].
  unfold create_checks_pass. repeat apply conj; discriminate.
Defined.

(** X2.  A handle returned by creation from arguments within the range of
    [uint32_t] has a valid configuration - both kernel extents, both
    strides and both dilations are at least 1 - and starts with an empty
    cache and no indirection buffer. *)
Theorem create_fresh_descriptor :
  ∀ (qnnp_params : qnnp_parameters) (calloc_succeeds : bool)
    (padding_top padding_right padding_bottom padding_left
     pooling_height pooling_width stride_h stride_w dilation_h dilation_w
     channel_count output_min output_max : Z)
    (max_pooling : qnnp_operator),
  is_uint32 padding_top → is_uint32 padding_right →
  is_uint32 padding_bottom → is_uint32 padding_left →
  is_uint32 pooling_height → is_uint32 pooling_width →
  is_uint32 stride_h → is_uint32 stride_w →
  is_uint32 dilation_h → is_uint32 dilation_w →
  create_operator
    (qnnp_create_max_pooling2d_nhwc_u8 qnnp_params calloc_succeeds
       padding_top padding_right padding_bottom padding_left
       pooling_height pooling_width stride_h stride_w dilation_h
       dilation_w channel_count output_min output_max) = Some max_pooling →
  valid_configuration max_pooling
  ∧ max_pooling.(kernel_height) = pooling_height
  ∧ max_pooling.(kernel_width) = pooling_width
  ∧ max_pooling.(channels) ≠ 0
  ∧ max_pooling.(valid_batch_size) = 0
  ∧ max_pooling.(last_input) = 0
  ∧ max_pooling.(last_input_height) = 0
  ∧ max_pooling.(last_input_width) = 0
  ∧ max_pooling.(indirection_buffer) = None.
Proof.
  intros until max_pooling.
  intros Ht Hr Hb Hl Hph Hpw Hsh Hsw Hdh Hdw Hcreate.
  split.
  { exact (create_valid_configuration _ _ _ _ _ _ _ _ _ _ _ _ _ _ _ _
             Ht Hr Hb Hl Hph Hpw Hsh Hsw Hdh Hdw Hcreate). }
  revert Hcreate. unfold qnnp_create_max_pooling2d_nhwc_u8.
  destruct (initialized qnnp_params); cbn; [|discriminate].
  destruct (uint32_mul pooling_height pooling_width =? 0); [discriminate|].
  destruct (uint32_mul pooling_height pooling_width =? 1); [discriminate|].
  destruct (stride_h =? 0); [discriminate|].
  destruct (stride_w =? 0); [discriminate|].
  destruct (dilation_h =? 0); [discriminate|].
  destruct (dilation_w =? 0); [discriminate|].
  destruct (Z.eqb_spec channel_count 0); [discriminate|].
  destruct calloc_succeeds; cbn; [|discriminate].
  intros [= <-]. cbn. repeat apply conj; (reflexivity || assumption).
Qed.

Lemma create_fresh_descriptor_witness :
  valid_configuration (created_operator 3 3 2 2)
  ∧ (created_operator 3 3 2 2).(valid_batch_size) = 0.
Proof.
  destruct (create_fresh_descriptor sample_params true 0 0 0 0 3 3 2 2 1 1
              3 0 255 (created_operator 3 3 2 2))
    as (Hvalid & _ & _ & _ & Hbatch & _);
    [ closed_bounds | closed_bounds | closed_bounds | closed_bounds
    | closed_bounds | closed_bounds | closed_bounds | closed_bounds
    | closed_bounds | closed_bounds | reflexivity | ].
  split; [exact Hvalid | exact Hbatch].
Defined.

(** X3.  When the product of the kernel extents does not wrap around in
    32 bits, the two pooling-size checks refuse exactly the windows with a
    zero extent and the 1x1 window: creation with an initialized library
    reports a zero pooling size if and only if an extent is zero, and a
    single pooling element if and only if both extents are 1. *)
Theorem create_pooling_size_exact :
  ∀ (qnnp_params : qnnp_parameters) (calloc_succeeds : bool)
    (padding_top padding_right padding_bottom padding_left
     pooling_height pooling_width stride_h stride_w dilation_h dilation_w
     channel_count output_min output_max : Z),
  let r :=
    qnnp_create_max_pooling2d_nhwc_u8 qnnp_params calloc_succeeds
      padding_top padding_right padding_bottom padding_left
      pooling_height pooling_width stride_h stride_w dilation_h dilation_w
      channel_count output_min output_max in
  initialized qnnp_params = true →
  0 ≤ pooling_height → 0 ≤ pooling_width →
  pooling_height * pooling_width < uint32_modulus →
  (create_log r = [log_zero_pooling_size pooling_width pooling_height]
   ↔ pooling_height = 0 ∨ pooling_width = 0)
  ∧ (create_log r = [log_one_pooling_element]
     ↔ pooling_height = 1 ∧ pooling_width = 1).
Proof.
  intros until r. intros Hinit Hh Hw Hfit. subst r.
  assert (Hproduct : uint32_mul pooling_height pooling_width
                     = pooling_height * pooling_width).
  { apply to_uint32_small. unfold is_uint32. nia. }
  assert (Hzero_iff : pooling_height * pooling_width = 0
                      ↔ pooling_height = 0 ∨ pooling_width = 0)
    by (split; [apply Z.mul_eq_0 | nia]).
  assert (Hone_iff : pooling_height * pooling_width = 1
                     ↔ pooling_height = 1 ∧ pooling_width = 1)
    by (split; nia).
  unfold qnnp_create_max_pooling2d_nhwc_u8. rewrite Hinit, Hproduct. cbn.
  destruct (Z.eqb_spec (pooling_height * pooling_width) 0) as [Hzero|Hzero];
    [cbn; repeat apply conj; intros H;
     first [discriminate H | reflexivity | tauto | exfalso; lia]|].
  destruct (Z.eqb_spec (pooling_height * pooling_width) 1) as [Hone|Hone];
    [cbn; repeat apply conj; intros H;
     first [discriminate H | reflexivity | tauto | exfalso; lia]|].
  destruct ((stride_h =? 0) || (stride_w =? 0)); cbn;
    [repeat apply conj; intros H; first [discriminate H | tauto]|].
  destruct ((dilation_h =? 0) || (dilation_w =? 0)); cbn;
    [repeat apply conj; intros H; first [discriminate H | tauto]|].
  destruct (channel_count =? 0); cbn;
    [repeat apply conj; intros H; first [discriminate H | tauto]|].
  destruct calloc_succeeds; cbn;
    repeat apply conj; intros H; first [discriminate H | tauto].
Qed.

Lemma create_pooling_size_exact_witness :
  create_log
    (qnnp_create_max_pooling2d_nhwc_u8 sample_params true 0 0 0 0
       1 1 1 1 1 1 3 0 255) = [log_one_pooling_element].
Proof.
  destruct (create_pooling_size_exact sample_params true 0 0 0 0 1 1 1 1
              1 1 3 0 255) as (_ & _ & Hone);
    [reflexivity | lia | lia | closed_bounds |].
  apply Hone. split; reflexivity.
Defined.

(** ** Output geometry *)

(** X4.  When the padded input is at least the effective kernel, the
    output extent is the number of windows that fit: it is at least 1, the
    last window ends within the padded input, and one more window would
    not fit. *)
Theorem compute_output_dimension_windows_fit :
  ∀ padded kernel dilation stride : Z,
  is_size_t padded → is_size_t dilation →
  0 < stride → 1 ≤ kernel →
  effective_kernel kernel dilation ≤ padded →
  let outputs := compute_output_dimension padded kernel dilation stride in
  1 ≤ outputs
  ∧ outputs ≤ padded
  ∧ (outputs - 1) * stride + effective_kernel kernel dilation ≤ padded
  ∧ padded < outputs * stride + effective_kernel kernel dilation.
Proof.
  intros padded kernel dilation stride Hp Hd Hs Hk Hfit outputs.
  subst outputs. unfold effective_kernel in *.
  rewrite compute_output_dimension_exact by assumption.
  unfold is_size_t in *.
  assert (Heff : 1 ≤ (kernel - 1) * dilation + 1) by nia.
  set (room := padded - ((kernel - 1) * dilation + 1)) in *.
  assert (Hroom : 0 ≤ room) by (subst room; lia).
  pose proof (Z.mul_div_le room stride Hs) as Hle.
  pose proof (Z.mul_succ_div_gt room stride Hs) as Hgt.
  assert (Hquot : 0 ≤ room / stride) by (apply Z.div_pos; lia).
  assert (Hquot' : room / stride ≤ room)
    by (apply Z.div_le_upper_bound; [lia | nia]).
  subst room. repeat apply conj; nia.
Qed.

Lemma compute_output_dimension_windows_fit_witness :
  (compute_output_dimension 10 3 2 2 - 1) * 2 + effective_kernel 3 2 ≤ 10
  ∧ 10 < compute_output_dimension 10 3 2 2 * 2 + effective_kernel 3 2.
Proof.
  destruct (compute_output_dimension_windows_fit 10 3 2 2)
    as (_ & _ & Hlast & Hnext);
    [ closed_bounds | closed_bounds | closed_bounds | closed_bounds
    | closed_bounds | ].
  split; [exact Hlast | exact Hnext].
Defined.

(** ** Setup: what every call keeps *)

Lemma same_configuration_refl a : same_configuration a a.
Proof. constructor; reflexivity. Qed.

Lemma same_configuration_valid a b :
  same_configuration a b → valid_configuration b → valid_configuration a.
Proof.
  intros Hsame Hvalid. destruct Hsame, Hvalid.
  constructor; congruence.
Qed.

(** X5.  Setup never changes the creation-time fields of the descriptor -
    padding, kernel, stride, dilation, channel count, quantization
    parameters, micro-kernel type and format - whatever the arguments and
    the outcome; a valid configuration therefore stays valid. *)
Theorem setup_keeps_configuration :
  ∀ (qnnp_params : qnnp_parameters) (realloc_reply : option Z)
    (max_pooling : qnnp_operator)
    (batch input_h input_w input_address pixel_stride output_address
     output_stride : Z),
  let r :=
    qnnp_setup_max_pooling2d_nhwc_u8 qnnp_params realloc_reply max_pooling
      batch input_h input_w input_address pixel_stride output_address
      output_stride in
  same_configuration (setup_operator r) max_pooling
  ∧ (valid_configuration max_pooling →
     valid_configuration (setup_operator r)).
Proof.
  intros until r.
  assert (Hsame : same_configuration (setup_operator r) max_pooling).
  { destruct (setup_cases qnnp_params realloc_reply max_pooling batch
                input_h input_w input_address pixel_stride output_address
                output_stride)
      as [(_ & Hr)|[(_ & _ & Hr)|[(_ & _ & _ & Hr)
         |[(_ & _ & _ & _ & _ & Hr)
         |[(_ & _ & _ & _ & _ & _ & Hr)
         |(_ & _ & _ & _ & _ & address & _ & Hr)]]]]];
      fold r in Hr; rewrite Hr; constructor; reflexivity. }
  split; [exact Hsame|].
  apply same_configuration_valid. exact Hsame.
Qed.

Lemma setup_keeps_configuration_witness :
  valid_configuration
    (setup_operator (sample_setup (created_operator 2 2 2 2) 2 1000 3)).
Proof.
  destruct (setup_keeps_configuration sample_params (Some 4096)
              (created_operator 2 2 2 2) 2 4 4 1000 3 2000 3)
    as (_ & Hvalid).
  apply Hvalid. exact created_operator_valid.
Defined.

(** X6.  A setup call with defined behaviour - in particular one whose
    reallocation is not a request of zero bytes on an existing block - that
    does not return success leaves the indirection buffer and the four
    cache fields of the descriptor as they were, and logs one
    diagnostic. *)
Theorem setup_failure_keeps_buffer :
  ∀ (qnnp_params : qnnp_parameters) (realloc_reply : option Z)
    (max_pooling : qnnp_operator)
    (batch input_h input_w input_address pixel_stride output_address
     output_stride : Z),
  let r :=
    qnnp_setup_max_pooling2d_nhwc_u8 qnnp_params realloc_reply max_pooling
      batch input_h input_w input_address pixel_stride output_address
      output_stride in
  let after := setup_operator r in
  setup_defined qnnp_params realloc_reply max_pooling batch input_h
    input_w input_address pixel_stride output_address output_stride →
  setup_status r ≠ qnnp_status_success →
  after.(indirection_buffer) = max_pooling.(indirection_buffer)
  ∧ after.(last_input) = max_pooling.(last_input)
  ∧ after.(last_input_height) = max_pooling.(last_input_height)
  ∧ after.(last_input_width) = max_pooling.(last_input_width)
  ∧ after.(valid_batch_size) = max_pooling.(valid_batch_size)
  ∧ length (setup_log r) = 1%nat.
Proof.
  intros until after. intros _ Hstatus. subst after.
  destruct (setup_cases qnnp_params realloc_reply max_pooling batch
              input_h input_w input_address pixel_stride output_address
              output_stride)
    as [(_ & Hr)|[(_ & _ & Hr)|[(_ & _ & _ & Hr)
       |[(_ & _ & _ & _ & _ & Hr)
       |[(_ & _ & _ & _ & _ & _ & Hr)
       |(_ & _ & _ & _ & _ & address & _ & Hr)]]]]];
    fold r in Hr; rewrite Hr in Hstatus |- *; cbn in Hstatus |- *;
    try (exfalso; apply Hstatus; reflexivity);
    repeat apply conj; reflexivity.
Qed.

Lemma setup_failure_keeps_buffer_witness :
  let first := sample_setup (created_operator 2 2 2 2) 2 1000 3 in
  let second :=
    qnnp_setup_max_pooling2d_nhwc_u8 sample_params None
      (setup_operator first) 5 4 4 1000 3 2000 3 in
  (setup_operator second).(indirection_buffer)
  = (setup_operator first).(indirection_buffer)
  ∧ (setup_operator second).(valid_batch_size) = 2.
Proof.
  intros first second.
  destruct (setup_failure_keeps_buffer sample_params None
              (setup_operator first) 5 4 4 1000 3 2000 3)
    as (Hbuffer & _ & _ & _ & Hvalid & _).
  - apply fitting_setup_defined;
      [constructor; closed_bounds | closed_bounds ..].
  - discriminate.
  - split; [exact Hbuffer | exact Hvalid].
Defined.

(** ** Setup: which path a call takes *)

(** X7.  A setup call with defined behaviour - nonzero strides, no
    request of zero bytes on an existing block, and every store of a
    rebuild within the reallocated block - returns success exactly when
    the library is initialized, the batch size and the input height and
    width are nonzero, and either the cache is valid for the call or the
    allocator returns a block. *)
Theorem setup_success_iff :
  ∀ (qnnp_params : qnnp_parameters) (realloc_reply : option Z)
    (max_pooling : qnnp_operator)
    (batch input_h input_w input_address pixel_stride output_address
     output_stride : Z),
  let r :=
    qnnp_setup_max_pooling2d_nhwc_u8 qnnp_params realloc_reply max_pooling
      batch input_h input_w input_address pixel_stride output_address
      output_stride in
  setup_defined qnnp_params realloc_reply max_pooling batch input_h
    input_w input_address pixel_stride output_address output_stride →
  setup_status r = qnnp_status_success
  ↔ setup_arguments_pass qnnp_params batch input_h input_w
    ∧ (cache_valid max_pooling batch input_h input_w input_address
       ∨ is_Some realloc_reply).
Proof.
  intros until r. intros _. unfold setup_arguments_pass.
  destruct (setup_cases qnnp_params realloc_reply max_pooling batch
              input_h input_w input_address pixel_stride output_address
              output_stride)
    as [(Hinit & Hr)|[(Hinit & Hb & Hr)|[(Hinit & Hb & Hdim & Hr)
       |[(Hinit & Hb & Hw & Hh & Hvalid & Hr)
       |[(Hinit & Hb & Hw & Hh & Hvalid & Hreply & Hr)
       |(Hinit & Hb & Hw & Hh & Hvalid & address & Hreply & Hr)]]]]];
    fold r in Hr; rewrite Hr; cbn; split;
    try discriminate; try (intros _; tauto); try reflexivity.
  - intros ((Hinit' & _) & _). congruence.
  - intros ((_ & Hb' & _) & _). contradiction.
  - intros ((_ & _ & Hh' & Hw') & _). destruct Hdim; contradiction.
  - intros (_ & [Hhit|Hsome]); [contradiction|].
    rewrite Hreply in Hsome. destruct Hsome as [? ?]. discriminate.
  - intros _. repeat split; try assumption.
    right. rewrite Hreply. eexists. reflexivity.
Qed.

Lemma setup_success_iff_witness :
  setup_status
    (qnnp_setup_max_pooling2d_nhwc_u8 sample_params (Some 4096)
       (created_operator 3 3 2 2) 2 7 7 1000 16 2000 16)
  = qnnp_status_success.
Proof.
  destruct (setup_success_iff sample_params (Some 4096)
              (created_operator 3 3 2 2) 2 7 7 1000 16 2000 16)
    as (_ & Hsuccess);
    [ apply fitting_setup_defined;
      [constructor; closed_bounds | closed_bounds ..] | ].
  apply Hsuccess. split.
  - unfold setup_arguments_pass. repeat apply conj;
      first [reflexivity | discriminate].
  - right. eexists. reflexivity.
Defined.

(** X8.  The allocator is called exactly when the call passes the argument
    checks and the cache is not valid for it; the size asked for is then
    the one computed from the new geometry. *)
Theorem setup_realloc_iff_miss :
  ∀ (qnnp_params : qnnp_parameters) (realloc_reply : option Z)
    (max_pooling : qnnp_operator)
    (batch input_h input_w input_address pixel_stride output_address
     output_stride : Z),
  let r :=
    qnnp_setup_max_pooling2d_nhwc_u8 qnnp_params realloc_reply max_pooling
      batch input_h input_w input_address pixel_stride output_address
      output_stride in
  (is_Some (setup_realloc r)
   ↔ setup_arguments_pass qnnp_params batch input_h input_w
     ∧ ¬ cache_valid max_pooling batch input_h input_w input_address)
  ∧ (∀ size, setup_realloc r = Some size →
       size = indirection_buffer_size qnnp_params.(u8maxpool_mr)
                (setup_operator r) batch).
Proof.
  intros until r. unfold setup_arguments_pass. split.
  - destruct (setup_cases qnnp_params realloc_reply max_pooling batch
                input_h input_w input_address pixel_stride output_address
                output_stride)
      as [(Hinit & Hr)|[(Hinit & Hb & Hr)|[(Hinit & Hb & Hdim & Hr)
         |[(Hinit & Hb & Hw & Hh & Hvalid & Hr)
         |[(Hinit & Hb & Hw & Hh & Hvalid & Hreply & Hr)
         |(Hinit & Hb & Hw & Hh & Hvalid & address & Hreply & Hr)]]]]];
      fold r in Hr; rewrite Hr; cbn; split;
      try (intros [? Habsurd]; discriminate Habsurd);
      try (intros _; tauto); try (intros _; eexists; reflexivity).
    + intros ((Hinit' & _) & _). congruence.
    + intros ((_ & Hb' & _) & _). contradiction.
    + intros ((_ & _ & Hh' & Hw') & _). destruct Hdim; contradiction.
    + intros (_ & Hmiss). contradiction.
  - intros size Hrealloc.
    destruct (setup_realloc_inv _ _ _ _ _ _ _ _ _ _ _ Hrealloc)
      as (_ & _ & _ & _ & _ & Hsize & Hlayout & _).
    fold r in Hlayout.
    rewrite (indirection_buffer_size_layout _ _ _ _ Hlayout). exact Hsize.
Qed.

Lemma setup_realloc_iff_miss_witness :
  is_Some
    (setup_realloc
       (qnnp_setup_max_pooling2d_nhwc_u8 sample_params None
          (created_operator 3 3 2 2) 2 7 7 1000 16 2000 16)).
Proof.
  destruct (setup_realloc_iff_miss sample_params None
              (created_operator 3 3 2 2) 2 7 7 1000 16 2000 16)
    as ((_ & Hcalled) & _).
  apply Hcalled. split.
  - unfold setup_arguments_pass. repeat apply conj;
      first [reflexivity | discriminate].
  - intros (Haddress & _). discriminate Haddress.
Defined.

(** ** Setup: sequences of calls *)

Lemma create_empty_cache
    qnnp_params calloc_succeeds padding_top padding_right padding_bottom
    padding_left pooling_height pooling_width stride_h stride_w dilation_h
    dilation_w channel_count output_min output_max max_pooling :
  create_operator
    (qnnp_create_max_pooling2d_nhwc_u8 qnnp_params calloc_succeeds
       padding_top padding_right padding_bottom padding_left
       pooling_height pooling_width stride_h stride_w dilation_h
       dilation_w channel_count output_min output_max) = Some max_pooling →
  max_pooling.(valid_batch_size) = 0
  ∧ max_pooling.(indirection_buffer) = None.
Proof.
  unfold qnnp_create_max_pooling2d_nhwc_u8.
  destruct (initialized qnnp_params); cbn; [|discriminate].
  destruct (uint32_mul pooling_height pooling_width =? 0); [discriminate|].
  destruct (uint32_mul pooling_height pooling_width =? 1); [discriminate|].
  destruct ((stride_h =? 0) || (stride_w =? 0)); [discriminate|].
  destruct ((dilation_h =? 0) || (dilation_w =? 0)); [discriminate|].
  destruct (channel_count =? 0); [discriminate|].
  destruct calloc_succeeds; cbn; [|discriminate].
  intros [= <-]. split; reflexivity.
Qed.

(** After a successful call the cache is valid for the arguments of that
    call. *)
Lemma setup_success_covers
    qnnp_params realloc_reply max_pooling batch input_h input_w
    input_address pixel_stride output_address output_stride :
  let r :=
    qnnp_setup_max_pooling2d_nhwc_u8 qnnp_params realloc_reply max_pooling
      batch input_h input_w input_address pixel_stride output_address
      output_stride in
  is_size_t batch →
  setup_status r = qnnp_status_success →
  setup_arguments_pass qnnp_params batch input_h input_w
  ∧ cache_valid (setup_operator r) batch input_h input_w input_address.
Proof.
  intros r Hbatch Hstatus. unfold setup_arguments_pass.
  destruct (setup_cases qnnp_params realloc_reply max_pooling batch
              input_h input_w input_address pixel_stride output_address
              output_stride)
    as [(Hinit & Hr)|[(Hinit & Hb & Hr)|[(Hinit & Hb & Hdim & Hr)
       |[(Hinit & Hb & Hw & Hh & Hvalid & Hr)
       |[(Hinit & Hb & Hw & Hh & Hvalid & Hreply & Hr)
       |(Hinit & Hb & Hw & Hh & Hvalid & address & Hreply & Hr)]]]]];
    fold r in Hr; rewrite Hr in Hstatus |- *; cbn in Hstatus;
    try discriminate Hstatus; cbn [setup_operator].
  - split; [tauto|]. exact Hvalid.
  - split; [tauto|]. unfold cache_valid. cbn.
    unfold is_size_t in Hbatch.
    rewrite rebuild_valid_batch_size by (assumption || lia).
    repeat apply conj; (reflexivity || lia).
Qed.

(** X9.  The first setup call on a freshly created descriptor never hits
    the cache: with arguments that pass the checks it always calls the
    allocator and, its behaviour being defined - every store of the
    rebuild within the reallocated block -, returns success when a block is
    returned, with the batch size as the cached bound, and the
    out-of-memory status otherwise. *)
Theorem setup_after_create_rebuilds :
  ∀ (create_params qnnp_params : qnnp_parameters)
    (calloc_succeeds : bool) (realloc_reply : option Z)
    (padding_top padding_right padding_bottom padding_left
     pooling_height pooling_width stride_h stride_w dilation_h dilation_w
     channel_count output_min output_max : Z)
    (max_pooling : qnnp_operator)
    (batch input_h input_w input_address pixel_stride output_address
     output_stride : Z),
  let r :=
    qnnp_setup_max_pooling2d_nhwc_u8 qnnp_params realloc_reply max_pooling
      batch input_h input_w input_address pixel_stride output_address
      output_stride in
  create_operator
    (qnnp_create_max_pooling2d_nhwc_u8 create_params calloc_succeeds
       padding_top padding_right padding_bottom padding_left
       pooling_height pooling_width stride_h stride_w dilation_h
       dilation_w channel_count output_min output_max) = Some max_pooling →
  is_size_t batch →
  setup_arguments_pass qnnp_params batch input_h input_w →
  setup_defined qnnp_params realloc_reply max_pooling batch input_h
    input_w input_address pixel_stride output_address output_stride →
  is_Some (setup_realloc r)
  ∧ (is_Some realloc_reply →
     setup_status r = qnnp_status_success
     ∧ (setup_operator r).(valid_batch_size) = batch
     ∧ is_Some (setup_operator r).(indirection_buffer))
  ∧ (realloc_reply = None →
     setup_status r = qnnp_status_out_of_memory
     ∧ (setup_operator r).(indirection_buffer) = None).
Proof.
  intros until r. intros Hcreate Hbatch (Hinit & Hb & Hh & Hw) _.
  destruct (create_empty_cache _ _ _ _ _ _ _ _ _ _ _ _ _ _ _ _ Hcreate)
    as (Hempty & Hnull).
  unfold is_size_t in Hbatch.
  assert (Hmiss :
    ¬ cache_valid max_pooling batch input_h input_w input_address).
  { intros (_ & _ & _ & Hle). lia. }
  split; [|split].
  - destruct realloc_reply as [address|] eqn:Hreply; subst r.
    + rewrite (setup_rebuild _ _ _ _ _ _ _ _ _ _ address) by auto.
      eexists. reflexivity.
    + rewrite setup_allocation_failure by auto. eexists. reflexivity.
  - intros [address Hreply]. subst r.
    rewrite (setup_rebuild _ _ _ _ _ _ _ _ _ _ address) by auto.
    cbn. rewrite rebuild_valid_batch_size by (assumption || lia).
    repeat apply conj; try reflexivity. eexists. reflexivity.
  - intros Hreply. subst r.
    rewrite setup_allocation_failure by auto. cbn.
    split; [reflexivity | exact Hnull].
Qed.

Lemma setup_after_create_rebuilds_witness :
  setup_status
    (qnnp_setup_max_pooling2d_nhwc_u8 sample_params (Some 4096)
       (created_operator 3 3 2 2) 2 7 7 1000 16 2000 16)
  = qnnp_status_success.
Proof.
  destruct (setup_after_create_rebuilds sample_params sample_params true
              (Some 4096) 0 0 0 0 3 3 2 2 1 1 3 0 255
              (created_operator 3 3 2 2) 2 7 7 1000 16 2000 16)
    as (_ & Hsuccess & _);
    [ reflexivity | closed_bounds
    | unfold setup_arguments_pass; repeat apply conj;
      first [reflexivity | discriminate]
    | apply fitting_setup_defined;
      [constructor; closed_bounds | closed_bounds ..]
    | ].
  apply Hsuccess. eexists. reflexivity.
Defined.

(** X10.  After a successful setup call, a call with the same input
    address, height and width and a batch size between 1 and that of the
    first call succeeds without calling the allocator and keeps the
    indirection buffer and the cache fields, whatever its pixel stride and
    output target. *)
Theorem setup_smaller_batch_reuses_buffer :
  ∀ (qnnp_params : qnnp_parameters) (reply1 reply2 : option Z)
    (max_pooling : qnnp_operator)
    (batch1 batch2 input_h input_w input_address
     pixel_stride1 output1 output_stride1
     pixel_stride2 output2 output_stride2 : Z),
  let first :=
    qnnp_setup_max_pooling2d_nhwc_u8 qnnp_params reply1 max_pooling
      batch1 input_h input_w input_address pixel_stride1 output1
      output_stride1 in
  let second :=
    qnnp_setup_max_pooling2d_nhwc_u8 qnnp_params reply2
      (setup_operator first)
      batch2 input_h input_w input_address pixel_stride2 output2
      output_stride2 in
  is_size_t batch1 →
  setup_status first = qnnp_status_success →
  batch2 ≠ 0 → batch2 ≤ batch1 →
  setup_status second = qnnp_status_success
  ∧ setup_realloc second = None
  ∧ (setup_operator second).(indirection_buffer)
    = (setup_operator first).(indirection_buffer)
  ∧ (setup_operator second).(valid_batch_size)
    = (setup_operator first).(valid_batch_size)
  ∧ (setup_operator second).(batch_size) = batch2.
Proof.
  intros until second. intros Hbatch Hstatus Hne Hle.
  destruct (setup_success_covers _ _ _ _ _ _ _ _ _ _ Hbatch Hstatus)
    as ((Hinit & _ & Hh & Hw) & (Ha & Hih & Hiw & Hvalid)).
  fold first in Ha, Hih, Hiw, Hvalid.
  subst second.
  rewrite setup_cache_hit;
    [ | assumption | assumption | assumption | assumption
      | repeat split; (assumption || lia) ].
  cbn. repeat apply conj; reflexivity.
Qed.

Lemma setup_smaller_batch_reuses_buffer_witness :
  let first := sample_setup (created_operator 2 2 2 2) 3 1000 3 in
  let second := sample_setup (setup_operator first) 2 1000 7 in
  setup_status second = qnnp_status_success
  ∧ setup_realloc second = None
  ∧ (setup_operator second).(indirection_buffer)
    = (setup_operator first).(indirection_buffer).
Proof.
  intros first second.
  destruct (setup_smaller_batch_reuses_buffer sample_params (Some 4096)
              (Some 4096) (created_operator 2 2 2 2) 3 2 4 4 1000
              3 2000 3 7 2000 3)
    as (Hstatus & Hrealloc & Hbuffer & _);
    [closed_bounds | reflexivity | discriminate | closed_bounds |].
  repeat apply conj; assumption.
Defined.

(** X11.  Setup is idempotent: repeating a successful call with the same
    arguments succeeds without calling the allocator and leaves the
    descriptor exactly as the first call left it. *)
Theorem setup_repeat_is_identity :
  ∀ (qnnp_params : qnnp_parameters) (reply1 reply2 : option Z)
    (max_pooling : qnnp_operator)
    (batch input_h input_w input_address pixel_stride output_address
     output_stride : Z),
  let first :=
    qnnp_setup_max_pooling2d_nhwc_u8 qnnp_params reply1 max_pooling
      batch input_h input_w input_address pixel_stride output_address
      output_stride in
  let second :=
    qnnp_setup_max_pooling2d_nhwc_u8 qnnp_params reply2
      (setup_operator first)
      batch input_h input_w input_address pixel_stride output_address
      output_stride in
  is_size_t batch →
  setup_status first = qnnp_status_success →
  setup_status second = qnnp_status_success
  ∧ setup_realloc second = None
  ∧ setup_operator second = setup_operator first.
Proof.
  intros until second. intros Hbatch Hstatus.
  destruct (setup_success_covers _ _ _ _ _ _ _ _ _ _ Hbatch Hstatus)
    as ((Hinit & Hb & Hh & Hw) & Hvalid).
  fold first in Hvalid.
  subst second.
  rewrite setup_cache_hit by assumption.
  cbn [setup_status setup_realloc setup_operator].
  split; [reflexivity|]. split; [reflexivity|].
  destruct (setup_cases qnnp_params reply1 max_pooling batch
              input_h input_w input_address pixel_stride output_address
              output_stride)
    as [(_ & Hr)|[(_ & _ & Hr)|[(_ & _ & _ & Hr)
       |[(_ & _ & _ & _ & _ & Hr)
       |[(_ & _ & _ & _ & _ & _ & Hr)
       |(_ & _ & _ & _ & _ & address & _ & Hr)]]]]];
    fold first in Hr; rewrite Hr in Hstatus |- *; cbn in Hstatus;
    try discriminate Hstatus; reflexivity.
Qed.

Lemma setup_repeat_is_identity_witness :
  let first := sample_setup (created_operator 2 2 2 2) 3 1000 3 in
  setup_operator (sample_setup (setup_operator first) 3 1000 3)
  = setup_operator first.
Proof.
  intros first.
  destruct (setup_repeat_is_identity sample_params (Some 4096) (Some 4096)
              (created_operator 2 2 2 2) 3 4 4 1000 3 2000 3)
    as (_ & _ & Hsame); [closed_bounds | reflexivity |].
  exact Hsame.
Defined.

(** ** The contents of the rebuilt buffer *)

Lemma quotient_remainder_unique (m q q' r r' : Z) :
  0 ≤ r < m → 0 ≤ r' < m → q * m + r = q' * m + r' → q = q' ∧ r = r'.
Proof. intros Hr Hr' Heq. assert (q = q') by nia. split; [assumption|nia]. Qed.

(** Without wrap-around, two iterations that store to the same flat index
    agree on the image, the output row, the pooling row and the slot
    column [output_x * width_step + pooling_x]. *)
Lemma shared_index_components (max_pooling : qnnp_operator)
    (t t' : iteration) :
  1 ≤ max_pooling.(kernel_height) → 1 ≤ max_pooling.(kernel_width) →
  1 ≤ max_pooling.(stride_width) →
  t ∈ population_iterations max_pooling →
  t' ∈ population_iterations max_pooling →
  is_size_t (logical_entry_count max_pooling max_pooling.(batch_size)) →
  entry_index max_pooling t = entry_index max_pooling t' →
  t.(image) = t'.(image) ∧ t.(output_y) = t'.(output_y)
  ∧ t.(pooling_y) = t'.(pooling_y)
  ∧ t.(output_x) * width_step max_pooling + t.(pooling_x)
    = t'.(output_x) * width_step max_pooling + t'.(pooling_x).
Proof.
  intros Hkh Hkw Hsw Ht Ht' Hfit Hindex.
  pose proof (entry_index_bounds max_pooling t Hkh Hkw Hsw Ht Hfit) as Hb.
  pose proof (entry_index_bounds max_pooling t' Hkh Hkw Hsw Ht' Hfit) as Hb'.
  cbv zeta in Hb, Hb'.
  destruct Hb as (Hexact & Hlow & Hhigh & Hpair0 & _ & Hslots).
  destruct Hb' as (Hexact' & Hlow' & Hhigh' & Hpair0' & _ & _).
  rewrite Hexact, Hexact' in Hindex.
  apply elem_of_population_iterations in Ht as (_ & Hoy & Hpy & _ & _).
  apply elem_of_population_iterations in Ht' as (_ & Hoy' & Hpy' & _ & _).
  unfold entry_index_exact in *.
  set (oh := max_pooling.(output_height)) in *.
  set (kh := max_pooling.(kernel_height)) in *.
  set (ws := width_step max_pooling) in *.
  set (slots := row_slots_exact max_pooling) in *.
  set (pair := t.(image) * oh + t.(output_y)) in *.
  set (pair' := t'.(image) * oh + t'.(output_y)) in *.
  set (inner := t.(output_x) * ws * kh + t.(pooling_x) * kh
                + t.(pooling_y)) in *.
  set (inner' := t'.(output_x) * ws * kh + t'.(pooling_x) * kh
                 + t'.(pooling_y)) in *.
  assert (Hinner : 0 ≤ inner < slots) by lia.
  assert (Hinner' : 0 ≤ inner' < slots) by lia.
  destruct (quotient_remainder_unique slots pair pair' inner inner'
              Hinner Hinner') as (Hpair & Hinner_eq); [lia|].
  subst pair pair'.
  destruct (quotient_remainder_unique oh t.(image) t'.(image)
              t.(output_y) t'.(output_y) Hoy Hoy' Hpair)
    as (Himage & Houtput).
  subst inner inner'.
  destruct (quotient_remainder_unique kh
              (t.(output_x) * ws + t.(pooling_x))
              (t'.(output_x) * ws + t'.(pooling_x))
              t.(pooling_y) t'.(pooling_y) Hpy Hpy')
    as (Hcolumn & Hpooling); [lia|].
  repeat apply conj; assumption.
Qed.

(** Iterations that share a slot column read the same input column: either
    the column determines both counters, or the stride is the width step
    and the dilation is 1, so that the slot column is the unclamped input
    column. *)
Lemma shared_column_same_input (max_pooling : qnnp_operator)
    (t t' : iteration) :
  1 ≤ max_pooling.(dilation_width) →
  0 ≤ t.(pooling_x) < max_pooling.(kernel_width) →
  0 ≤ t'.(pooling_x) < max_pooling.(kernel_width) →
  t.(output_x) * width_step max_pooling + t.(pooling_x)
  = t'.(output_x) * width_step max_pooling + t'.(pooling_x) →
  clamped_input_x max_pooling t = clamped_input_x max_pooling t'.
Proof.
  intros Hdw Hpx Hpx' Hcolumn. unfold clamped_input_x.
  assert (Hsum :
    t.(output_x) *% max_pooling.(stride_width)
    +% t.(pooling_x) *% max_pooling.(dilation_width)
    = t'.(output_x) *% max_pooling.(stride_width)
      +% t'.(pooling_x) *% max_pooling.(dilation_width));
    [|rewrite Hsum; reflexivity].
  unfold width_step, size_min in Hcolumn.
  rewrite Z.gtb_ltb in Hcolumn.
  destruct (Z.ltb_spec 1 max_pooling.(dilation_width)) as [Hwide|Hone].
  - destruct (quotient_remainder_unique max_pooling.(kernel_width)
                t.(output_x) t'.(output_x) t.(pooling_x) t'.(pooling_x)
                Hpx Hpx' Hcolumn) as (-> & ->).
    reflexivity.
  - assert (Hdilation : max_pooling.(dilation_width) = 1) by lia.
    rewrite Hdilation.
    destruct (Z.ltb_spec max_pooling.(stride_width)
                max_pooling.(kernel_width)) as [Hstep|Hstep].
    + rewrite <- (to_size_t_small (_ +% _)) by apply size_add_range.
      rewrite <- (to_size_t_small (t'.(output_x) *% _ +% _))
        by apply size_add_range.
      etransitivity; [apply wrap_congr_add; [apply wrap_congr_mul|
                        apply wrap_congr_mul]; reflexivity|].
      symmetry.
      etransitivity; [apply wrap_congr_add; [apply wrap_congr_mul|
                        apply wrap_congr_mul]; reflexivity|].
      apply (f_equal to_size_t). lia.
    + destruct (quotient_remainder_unique max_pooling.(kernel_width)
                  t.(output_x) t'.(output_x) t.(pooling_x) t'.(pooling_x)
                  Hpx Hpx' Hcolumn) as (-> & ->).
      reflexivity.
Qed.

(** Without wrap-around, iterations that store to the same flat index
    store the same address. *)
Lemma shared_index_same_value (max_pooling : qnnp_operator)
    (t t' : iteration) :
  1 ≤ max_pooling.(kernel_height) → 1 ≤ max_pooling.(kernel_width) →
  1 ≤ max_pooling.(stride_width) → 1 ≤ max_pooling.(dilation_width) →
  t ∈ population_iterations max_pooling →
  t' ∈ population_iterations max_pooling →
  is_size_t (logical_entry_count max_pooling max_pooling.(batch_size)) →
  entry_index max_pooling t = entry_index max_pooling t' →
  entry_value max_pooling t = entry_value max_pooling t'.
Proof.
  intros Hkh Hkw Hsw Hdw Ht Ht' Hfit Hindex.
  destruct (shared_index_components max_pooling t t' Hkh Hkw Hsw Ht Ht'
              Hfit Hindex) as (Himage & Houtput & Hpooling & Hcolumn).
  apply elem_of_population_iterations in Ht as (_ & _ & _ & _ & Hpx).
  apply elem_of_population_iterations in Ht' as (_ & _ & _ & _ & Hpx').
  pose proof (shared_column_same_input max_pooling t t' Hdw Hpx Hpx'
                Hcolumn) as Hx.
  unfold entry_value. rewrite Hx, Himage.
  unfold clamped_input_y. rewrite Houtput, Hpooling. reflexivity.
Qed.

(** After the stores of the loop, the entry at the index of every
    iteration is the address that very iteration stored. *)
Lemma stores_lookup_exact (max_pooling : qnnp_operator)
    (entries : gmap Z Z) (t : iteration) :
  1 ≤ max_pooling.(kernel_height) → 1 ≤ max_pooling.(kernel_width) →
  1 ≤ max_pooling.(stride_width) → 1 ≤ max_pooling.(dilation_width) →
  t ∈ population_iterations max_pooling →
  is_size_t (logical_entry_count max_pooling max_pooling.(batch_size)) →
  foldl (store_entry max_pooling) entries
    (population_iterations max_pooling) !! entry_index max_pooling t
  = Some (entry_value max_pooling t).
Proof.
  intros Hkh Hkw Hsw Hdw Ht Hfit.
  destruct (stores_lookup_written max_pooling
              (population_iterations max_pooling) entries
              (entry_index max_pooling t))
    as (t' & Ht' & Hindex & Hlookup);
    [apply list_elem_of_fmap_2; exact Ht|].
  rewrite Hlookup. f_equal.
  apply shared_index_same_value; assumption.
Qed.

(** The descriptor a successful call leaves lays the buffer out as the one
    of line 181 and holds the batch size of the call. *)
Lemma setup_success_layout
    qnnp_params realloc_reply max_pooling batch input_h input_w
    input_address pixel_stride output_address output_stride :
  let r :=
    qnnp_setup_max_pooling2d_nhwc_u8 qnnp_params realloc_reply max_pooling
      batch input_h input_w input_address pixel_stride output_address
      output_stride in
  let geometry :=
    store_geometry max_pooling batch input_h input_w input_address
      pixel_stride output_address output_stride in
  setup_status r = qnnp_status_success →
  same_layout (setup_operator r) geometry
  ∧ (setup_operator r).(batch_size) = batch
  ∧ population_iterations (setup_operator r)
    = population_iterations geometry
  ∧ input_h ≠ 0 ∧ input_w ≠ 0.
Proof.
  intros r geometry Hstatus.
  assert (Hfacts : same_layout (setup_operator r) geometry
                   ∧ (setup_operator r).(batch_size) = batch
                   ∧ input_h ≠ 0 ∧ input_w ≠ 0).
  { destruct (setup_cases qnnp_params realloc_reply max_pooling batch
                input_h input_w input_address pixel_stride output_address
                output_stride)
      as [(_ & Hr)|[(_ & _ & Hr)|[(_ & _ & _ & Hr)
         |[(_ & _ & Hw & Hh & _ & Hr)
         |[(_ & _ & _ & _ & _ & _ & Hr)
         |(_ & _ & Hw & Hh & _ & address & _ & Hr)]]]]];
      fold r in Hr; rewrite Hr in Hstatus |- *; cbn in Hstatus;
      try discriminate Hstatus; cbn [setup_operator];
      (split; [constructor; reflexivity|]);
      (split; [reflexivity|]); split; assumption. }
  destruct Hfacts as (Hlayout & Hbatch & Hh & Hw).
  repeat apply conj; try assumption.
  apply population_iterations_layout; assumption.
Qed.

(** The logical entry count fits in size_t when the requested size
    does. *)
Lemma logical_entry_count_fits (mr : Z) (max_pooling : qnnp_operator)
    (t : iteration) :
  1 ≤ max_pooling.(kernel_height) → 1 ≤ max_pooling.(kernel_width) →
  1 ≤ max_pooling.(stride_width) → 1 ≤ mr →
  t ∈ population_iterations max_pooling →
  is_size_t
    (sizeof_pointer
     * required_entry_count mr max_pooling max_pooling.(batch_size)) →
  is_size_t (logical_entry_count max_pooling max_pooling.(batch_size)).
Proof.
  intros Hkh Hkw Hsw Hmr Ht Hfit.
  apply elem_of_population_iterations in Ht as (Hi & Hoy & _ & Hox & _).
  pose proof (row_slots_exact_positive max_pooling Hkh Hkw Hsw ltac:(lia))
    as Hslots.
  unfold required_entry_count in Hfit.
  rewrite logical_entry_count_slots in *.
  assert (Hsizeof : sizeof_pointer = 8) by reflexivity.
  unfold is_size_t in *.
  set (b := max_pooling.(batch_size)) in *.
  set (oh := max_pooling.(output_height)) in *.
  set (slots := row_slots_exact max_pooling) in *.
  assert (Hpairs : 0 ≤ b * oh) by nia.
  assert (Hlogical : 0 ≤ b * oh * slots) by nia.
  lia.
Qed.

(** X12.  After a setup call that succeeds having rebuilt the buffer, for
    a valid configuration and a requested size that does not wrap around,
    every store of the population loop lies within the block the
    descriptor owns, and at least [mr - 1] entries of the block follow the
    last index stored to, as the micro-kernel requires. *)
Theorem setup_stores_within_block :
  ∀ (qnnp_params : qnnp_parameters) (realloc_reply : option Z)
    (max_pooling : qnnp_operator)
    (batch input_h input_w input_address pixel_stride output_address
     output_stride size : Z),
  let r :=
    qnnp_setup_max_pooling2d_nhwc_u8 qnnp_params realloc_reply max_pooling
      batch input_h input_w input_address pixel_stride output_address
      output_stride in
  let after := setup_operator r in
  let mr := qnnp_params.(u8maxpool_mr) in
  valid_configuration max_pooling →
  is_uint32 mr → 1 ≤ mr →
  setup_status r = qnnp_status_success →
  setup_realloc r = Some size →
  is_size_t (sizeof_pointer * required_entry_count mr after batch) →
  ∃ block,
    after.(indirection_buffer) = Some block
    ∧ block.(block_bytes) = size
    ∧ ∀ t, t ∈ population_iterations after →
        0 ≤ entry_index after t
        ∧ sizeof_pointer * (entry_index after t + 1)
          + sizeof_pointer * (mr - 1) ≤ block.(block_bytes).
Proof.
  intros until mr. intros Hvalid Hmr32 Hmr Hstatus Hrealloc Hfit.
  destruct (setup_realloc_inv _ _ _ _ _ _ _ _ _ _ _ Hrealloc)
    as (_ & _ & _ & _ & _ & Hsize & Hlayout & Hbatch).
  destruct (setup_rebuilt_inv _ _ _ _ _ _ _ _ _ _ _ Hstatus Hrealloc)
    as (address & _ & Hafter).
  fold r in Hlayout, Hbatch, Hafter. fold after in Hlayout, Hbatch, Hafter.
  fold mr in Hsize, Hafter.
  set (geometry := store_geometry max_pooling batch input_h input_w
                     input_address pixel_stride output_address
                     output_stride) in *.
  destruct Hvalid as [_ _ _ _ Hkh Hkw _ Hsw _ _].
  assert (Hkh1 : 1 ≤ geometry.(kernel_height)) by (cbn; lia).
  assert (Hkw1 : 1 ≤ geometry.(kernel_width)) by (cbn; lia).
  assert (Hsw1 : 1 ≤ geometry.(stride_width)) by (cbn; lia).
  rewrite (required_entry_count_layout _ _ _ _ Hlayout) in Hfit.
  assert (Hexact :
    size = sizeof_pointer * required_entry_count mr geometry batch).
  { rewrite Hsize. apply indirection_buffer_size_exact; [|exact Hfit].
    unfold is_uint32 in Hmr32. lia. }
  exists (rebuilt_block mr address geometry batch).
  split; [rewrite Hafter; reflexivity|].
  split; [symmetry; exact Hsize|].
  intros t Ht.
  rewrite (population_iterations_layout _ _ Hlayout Hbatch) in Ht.
  rewrite (entry_index_layout _ _ _ Hlayout).
  destruct (entry_index_within_request mr geometry t Hkh1 Hkw1 Hsw1 Hmr Ht
              Hfit) as (Hlow & Hhigh).
  change (batch_size geometry) with batch in Hhigh.
  unfold rebuilt_block. cbn [block_bytes].
  rewrite <- Hsize, Hexact. lia.
Qed.

Lemma setup_stores_within_block_witness :
  let after :=
    setup_operator (sample_setup (created_operator 2 2 2 2) 1 1000 3) in
  let t := {| image := 0; output_y := 1; pooling_y := 1;
              output_x := 1; pooling_x := 1 |} in
  ∃ block,
    after.(indirection_buffer) = Some block
    ∧ sizeof_pointer * (entry_index after t + 1) + sizeof_pointer * (9 - 1)
      ≤ block.(block_bytes).
Proof.
  intros after t.
  destruct (setup_stores_within_block sample_params (Some 4096)
              (created_operator 2 2 2 2) 1 4 4 1000 3 2000 3 224)
    as (block & Hblock & _ & Hstores);
    [ exact created_operator_valid | closed_bounds | closed_bounds
    | reflexivity | reflexivity | closed_bounds | ].
  exists block. split; [exact Hblock|].
  apply Hstores. apply elem_of_population_iterations. closed_bounds.
Defined.

(** X13.  After a setup call that succeeds having rebuilt the buffer, for
    a valid configuration and a requested size that does not wrap around,
    the entry at the flat index of every iteration of the population loop
    is exactly the address that iteration computes; iterations of
    overlapping windows that share an index store the same address. *)
Theorem setup_buffer_holds_entries :
  ∀ (qnnp_params : qnnp_parameters) (realloc_reply : option Z)
    (max_pooling : qnnp_operator)
    (batch input_h input_w input_address pixel_stride output_address
     output_stride size : Z),
  let r :=
    qnnp_setup_max_pooling2d_nhwc_u8 qnnp_params realloc_reply max_pooling
      batch input_h input_w input_address pixel_stride output_address
      output_stride in
  let after := setup_operator r in
  let mr := qnnp_params.(u8maxpool_mr) in
  valid_configuration max_pooling →
  1 ≤ mr →
  setup_status r = qnnp_status_success →
  setup_realloc r = Some size →
  is_size_t (sizeof_pointer * required_entry_count mr after batch) →
  ∃ block,
    after.(indirection_buffer) = Some block
    ∧ (∀ t, t ∈ population_iterations after →
         block.(block_entries) !! entry_index after t
         = Some (entry_value after t))
    ∧ (∀ t t', t ∈ population_iterations after →
         t' ∈ population_iterations after →
         entry_index after t = entry_index after t' →
         entry_value after t = entry_value after t').
Proof.
  intros until mr. intros Hvalid Hmr Hstatus Hrealloc Hfit.
  destruct (setup_realloc_inv _ _ _ _ _ _ _ _ _ _ _ Hrealloc)
    as (_ & _ & _ & _ & _ & Hsize & Hlayout & Hbatch).
  destruct (setup_rebuilt_inv _ _ _ _ _ _ _ _ _ _ _ Hstatus Hrealloc)
    as (address & _ & Hafter).
  fold r in Hlayout, Hbatch, Hafter. fold after in Hlayout, Hbatch, Hafter.
  set (geometry := store_geometry max_pooling batch input_h input_w
                     input_address pixel_stride output_address
                     output_stride) in *.
  destruct Hvalid as [_ _ _ _ Hkh Hkw _ Hsw _ Hdw].
  assert (Hkh1 : 1 ≤ geometry.(kernel_height)) by (cbn; lia).
  assert (Hkw1 : 1 ≤ geometry.(kernel_width)) by (cbn; lia).
  assert (Hsw1 : 1 ≤ geometry.(stride_width)) by (cbn; lia).
  assert (Hdw1 : 1 ≤ geometry.(dilation_width)) by (cbn; lia).
  rewrite (required_entry_count_layout _ _ _ _ Hlayout) in Hfit.
  change batch with (batch_size geometry) in Hfit.
  rewrite (population_iterations_layout _ _ Hlayout Hbatch).
  exists (rebuilt_block mr address geometry batch).
  split; [rewrite Hafter; reflexivity|]. split.
  - intros t Ht.
    rewrite (entry_index_layout _ _ _ Hlayout),
      (entry_value_layout _ _ _ Hlayout).
    pose proof (rebuilt_block_entries mr address geometry) as Hentries.
    change (batch_size geometry) with batch in Hentries at 1.
    rewrite Hentries.
    apply stores_lookup_exact; try assumption.
    exact (logical_entry_count_fits mr geometry t Hkh1 Hkw1 Hsw1 Hmr Ht
             Hfit).
  - intros t t' Ht Ht' Hindex.
    rewrite !(entry_index_layout _ _ _ Hlayout) in Hindex.
    rewrite !(entry_value_layout _ _ _ Hlayout).
    apply shared_index_same_value; try assumption.
    exact (logical_entry_count_fits mr geometry t Hkh1 Hkw1 Hsw1 Hmr Ht
             Hfit).
Qed.

Lemma setup_buffer_holds_entries_witness :
  let after :=
    setup_operator (sample_setup (created_operator 2 2 1 1) 1 1000 3) in
  let t := {| image := 0; output_y := 0; pooling_y := 1;
              output_x := 1; pooling_x := 1 |} in
  ∃ block,
    after.(indirection_buffer) = Some block
    ∧ block.(block_entries) !! entry_index after t
      = Some (entry_value after t).
Proof.
  intros after t.
  destruct (setup_buffer_holds_entries sample_params (Some 4096)
              (created_operator 2 2 1 1) 1 4 4 1000 3 2000 3 256)
    as (block & Hblock & Hentries & _);
    [ constructor; closed_bounds | closed_bounds
    | reflexivity | reflexivity | closed_bounds | ].
  exists block. split; [exact Hblock|].
  apply Hentries. apply elem_of_population_iterations. closed_bounds.
Defined.

(** ** Inputs that cover the kernel: entries in closed form *)

(** When the padded input covers the effective kernel, the unclamped row
    of every iteration lies below the padded input height, and the output
    height is at least 1. *)
Lemma covered_rows_within (max_pooling : qnnp_operator)
    (batch input_h input_w input_address pixel_stride output_address
     output_stride : Z) (t : iteration) :
  let geometry :=
    store_geometry max_pooling batch input_h input_w input_address
      pixel_stride output_address output_stride in
  valid_configuration max_pooling →
  effective_kernel max_pooling.(kernel_height) max_pooling.(dilation_height)
  ≤ max_pooling.(input_padding_top) +% input_h
    +% max_pooling.(input_padding_bottom) →
  t ∈ population_iterations geometry →
  0 ≤ t.(output_y) * geometry.(stride_height)
      + t.(pooling_y) * geometry.(dilation_height)
    < max_pooling.(input_padding_top) +% input_h
      +% max_pooling.(input_padding_bottom).
Proof.
  intros geometry Hvalid Hcover Ht. unfold effective_kernel in Hcover.
  destruct Hvalid as [_ _ _ _ Hkh _ Hsh _ Hdh _].
  apply elem_of_population_iterations in Ht as (_ & Hoy & Hpy & _ & _).
  subst geometry. cbn in *.
  set (padded := max_pooling.(input_padding_top) +% input_h
                 +% max_pooling.(input_padding_bottom)) in *.
  assert (Hpadded : is_size_t padded) by apply size_add_range.
  rewrite uint32_modulus_eq in *.
  rewrite compute_output_dimension_exact in Hoy;
    [| exact Hpadded | unfold is_size_t; rewrite size_modulus_eq; lia
     | lia | lia | exact Hcover].
  set (kh := max_pooling.(kernel_height)) in *.
  set (dh := max_pooling.(dilation_height)) in *.
  set (sh := max_pooling.(stride_height)) in *.
  set (room := padded - ((kh - 1) * dh + 1)) in *.
  assert (Hquot : room / sh * sh ≤ room).
  { rewrite Z.mul_comm. apply Z.mul_div_le. lia. }
  assert (Hrows : t.(output_y) * sh ≤ room) by nia.
  assert (Hpool : t.(pooling_y) * dh ≤ (kh - 1) * dh) by nia.
  assert (Hnonneg : 0 ≤ t.(output_y) * sh ∧ 0 ≤ t.(pooling_y) * dh) by nia.
  subst room. lia.
Qed.

Lemma covered_columns_within (max_pooling : qnnp_operator)
    (batch input_h input_w input_address pixel_stride output_address
     output_stride : Z) (t : iteration) :
  let geometry :=
    store_geometry max_pooling batch input_h input_w input_address
      pixel_stride output_address output_stride in
  valid_configuration max_pooling →
  effective_kernel max_pooling.(kernel_width) max_pooling.(dilation_width)
  ≤ max_pooling.(input_padding_left) +% input_w
    +% max_pooling.(input_padding_right) →
  t ∈ population_iterations geometry →
  0 ≤ t.(output_x) * geometry.(stride_width)
      + t.(pooling_x) * geometry.(dilation_width)
    < max_pooling.(input_padding_left) +% input_w
      +% max_pooling.(input_padding_right).
Proof.
  intros geometry Hvalid Hcover Ht. unfold effective_kernel in Hcover.
  destruct Hvalid as [_ _ _ _ _ Hkw _ Hsw _ Hdw].
  apply elem_of_population_iterations in Ht as (_ & _ & _ & Hox & Hpx).
  subst geometry. cbn in *.
  set (padded := max_pooling.(input_padding_left) +% input_w
                 +% max_pooling.(input_padding_right)) in *.
  assert (Hpadded : is_size_t padded) by apply size_add_range.
  rewrite uint32_modulus_eq in *.
  rewrite compute_output_dimension_exact in Hox;
    [| exact Hpadded | unfold is_size_t; rewrite size_modulus_eq; lia
     | lia | lia | exact Hcover].
  set (kw := max_pooling.(kernel_width)) in *.
  set (dw := max_pooling.(dilation_width)) in *.
  set (sw := max_pooling.(stride_width)) in *.
  set (room := padded - ((kw - 1) * dw + 1)) in *.
  assert (Hquot : room / sw * sw ≤ room).
  { rewrite Z.mul_comm. apply Z.mul_div_le. lia. }
  assert (Hcolumns : t.(output_x) * sw ≤ room) by nia.
  assert (Hpool : t.(pooling_x) * dw ≤ (kw - 1) * dw) by nia.
  assert (Hnonneg : 0 ≤ t.(output_x) * sw ∧ 0 ≤ t.(pooling_x) * dw) by nia.
  subst room. lia.
Qed.

(** X14.  After a successful setup call on a descriptor with a valid
    configuration whose padded input covers the effective kernel on both
    axes, no coordinate wraps around: for every iteration of the
    population loop the clamped row is [min(max(0, outputRow * strideHeight
    + poolingRow * dilationHeight - topPadding), inputHeight - 1)] over the
    integers, and the clamped column likewise. *)
Theorem setup_covered_input_closed_form :
  ∀ (qnnp_params : qnnp_parameters) (realloc_reply : option Z)
    (max_pooling : qnnp_operator)
    (batch input_h input_w input_address pixel_stride output_address
     output_stride : Z),
  let r :=
    qnnp_setup_max_pooling2d_nhwc_u8 qnnp_params realloc_reply max_pooling
      batch input_h input_w input_address pixel_stride output_address
      output_stride in
  let after := setup_operator r in
  valid_configuration max_pooling →
  is_size_t input_h → is_size_t input_w →
  input_covers_kernel max_pooling input_h input_w →
  setup_status r = qnnp_status_success →
  ∀ t, t ∈ population_iterations after →
    clamped_input_y after t
    = Z.min
        (Z.max 0
           (t.(output_y) * max_pooling.(stride_height)
            + t.(pooling_y) * max_pooling.(dilation_height)
            - max_pooling.(input_padding_top)))
        (input_h - 1)
    ∧ clamped_input_x after t
      = Z.min
          (Z.max 0
             (t.(output_x) * max_pooling.(stride_width)
              + t.(pooling_x) * max_pooling.(dilation_width)
              - max_pooling.(input_padding_left)))
          (input_w - 1).
Proof.
  intros until after.
  intros Hvalid Hih Hiw (Hrows & Hcolumns) Hstatus t Ht.
  destruct (setup_success_layout _ _ _ _ _ _ _ _ _ _ Hstatus)
    as (Hlayout & _ & Hits & Hh & Hw).
  fold r in Hlayout, Hits. fold after in Hlayout, Hits.
  rewrite Hits in Ht.
  rewrite (clamped_input_y_layout _ _ _ Hlayout),
    (clamped_input_x_layout _ _ _ Hlayout).
  pose proof (covered_rows_within max_pooling batch input_h input_w
                input_address pixel_stride output_address output_stride t
                Hvalid Hrows Ht) as Hrow.
  pose proof (covered_columns_within max_pooling batch input_h input_w
                input_address pixel_stride output_address output_stride t
                Hvalid Hcolumns Ht) as Hcolumn.
  cbv zeta in Hrow, Hcolumn.
  pose proof (size_add_range
                (max_pooling.(input_padding_top) +% input_h)
                max_pooling.(input_padding_bottom)) as Hpadded_h.
  pose proof (size_add_range
                (max_pooling.(input_padding_left) +% input_w)
                max_pooling.(input_padding_right)) as Hpadded_w.
  split.
  - rewrite clamped_input_y_spec;
      [reflexivity | exact Hih | exact Hh
      | unfold is_size_t in *; lia].
  - rewrite clamped_input_x_spec;
      [reflexivity | exact Hiw | exact Hw
      | unfold is_size_t in *; lia].
Qed.

Lemma setup_covered_input_closed_form_witness :
  let after :=
    setup_operator (sample_setup (created_operator 2 2 2 2) 1 1000 3) in
  let t := {| image := 0; output_y := 1; pooling_y := 1;
              output_x := 1; pooling_x := 0 |} in
  clamped_input_y after t = Z.min (Z.max 0 (1 * 2 + 1 * 1 - 0)) (4 - 1)
  ∧ clamped_input_x after t = Z.min (Z.max 0 (1 * 2 + 0 * 1 - 0)) (4 - 1).
Proof.
  intros after t.
  apply (setup_covered_input_closed_form sample_params (Some 4096)
           (created_operator 2 2 2 2) 1 4 4 1000 3 2000 3);
    [ exact created_operator_valid | closed_bounds | closed_bounds
    | split; closed_bounds | reflexivity
    | apply elem_of_population_iterations; closed_bounds ].
Defined.

(** X15.  Without padding, and with an input that covers the effective
    kernel, nothing is clamped: after a successful setup call every
    iteration of the population loop addresses the pixel of its own window
    position, at row [outputRow * strideHeight + poolingRow *
    dilationHeight] and column [outputColumn * strideWidth + poolingColumn
    * dilationWidth], both within the input. *)
Theorem setup_unpadded_entries :
  ∀ (qnnp_params : qnnp_parameters) (realloc_reply : option Z)
    (max_pooling : qnnp_operator)
    (batch input_h input_w input_address pixel_stride output_address
     output_stride : Z),
  let r :=
    qnnp_setup_max_pooling2d_nhwc_u8 qnnp_params realloc_reply max_pooling
      batch input_h input_w input_address pixel_stride output_address
      output_stride in
  let after := setup_operator r in
  valid_configuration max_pooling →
  max_pooling.(input_padding_top) = 0 →
  max_pooling.(input_padding_bottom) = 0 →
  max_pooling.(input_padding_left) = 0 →
  max_pooling.(input_padding_right) = 0 →
  is_size_t input_h → is_size_t input_w →
  input_covers_kernel max_pooling input_h input_w →
  setup_status r = qnnp_status_success →
  ∀ t, t ∈ population_iterations after →
    let row :=
      t.(output_y) * max_pooling.(stride_height)
      + t.(pooling_y) * max_pooling.(dilation_height) in
    let column :=
      t.(output_x) * max_pooling.(stride_width)
      + t.(pooling_x) * max_pooling.(dilation_width) in
    0 ≤ row < input_h
    ∧ 0 ≤ column < input_w
    ∧ entry_value after t
      = entry_address input_address input_h input_w pixel_stride
          t.(image) row column.
Proof.
  intros until after.
  intros Hvalid Htop Hbottom Hleft Hright Hih Hiw (Hrows & Hcolumns)
    Hstatus t Ht row column.
  destruct (setup_success_layout _ _ _ _ _ _ _ _ _ _ Hstatus)
    as (Hlayout & _ & Hits & Hh & Hw).
  fold r in Hlayout, Hits. fold after in Hlayout, Hits.
  rewrite Hits in Ht.
  pose proof (covered_rows_within max_pooling batch input_h input_w
                input_address pixel_stride output_address output_stride t
                Hvalid Hrows Ht) as Hrow.
  pose proof (covered_columns_within max_pooling batch input_h input_w
                input_address pixel_stride output_address output_stride t
                Hvalid Hcolumns Ht) as Hcolumn.
  cbv zeta in Hrow, Hcolumn. cbn in Hrow, Hcolumn.
  fold row in Hrow. fold column in Hcolumn.
  assert (Hpadded_h : max_pooling.(input_padding_top) +% input_h
                      +% max_pooling.(input_padding_bottom) = input_h).
  { rewrite Htop, Hbottom. wrap_exact_tac.
    replace (0 + input_h + 0) with input_h by lia. exact Hih. }
  assert (Hpadded_w : max_pooling.(input_padding_left) +% input_w
                      +% max_pooling.(input_padding_right) = input_w).
  { rewrite Hleft, Hright. wrap_exact_tac.
    replace (0 + input_w + 0) with input_w by lia. exact Hiw. }
  rewrite Hpadded_h in Hrow. rewrite Hpadded_w in Hcolumn.
  split; [exact Hrow|]. split; [exact Hcolumn|].
  rewrite (entry_value_layout _ _ _ Hlayout).
  unfold entry_value, entry_address.
  assert (Hy : clamped_input_y
                 (store_geometry max_pooling batch input_h input_w
                    input_address pixel_stride output_address
                    output_stride) t = row).
  { rewrite clamped_input_y_spec;
      [ | exact Hih | exact Hh | unfold is_size_t in *; cbn; lia].
    unfold clamped_row_spec. cbn. fold row. rewrite Htop. lia. }
  assert (Hx : clamped_input_x
                 (store_geometry max_pooling batch input_h input_w
                    input_address pixel_stride output_address
                    output_stride) t = column).
  { rewrite clamped_input_x_spec;
      [ | exact Hiw | exact Hw | unfold is_size_t in *; cbn; lia].
    unfold clamped_column_spec. cbn. fold column. rewrite Hleft. lia. }
  rewrite Hy, Hx. reflexivity.
Qed.

Lemma setup_unpadded_entries_witness :
  let after :=
    setup_operator (sample_setup (created_operator 2 2 2 2) 1 1000 3) in
  let t := {| image := 0; output_y := 1; pooling_y := 1;
              output_x := 1; pooling_x := 0 |} in
  entry_value after t = entry_address 1000 4 4 3 0 (1 * 2 + 1 * 1)
                          (1 * 2 + 0 * 1).
Proof.
  intros after t.
  apply (setup_unpadded_entries sample_params (Some 4096)
           (created_operator 2 2 2 2) 1 4 4 1000 3 2000 3);
    [ exact created_operator_valid | reflexivity | reflexivity
    | reflexivity | reflexivity | closed_bounds | closed_bounds
    | split; closed_bounds | reflexivity
    | apply elem_of_population_iterations; closed_bounds ].
Defined.
